(** * Slack-RAG: candidate association and context building

    A shallow embedding of the candidate extractor
    ([candidate_extractor.py]), of the retrieval backend's query and
    context builders ([slack_rag_backend.py]) and of the digest
    generator's profile recognition and date-range resolution
    ([generate_digest.py]), with the properties the specification states
    about them.

    Conventions of the embedding:
    - a Slack message is a Python [dict] with string keys; it is a
      [gmap string pyval], so that [msg.get(k)] is a lookup and [==] on
      messages (used by [msg in some_list]) is equality of maps;
    - the values of a message are JSON [null] or strings; text is ASCII;
    - a Python exception is a value of [res]; code that mutates [self]
      and may raise is a function [St -> St * res A], so that what was
      mutated before the raise is still visible after it;
    - Python dicts keep insertion order: [candidate_map], [associations]
      and the dicts built while grouping are association lists with
      in-place overwrite ([od_set]). *)

From Stdlib Require Import ZArith Ascii String List Bool Lia.
From stdpp Require Import base option list gmap strings pretty sorting.
Import ListNotations.

Local Open Scope string_scope.
Local Open Scope list_scope.

(** ** Python values and exceptions *)

Module Py.

Inductive pyval : Type :=
| VNone
| VStr (s : string).

#[global] Instance pyval_eq_dec : EqDecision pyval.
Proof. solve_decision. Defined.

(** Truth value of an object: [None] and [''] are false. *)
Definition truthy (v : pyval) : bool :=
  match v with
  | VNone => false
  | VStr EmptyString => false
  | VStr (String _ _) => true
  end.

(** [a or b] *)
Definition py_or (a b : pyval) : pyval := if truthy a then a else b.

(** [str(v)], as an f-string interpolates it. *)
Definition py_str (v : pyval) : string :=
  match v with
  | VNone => "None"
  | VStr s => s
  end.

(** [a == b] and [a != b] on values. *)
Definition py_eqb (a b : pyval) : bool := bool_decide (a = b).

(** Exceptions carry their class name and [str(e)]. *)
Record exn : Type := Exn { exn_class : string; exn_str : string }.

Inductive res (A : Type) : Type :=
| Ok (a : A)
| Raise (e : exn).
Arguments Ok {A} a.
Arguments Raise {A} e.

Definition TypeError (msg : string) : exn := Exn "TypeError" msg.
Definition AttributeError (msg : string) : exn := Exn "AttributeError" msg.
Definition ValueError (msg : string) : exn := Exn "ValueError" msg.
Definition KeyError (msg : string) : exn := Exn "KeyError" msg.

(** *** Messages *)

Abbreviation Message := (gmap string pyval).

(** [msg.get(k)] *)
Definition get (m : Message) (k : string) : pyval := default VNone (m !! k).

(** [msg.get(k, d)]: the default is used only when the key is absent. *)
Definition get_or (m : Message) (k : string) (d : pyval) : pyval :=
  default d (m !! k).

(** [msg in l] compares with [==]. *)
Definition msg_in (m : Message) (l : list Message) : bool :=
  bool_decide (m ∈ l).

(** *** Insertion-ordered dicts *)

Section ODict.
Context {K V : Type} `{EqDecision K}.

Definition odict : Type := list (K * V).

Fixpoint od_get (k : K) (d : odict) : option V :=
  match d with
  | [] => None
  | (k', v) :: d' => if decide (k = k') then Some v else od_get k d'
  end.

(** [d[k] = v]: an existing key keeps its place. *)
Fixpoint od_set (k : K) (v : V) (d : odict) : odict :=
  match d with
  | [] => [(k, v)]
  | (k', v') :: d' =>
      if decide (k = k') then (k', v) :: d' else (k', v') :: od_set k v d'
  end.

(** In-place update of the value stored under [k] (a mutation of the
    object [d[k]]); nothing happens when [k] is not a key. *)
Fixpoint od_alter (f : V -> V) (k : K) (d : odict) : odict :=
  match d with
  | [] => []
  | (k', v') :: d' =>
      if decide (k = k') then (k', f v') :: d' else (k', v') :: od_alter f k d'
  end.

Definition od_keys (d : odict) : list K := map fst d.

(** [k in d] *)
Definition od_mem (k : K) (d : odict) : bool :=
  match od_get k d with Some _ => true | None => false end.

(** [d[k]], which raises [KeyError] on a missing key. *)
Definition od_index (k : K) (d : odict) : res V :=
  match od_get k d with
  | Some v => Ok v
  | None => Raise (KeyError "key not found")
  end.
End ODict.
Arguments odict K V : clear implicits.

(** *** Strings *)

Definition la (s : string) : list ascii := list_ascii_of_string s.
Definition of_la (l : list ascii) : string := string_of_list_ascii l.

Definition ascii_eqb (a b : ascii) : bool := Ascii.eqb a b.

(** [str.isspace] on ASCII: TAB..CR, FS..US and the blank. *)
Definition is_space (c : ascii) : bool :=
  let n := nat_of_ascii c in
  (((9 <=? n) && (n <=? 13)) || ((28 <=? n) && (n <=? 32)))%nat.

Fixpoint lstrip (l : list ascii) : list ascii :=
  match l with
  | [] => []
  | c :: l' => if is_space c then lstrip l' else l
  end.

Definition rstrip (l : list ascii) : list ascii := rev (lstrip (rev l)).

(** [s.strip()] *)
Definition strip_la (l : list ascii) : list ascii := rstrip (lstrip l).
Definition strip (s : string) : string := of_la (strip_la (la s)).

Definition lower_ascii (c : ascii) : ascii :=
  let n := nat_of_ascii c in
  if ((65 <=? n) && (n <=? 90))%nat then ascii_of_nat (n + 32) else c.

(** [s.lower()] *)
Definition lower (s : string) : string := of_la (map lower_ascii (la s)).

Fixpoint starts_with (p l : list ascii) : bool :=
  match p, l with
  | [], _ => true
  | _ :: _, [] => false
  | a :: p', b :: l' => ascii_eqb a b && starts_with p' l'
  end.

Fixpoint contains_la (needle hay : list ascii) : bool :=
  starts_with needle hay ||
  match hay with
  | [] => false
  | _ :: hay' => contains_la needle hay'
  end.

(** [needle in hay] on strings *)
Definition contains (needle hay : string) : bool :=
  contains_la (la needle) (la hay).

(** [sep.join(parts)] *)
Fixpoint join (sep : string) (parts : list string) : string :=
  match parts with
  | [] => ""
  | [p] => p
  | p :: ps => p +:+ sep +:+ join sep ps
  end.

End Py.

(** ** Stateful code that may raise

    A method that mutates [self] and may raise is a function from the
    state before the call to the state after it and the outcome. *)

Module Eff.
Import Py.

Definition M (St A : Type) : Type := St -> St * res A.

Section Monad.
Context {St : Type}.

Definition ret {A} (a : A) : M St A := fun s => (s, Ok a).

Definition bind {A B} (m : M St A) (f : A -> M St B) : M St B :=
  fun s =>
    match m s with
    | (s', Ok a) => f a s'
    | (s', Raise e) => (s', Raise e)
    end.

Definition raise {A} (e : exn) : M St A := fun s => (s, Raise e).
Definition lift {A} (r : res A) : M St A := fun s => (s, r).
Definition gets {A} (f : St -> A) : M St A := fun s => (s, Ok (f s)).
(** Reading the state with an operation that may raise. *)
Definition gets_res {A} (f : St -> res A) : M St A := fun s => (s, f s).
Definition modify (f : St -> St) : M St unit := fun s => (f s, Ok tt).

(** [for x in xs: body]; a raise inside the body leaves the loop. *)
Fixpoint for_each {X} (xs : list X) (body : X -> M St unit) : M St unit :=
  match xs with
  | [] => ret tt
  | x :: xs' => bind (body x) (fun _ => for_each xs' body)
  end.

End Monad.

Declare Scope eff_scope.
Delimit Scope eff_scope with eff.
Notation "x <~ m ;; k" := (bind m (fun x => k))
  (at level 100, m at next level, right associativity) : eff_scope.
Notation "m ;; k" := (bind m (fun _ => k))
  (at level 100, right associativity) : eff_scope.

End Eff.

(** ** Regular expressions

    The fragment of Python's [re] that the two profile patterns use.
    [run] lists the ways a pattern can match at the start of the input in
    the order the backtracking matcher of [re] tries them (greedy
    operators take the longest alternative first), so that the match
    [re] reports is the head of the list. *)

Module Re.
Import Py.

(** A bracket expression [[...]] or [[^...]]: the listed characters, and
    [\s] when [cc_space] is set. *)
Record cclass : Type := CClass {
  cc_negated : bool;
  cc_chars : list ascii;
  cc_space : bool
}.

Definition cc_matches (cl : cclass) (c : ascii) : bool :=
  xorb (cc_negated cl)
       (existsb (ascii_eqb c) (cc_chars cl) || (cc_space cl && is_space c)).

Inductive re : Type :=
| Lit (s : string)            (* a literal run of characters *)
| Plus (cl : cclass)          (* [cl+], greedy *)
| Opt (r : re)                (* [(?:r)?], greedy *)
| Cat (r1 r2 : re)            (* concatenation *)
| Grp (n : nat) (r : re).     (* capturing group number [n] *)

(** Captured groups, most recent binding first. *)
Definition caps : Type := list (nat * list ascii).

Fixpoint strip_prefix (p l : list ascii) : option (list ascii) :=
  match p, l with
  | [], _ => Some l
  | _ :: _, [] => None
  | a :: p', b :: l' => if ascii_eqb a b then strip_prefix p' l' else None
  end.

(** What is left of the input after [cl+], longest match first. *)
Fixpoint plus_rests (cl : cclass) (s : list ascii) : list (list ascii) :=
  match s with
  | [] => []
  | c :: s' => if cc_matches cl c then plus_rests cl s' ++ [s'] else []
  end.

Fixpoint run (r : re) (s : list ascii) (cp : caps) : list (list ascii * caps) :=
  match r with
  | Lit l =>
      match strip_prefix (la l) s with
      | Some s' => [(s', cp)]
      | None => []
      end
  | Plus cl => map (fun s' => (s', cp)) (plus_rests cl s)
  | Opt r1 => run r1 s cp ++ [(s, cp)]
  | Cat r1 r2 =>
      flat_map (fun m => run r2 (fst m) (snd m)) (run r1 s cp)
  | Grp n r1 =>
      map (fun m => (fst m, (n, take (length s - length (fst m)) s) :: snd m))
          (run r1 s cp)
  end.

(** [pattern.match] at the start of [s]: the rest of the input and the
    groups of the first successful alternative. *)
Definition match_here (r : re) (s : list ascii) : option (list ascii * caps) :=
  head (run r s []).

(** [match.group(n)]; [None] when the group took no part in the match. *)
Fixpoint group (cp : caps) (n : nat) : option string :=
  match cp with
  | [] => None
  | (k, g) :: cp' => if Nat.eqb k n then Some (of_la g) else group cp' n
  end.

(** [pattern.finditer]: leftmost matches, scanning left to right and
    resuming after each match. [skip] counts the characters of the last
    match that are still to be passed over. Both patterns below contain a
    literal, so no match is empty. *)
Fixpoint finditer_from (r : re) (s : list ascii) (skip : nat) : list caps :=
  match s with
  | [] => []
  | _ :: s' =>
      match skip with
      | S k => finditer_from r s' k
      | O =>
          match match_here r s with
          | Some (rest, cp) =>
              cp :: finditer_from r s' (length s - length rest - 1)
          | None => finditer_from r s' 0
          end
      end
  end.

Definition finditer (r : re) (text : string) : list caps :=
  finditer_from r (la text) 0.

Declare Scope re_scope.
Delimit Scope re_scope with re.
Infix "·" := Cat (at level 41, right associativity) : re_scope.

End Re.

(** ** The candidate extractor ([candidate_extractor.py]) *)

Module Extractor.
Import Py Re.

(** [LINKEDIN_REGEX =
     r'<(https?://(?:www\.)?linkedin\.com/in/[^>|]+)\|([^>]+)>'] *)
Definition LINKEDIN_REGEX : re :=
  (Lit "<" ·
   Grp 1 (Lit "http" · Opt (Lit "s") · Lit "://" · Opt (Lit "www.") ·
          Lit "linkedin.com/in/" ·
          Plus (CClass true [">"; "|"]%char false)) ·
   Lit "|" ·
   Grp 2 (Plus (CClass true [">"]%char false)) ·
   Lit ">")%re.

(** A candidate anchor, the dict built by [extract_candidates]. *)
Record Candidate : Type := mkCandidate {
  name : string;
  linkedin_url : string;
  message_id : pyval;
  timestamp : pyval;
  channel : string;
  user : pyval;
  text : string
}.

(** An entry of [self.associations]. *)
Record Bundle : Type := mkBundle {
  anchor : Candidate;
  threads : list Message;
  direct : list Message;
  fuzzy : list Message
}.

(** The attributes of a [CandidateExtractor]. *)
Record Extractor : Type := mkExtractor {
  candidates : list Candidate;
  candidate_map : odict string Candidate;
  associations : odict string Bundle
}.

#[global] Instance Candidate_eq_dec : EqDecision Candidate.
Proof. solve_decision. Defined.
#[global] Instance Bundle_eq_dec : EqDecision Bundle.
Proof. solve_decision. Defined.
#[global] Instance Extractor_eq_dec : EqDecision Extractor.
Proof. solve_decision. Defined.

(** [CandidateExtractor()] *)
Definition init : Extractor := mkExtractor [] [] [].

Local Open Scope eff_scope.
Import Eff.

(** [re.finditer(text)] with [text = msg.get('text', '')]: a [None] text
    is not accepted by [re]. *)
Definition text_matches (r : re) (text : pyval) : res (string * list caps) :=
  match text with
  | VStr t => Ok (t, finditer r t)
  | VNone =>
      Raise (TypeError "expected string or bytes-like object, got 'NoneType'")
  end.

(** [match.group(n).strip()] *)
Definition group_strip (cp : caps) (n : nat) : res string :=
  match group cp n with
  | Some g => Ok (strip g)
  | None => Raise (AttributeError "'NoneType' object has no attribute 'strip'")
  end.

(** The candidate dict of one match. *)
Definition make_candidate (msg : Message) (channel_name text : string)
    (linkedin_url candidate_name : string) : Candidate :=
  {| name := candidate_name;
     linkedin_url := linkedin_url;
     message_id := py_or (get msg "id") (get msg "ts");
     timestamp := get msg "ts";
     channel := channel_name;
     user := get_or msg "user" (VStr "");
     text := text |}.

(** The three stores updated for one match. *)
Definition record_candidate (candidate : Candidate) (st : Extractor) : Extractor :=
  {| candidates := candidates st ++ [candidate];
     candidate_map := od_set (linkedin_url candidate) candidate (candidate_map st);
     associations :=
       od_set (linkedin_url candidate)
              (mkBundle candidate [] [] []) (associations st) |}.

Definition extract_candidates (messages : list Message) (channel_name : string)
    : M Extractor (list Candidate) :=
  for_each messages (fun msg =>
    tm <~ lift (text_matches LINKEDIN_REGEX (get_or msg "text" (VStr ""))) ;;
    for_each (snd tm) (fun mt =>
      candidate_name <~ lift (group_strip mt 2) ;;
      linkedin_url <~ lift (group_strip mt 1) ;;
      modify (record_candidate
                (make_candidate msg channel_name (fst tm)
                                linkedin_url candidate_name)))) ;;
  gets candidates.

(** [thread_map = {c['anchor']['message_id']: url
                   for url, c in self.associations.items()}] *)
Definition thread_map_of (assoc : odict string Bundle) : odict pyval string :=
  fold_left (fun tm uc => od_set (message_id (anchor (snd uc))) (fst uc) tm)
            assoc [].

Definition add_thread (msg : Message) (b : Bundle) : Bundle :=
  mkBundle (anchor b) (threads b ++ [msg]) (direct b) (fuzzy b).
Definition add_direct (msg : Message) (b : Bundle) : Bundle :=
  mkBundle (anchor b) (threads b) (direct b ++ [msg]) (fuzzy b).
Definition add_fuzzy (msg : Message) (b : Bundle) : Bundle :=
  mkBundle (anchor b) (threads b) (direct b) (fuzzy b ++ [msg]).

(** [self.associations[url][...].append(msg)] *)
Definition bundle_append (add : Message -> Bundle -> Bundle) (url : string)
    (msg : Message) : M Extractor unit :=
  _b <~ gets_res (fun st => od_index url (associations st)) ;;
  modify (fun st =>
    mkExtractor (candidates st) (candidate_map st)
                (od_alter (add msg) url (associations st))).

Definition associate_threads (messages : list Message) : M Extractor unit :=
  thread_map <~ gets (fun st => thread_map_of (associations st)) ;;
  for_each messages (fun msg =>
    let thread_ts := get msg "thread_ts" in
    if truthy thread_ts && od_mem thread_ts thread_map
       && negb (py_eqb (get msg "ts") thread_ts)
    then
      url <~ lift (od_index thread_ts thread_map) ;;
      bundle_append add_thread url msg
    else ret tt).

(** [url in text or name.lower() in text.lower()] *)
Definition mentions (url name : string) (text : pyval) : res bool :=
  match text with
  | VStr t => Ok (contains url t || contains (lower name) (lower t))
  | VNone => Raise (TypeError "argument of type 'NoneType' is not iterable")
  end.

Definition associate_direct_mentions (messages : list Message)
    : M Extractor unit :=
  for_each messages (fun msg =>
    let text := get_or msg "text" (VStr "") in
    items <~ gets candidate_map ;;
    for_each items (fun uc =>
      let url := fst uc in
      let candidate := snd uc in
      mentioned <~ lift (mentions url (name candidate) text) ;;
      if mentioned then
        if py_eqb (get msg "id") (message_id candidate) then ret tt
        else if negb (truthy (get msg "thread_ts"))
                || negb (py_eqb (get msg "thread_ts") (message_id candidate))
        then bundle_append add_direct url msg
        else ret tt
      else ret tt)).

(** The retrieval backend as [associate_fuzzy] sees it:
    [rag_backend.semantic_search(text, n_results, channel)] returns the
    documents found, or raises; within one run it answers the same call
    in the same way. *)
Definition Backend : Type := pyval -> nat -> string -> res (list string).

Definition associate_fuzzy (messages : list Message) (rag_backend : Backend)
    (channel_name : string) : M Extractor unit :=
  for_each messages (fun msg =>
    let text := get_or msg "text" (VStr "") in
    items <~ gets candidate_map ;;
    for_each items (fun uc =>
      let url := fst uc in
      let candidate := snd uc in
      b <~ gets_res (fun st => od_index url (associations st)) ;;
      if msg_in msg (threads b) || msg_in msg (direct b)
         || py_eqb (get msg "id") (message_id candidate)
      then ret tt
      else
        top_docs <~ lift (rag_backend text 3 channel_name) ;;
        if contains (name candidate) (join "" top_docs)
        then bundle_append add_fuzzy url msg
        else ret tt)).

(** The stages in their order, on a fresh extractor and one corpus. *)
Definition pipeline (messages : list Message) (channel_name : string)
    (rag_backend : Backend) : M Extractor unit :=
  extract_candidates messages channel_name ;;
  associate_threads messages ;;
  associate_direct_mentions messages ;;
  associate_fuzzy messages rag_backend channel_name.

(** [get_candidate_associations], [get_all_candidates] and
    [get_all_associations]. *)
Definition get_candidate_associations (linkedin_url : string) (st : Extractor)
    : option Bundle :=
  od_get linkedin_url (associations st).
Definition get_all_candidates (st : Extractor) : list Candidate := candidates st.
Definition get_all_associations (st : Extractor) : odict string Bundle :=
  associations st.

(** [llm_judge_fn]: the prompt is the triple-quoted f-string of the
    source, with its line breaks and its indentation; [llm_client.ask]
    returns the answer or raises. *)
Definition llm_judge_prompt (message : Message) (candidate : Candidate) : string :=
  let nl := String (ascii_of_nat 10) EmptyString in
  nl +:+ "        Candidate: " +:+ name candidate
     +:+ " (" +:+ linkedin_url candidate +:+ ")" +:+
  nl +:+ "        Message: " +:+ py_str (get_or message "text" (VStr "")) +:+
  nl +:+ "        Is this message about the candidate? Answer YES or NO." +:+
  nl +:+ "        ".

Definition llm_judge_fn (message : Message) (candidate : Candidate)
    (ask : string -> res string) : res bool :=
  match ask (llm_judge_prompt message candidate) with
  | Ok response => Ok (contains "yes" (lower response))
  | Raise e => Raise e
  end.

(** *** A backend with a memory

    [associate_fuzzy] calls [rag_backend.semantic_search] once for every
    pair of a message and a candidate that it examines, and the backend
    is an object: what it answers may change from one call to the next,
    also for the same text. [rag_backend k] is the backend at the call
    number [k] of the run, and the state of the run carries the number of
    calls made so far. A call that raises has been made. *)
Definition CallBackend : Type := nat -> Backend.

Definition semantic_search_call (rag_backend : CallBackend) (text : pyval)
    (n_results : nat) (channel_name : string)
    : M (Extractor * nat) (list string) :=
  fun s => ((fst s, S (snd s)), rag_backend (snd s) text n_results channel_name).

(** [self.associations[url]['fuzzy'].append(msg)] *)
Definition fuzzy_append (url : string) (msg : Message) : M (Extractor * nat) unit :=
  fun s =>
    match bundle_append add_fuzzy url msg (fst s) with
    | (st', r) => ((st', snd s), r)
    end.

(** The body of the inner loop, for one pair. *)
Definition fuzzy_pair (rag_backend : CallBackend) (channel_name : string)
    (msg : Message) (uc : string * Candidate) : M (Extractor * nat) unit :=
  let text := get_or msg "text" (VStr "") in
  let url := fst uc in
  let candidate := snd uc in
  b <~ gets_res (fun s => od_index url (associations (fst s))) ;;
  if msg_in msg (threads b) || msg_in msg (direct b)
     || py_eqb (get msg "id") (message_id candidate)
  then ret tt
  else
    top_docs <~ semantic_search_call rag_backend text 3 channel_name ;;
    if contains (name candidate) (join "" top_docs)
    then fuzzy_append url msg
    else ret tt.

Definition associate_fuzzy_calls (messages : list Message)
    (rag_backend : CallBackend) (channel_name : string)
    : M (Extractor * nat) unit :=
  for_each messages (fun msg =>
    items <~ gets (fun s => candidate_map (fst s)) ;;
    for_each items (fuzzy_pair rag_backend channel_name msg)).

End Extractor.

(** ** The retrieval backend ([slack_rag_backend.py]) *)

Module Rag.
Import Py Re Eff Extractor.

Definition nl : string := String (ascii_of_nat 10) EmptyString.
Definition dquote : string := String (ascii_of_nat 34) EmptyString.

(** Sequencing of computations that only return or raise. *)
Definition and_then {A B} (r : res A) (f : A -> res B) : res B :=
  match r with
  | Ok a => f a
  | Raise e => Raise e
  end.

Fixpoint map_res {A B} (f : A -> res B) (l : list A) : res (list B) :=
  match l with
  | [] => Ok []
  | x :: l' =>
      and_then (f x) (fun y => and_then (map_res f l') (fun ys => Ok (y :: ys)))
  end.

(** *** Query rewriting and semantic search *)

(** A condition of the [where] filter handed to the collection. *)
Inductive wcond : Type :=
| WEq (v : pyval)
| WRange (gte lte : option pyval).

(** The collaborators of the backend: the Anthropic client (its
    constructor and [messages.create(...)], read as
    [response.content[0].text]) and the vector collection
    ([collection.query(...)["documents"]]). *)
Record Collaborators : Type := {
  anthropic_client : res unit;
  messages_create : string -> string -> res string;
  collection_query :
    list string -> nat -> option (odict string wcond) -> res (list (list string))
}.

Definition optimizer_system_prompt : string :=
  "You are an assistant that helps optimize search queries. " +:+
  "Provide a more precise or expanded version of the given query to improve search results.".

Definition optimize_query_with_claude (c : Collaborators) (query : pyval)
    : res string :=
  let user_prompt :=
    "Optimize the following query for better search results: " +:+ py_str query in
  and_then (anthropic_client c) (fun _ =>
    match messages_create c optimizer_system_prompt user_prompt with
    | Ok response_text => Ok response_text
    | Raise e => Ok ("[ERROR] Claude API error: " +:+ exn_str e)
    end).

Definition where_of (channel start_date end_date : pyval) : odict string wcond :=
  let w0 := if truthy channel then [("channel", WEq channel)] else [] in
  let w1 :=
    if truthy start_date
    then od_set "datetime" (WRange (Some start_date) None) w0
    else w0 in
  if truthy end_date
  then od_set "datetime"
         (match od_get "datetime" w1 with
          | Some (WRange gte _) => WRange gte (Some end_date)
          | _ => WRange None (Some end_date)
          end) w1
  else w1.

(** [results["documents"][0] if results["documents"] else []] *)
Definition first_documents (documents : list (list string)) : list string :=
  match documents with
  | [] => []
  | d :: _ => d
  end.

Definition semantic_search (c : Collaborators) (query : pyval) (n_results : nat)
    (channel start_date end_date : pyval) : res (list string) :=
  and_then (optimize_query_with_claude c query) (fun optimized_query =>
    let where_ := where_of channel start_date end_date in
    and_then
      (match where_ with
       | [] => collection_query c [optimized_query] n_results None
       | _ :: _ => collection_query c [optimized_query] n_results (Some where_)
       end)
      (fun documents => Ok (first_documents documents))).

(** The backend as the extractor's [associate_fuzzy] calls it:
    [semantic_search(text, n_results=3, channel=channel_name)]. *)
Definition as_backend (c : Collaborators) : Backend :=
  fun text n channel_name => semantic_search c text n (VStr channel_name) VNone VNone.

(** *** Context builders *)

Section Builders.

(** Timestamps are floats in the source; the builders only parse, compare
    and print them, so any type with these operations will do. *)
Context {F : Type}.
Context (fzero : F) (fis_zero : F -> bool) (fleb : F -> F -> bool).
Context (parse_float : string -> option F) (strftime : F -> string).

(** The storage collaborator: the messages of a window ([None] as upper
    bound is [float('inf')]), and the name tables that
    [_get_channel_name] and [_get_user_name] consult. *)
Record DataStore : Type := {
  get_messages_by_date_range : F -> option F -> pyval -> list Message;
  channel_names : pyval -> option string;
  user_names : pyval -> option string
}.

(** [start_ts or 0] and [end_ts or float('inf')] *)
Definition or_zero (t : option F) : F := default fzero t.
Definition or_inf (t : option F) : option F :=
  match t with
  | Some x => if fis_zero x then None else Some x
  | None => None
  end.

Definition _get_channel_name (ds : DataStore) (channel_id : pyval) : pyval :=
  match channel_names ds channel_id with
  | Some n => VStr n
  | None => channel_id
  end.

Definition _get_user_name (ds : DataStore) (user_id : pyval) : pyval :=
  match user_names ds user_id with
  | Some n => VStr n
  | None => py_or user_id (VStr "Unknown User")
  end.

(** [float(v)] *)
Definition float_of (v : pyval) : res F :=
  match v with
  | VStr s =>
      match parse_float s with
      | Some x => Ok x
      | None => Raise (ValueError "could not convert string to float")
      end
  | VNone => Raise (TypeError "float() argument must be a string or a real number, not 'NoneType'")
  end.

(** [float(m.get(k, 0))] *)
Definition float_field (m : Message) (k : string) : res F :=
  match m !! k with
  | None => Ok fzero
  | Some v => float_of v
  end.

(** [list.sort(key=...)]: the keys are computed first, the sort is
    stable. *)
Fixpoint insert_by_key (x : F * Message) (l : list (F * Message))
    : list (F * Message) :=
  match l with
  | [] => [x]
  | y :: l' =>
      if fleb (fst x) (fst y) then x :: y :: l' else y :: insert_by_key x l'
  end.

Definition sort_keyed (l : list (F * Message)) : list (F * Message) :=
  foldr insert_by_key [] l.

Definition sort_by_ts (msgs : list Message) : res (list Message) :=
  and_then (map_res (fun m => and_then (float_field m "ts") (fun k => Ok (k, m))) msgs)
           (fun keyed => Ok (map snd (sort_keyed keyed))).

(** The grouping loop: [thread_messages[thread_ts].append(msg)] with
    [thread_ts = msg.get('thread_ts', msg.get('ts'))]. *)
Definition group_by_thread (messages : list Message)
    : odict pyval (list Message) :=
  fold_left (fun d msg =>
               let thread_ts := get_or msg "thread_ts" (get msg "ts") in
               od_set thread_ts (default [] (od_get thread_ts d) ++ [msg]) d)
            messages [].

(** [msg.get('channel_name') or self._get_channel_name(msg.get('channel_id'))] *)
Definition channel_name_of (ds : DataStore) (msg : Message) : pyval :=
  py_or (get msg "channel_name") (_get_channel_name ds (get msg "channel_id")).

(** The lines of one reply in the "Thread Replies" section. *)
Definition reply_lines (ds : DataStore) (reply : Message) : res (list string) :=
  and_then (float_field reply "ts") (fun t =>
    Ok ["- " +:+ py_str (_get_user_name ds (get reply "user")) +:+ ": "
          +:+ py_str (get_or reply "text" (VStr ""));
        "  " +:+ strftime t]).

(** The body of the loop over [thread_messages.items()]: the lines one
    thread contributes. *)
Definition thread_lines (ds : DataStore) (thread_ts : pyval)
    (thread_msgs : list Message) : res (list string) :=
  and_then (sort_by_ts thread_msgs) (fun sorted =>
    match find (fun msg => py_eqb (get msg "ts") thread_ts) sorted with
    | None => Ok []                                   (* continue *)
    | Some parent_msg =>
        if bool_decide (parent_msg = ∅) then Ok []    (* [not {}] *)
        else
          and_then (float_of thread_ts) (fun t0 =>
            let replies :=
              filter (fun msg => get msg "ts" ≠ thread_ts) sorted in
            and_then (map_res (reply_lines ds) replies) (fun rl =>
              Ok ([nl +:+ "Thread started by: "
                      +:+ py_str (_get_user_name ds (get parent_msg "user"));
                   "Parent message: " +:+ py_str (get_or parent_msg "text" (VStr ""));
                   "Channel: " +:+ py_str (channel_name_of ds parent_msg);
                   "Timestamp: " +:+ strftime t0]
                  ++ (match replies with
                      | [] => []
                      | _ :: _ => (nl +:+ "Replies:") :: concat rl
                      end)
                  ++ ["---"])))
    end).

(** The "Semantic Search Results" section. The collection returns
    documents, which are strings: [result.get(...)] on the first of them
    raises. *)
Definition semantic_lines (semantic_results : list string) : res (list string) :=
  match semantic_results with
  | [] => Ok []
  | _ :: _ => Raise (AttributeError "'str' object has no attribute 'get'")
  end.

Definition build_claude_context_with_all_thread_replies (c : Collaborators)
    (ds : DataStore) (query : pyval) (start_ts end_ts : option F) (limit : nat)
    (channel_id : pyval) : res string :=
  let messages :=
    get_messages_by_date_range ds (or_zero start_ts) (or_inf end_ts) channel_id in
  let thread_messages := group_by_thread messages in
  and_then (semantic_search c query limit VNone VNone VNone) (fun semantic_results =>
    and_then (semantic_lines semantic_results) (fun sl =>
      and_then (map_res (fun kv => thread_lines ds (fst kv) (snd kv)) thread_messages)
        (fun tl =>
           Ok (join nl (sl ++ [nl +:+ "=== Thread Replies ==="] ++ concat tl))))).

(** [get_recent_thread_replies_with_parent]: the replies of the window
    with their parent, looked up among all messages up to [end_ts]. *)
Definition parent_lookup_of (all_msgs : list Message) : odict pyval Message :=
  fold_left (fun d msg =>
               if truthy (get msg "ts") || truthy (get msg "timestamp")
               then od_set (get_or msg "ts" (get msg "timestamp")) msg d
               else d)
            all_msgs [].

Definition reply_time (msg : Message) : res F :=
  match msg !! "ts" with
  | Some v => float_of v
  | None => float_field msg "timestamp"
  end.

Definition get_recent_thread_replies_with_parent (ds : DataStore)
    (start_ts end_ts : F) (channel_id : pyval)
    : res (list (Message * option Message)) :=
  let all_msgs := get_messages_by_date_range ds fzero (Some end_ts) channel_id in
  let parent_lookup := parent_lookup_of all_msgs in
  and_then
    (map_res (fun msg =>
                if truthy (get msg "thread_ts")
                   && negb (py_eqb (get msg "ts") (get msg "thread_ts"))
                then and_then (reply_time msg) (fun t =>
                       Ok (if fleb start_ts t && fleb t end_ts then [msg] else []))
                else Ok [])
             all_msgs)
    (fun picked =>
       Ok (map (fun reply => (reply, od_get (get reply "thread_ts") parent_lookup))
               (concat picked))).

(** *** Candidate-pipeline mode

    [build_claude_context_by_candidate] is defined twice in the class
    body; the second definition replaces the first. Both call
    [candidate_extractor.extract_candidates(msg.get('text', ''))] with a
    single argument: [extract_call] is that call. *)
Context (extract_call : pyval -> res (list Candidate)).

(** [[m for m in messages if m.get('thread_ts') == thread_ts
       and m.get('ts') != thread_ts]] *)
Definition replies_of (messages : list Message) (msg : Message) : list Message :=
  let thread_ts := get_or msg "thread_ts" (get msg "ts") in
  filter (fun m => get m "thread_ts" = thread_ts ∧ get m "ts" ≠ thread_ts) messages.

(** [msg.get('datetime', msg.get('ts', ''))] *)
Definition when_of (msg : Message) : pyval :=
  get_or msg "datetime" (get_or msg "ts" (VStr "")).

(** The first definition (lines 234-275), which the second one shadows. *)
Definition first_candidate_block (ds : DataStore) (messages : list Message)
    (msg : Message) (candidate : Candidate) : string :=
  let feedbacks :=
    map (fun reply =>
           dquote +:+ py_str (get_or reply "text" (VStr "")) +:+ dquote +:+ " (by "
             +:+ py_str (_get_user_name ds (get reply "user")) +:+ ")")
        (replies_of messages msg) in
  ("- " +:+ name candidate +:+ " - submitted " +:+ py_str (when_of msg)) +:+
  match feedbacks with
  | [] =>
      nl +:+ "  no feedback from client" +:+
      nl +:+ "  status: Follow up with client to see if they're interested."
  | fb :: more =>
      nl +:+ "  feedback: " +:+ fb +:+
      fold_left (fun acc fb' => acc +:+ nl +:+ "  additional feedback: " +:+ fb')
                more "" +:+
      nl +:+ "  status: (Claude, please infer status from feedback above)"
  end.

Definition build_claude_context_by_candidate_shadowed (ds : DataStore)
    (start_ts end_ts : option F) (channel_id : pyval) : res string :=
  let messages :=
    get_messages_by_date_range ds (or_zero start_ts) (or_inf end_ts) channel_id in
  and_then
    (map_res (fun msg =>
                and_then (extract_call (get_or msg "text" (VStr ""))) (fun candidates =>
                  Ok (channel_name_of ds msg,
                      map (first_candidate_block ds messages msg) candidates)))
             messages)
    (fun per_msg =>
       let channel_candidates : odict pyval (list string) :=
         fold_left (fun d cb =>
                      fold_left (fun d' block =>
                                   od_set (fst cb)
                                          (default [] (od_get (fst cb) d') ++ [block]) d')
                                (snd cb) d)
                   per_msg [] in
       Ok (join (nl +:+ nl)
                (flat_map (fun cc => py_str (fst cc) :: snd cc) channel_candidates))).

(** The second definition (lines 337-365), the one the class ends up
    with. *)
Definition candidate_block (ds : DataStore) (messages : list Message)
    (msg : Message) (candidate : Candidate) : string :=
  let block :=
    ["Candidate: " +:+ name candidate +:+ " (" +:+ linkedin_url candidate +:+ ")";
     "Submission: " +:+ py_str (get_or msg "text" (VStr ""));
     "Channel: " +:+ py_str (channel_name_of ds msg);
     "Submitted by: " +:+ py_str (_get_user_name ds (get msg "user"));
     "Timestamp: " +:+ py_str (when_of msg)] in
  let replies := replies_of messages msg in
  let block :=
    match replies with
    | [] => block
    | _ :: _ =>
        block ++ ["Feedback/Updates:"] ++
        map (fun reply =>
               "- " +:+ py_str (_get_user_name ds (get reply "user")) +:+ ": "
                 +:+ py_str (get_or reply "text" (VStr ""))
                 +:+ " [" +:+ py_str (when_of reply) +:+ "]")
            replies
    end in
  join nl block +:+ nl +:+ "---".

Definition build_claude_context_by_candidate (ds : DataStore)
    (start_ts end_ts : option F) (channel_id : pyval) : res string :=
  let messages :=
    get_messages_by_date_range ds (or_zero start_ts) (or_inf end_ts) channel_id in
  and_then
    (map_res (fun msg =>
                and_then (extract_call (get_or msg "text" (VStr ""))) (fun candidates =>
                  Ok (map (candidate_block ds messages msg) candidates)))
             messages)
    (fun blocks => Ok (join (nl +:+ nl) (concat blocks))).

End Builders.

(** The call [extract_candidates(text)] against the extractor of
    [candidate_extractor.py], whose method takes [messages] and
    [channel_name]: the call does not bind [channel_name]. *)
Definition extract_call_as_written : pyval -> res (list Candidate) :=
  fun _ =>
    Raise (TypeError
      "CandidateExtractor.extract_candidates() missing 1 required positional argument: 'channel_name'").

(** The extractor applied to one text: the candidates of the one-message
    corpus [[{'text': text}]] on a fresh extractor. *)
Definition extract_call_per_text : pyval -> res (list Candidate) :=
  fun text => snd (extract_candidates [{["text" := text]}] "" init).

(** *** A storage collaborator for whole-second timestamps

    Timestamps that are whole seconds, written in decimal: the instance
    of the float operations used for concrete corpora. *)

Definition digit_of (c : ascii) : option Z :=
  let n := nat_of_ascii c in
  if ((48 <=? n) && (n <=? 57))%nat then Some (Z.of_nat n - 48)%Z else None.

Fixpoint parse_digits (l : list ascii) (acc : Z) : option Z :=
  match l with
  | [] => Some acc
  | c :: l' =>
      match digit_of c with
      | Some d => parse_digits l' (acc * 10 + d)%Z
      | None => None
      end
  end.

Definition parse_seconds (s : string) : option Z :=
  match la s with
  | [] => None
  | l => parse_digits l 0%Z
  end.

(** The timestamp as the context shows it. *)
Definition show_seconds (t : Z) : string := "@" +:+ pretty t.

(** A store that keeps its rows in a list and answers
    [get_messages_by_date_range] as the query of [SlackDataStore] does:
    the rows whose timestamp is in the window, of the channel when one is
    given, in the order of the table. *)
Definition in_window (lo : Z) (hi : option Z) (channel_id : pyval)
    (row : Message) : bool :=
  match parse_seconds (py_str (get row "ts")) with
  | Some t =>
      (lo <=? t)%Z
      && match hi with Some h => (t <=? h)%Z | None => true end
      && (negb (truthy channel_id) || py_eqb (get row "channel_id") channel_id)
  | None => false
  end.

Definition table_store (rows : list Message) (channels users : pyval -> option string)
    : @DataStore Z :=
  {| get_messages_by_date_range :=
       fun lo hi channel_id => List.filter (in_window lo hi channel_id) rows;
     channel_names := channels;
     user_names := users |}.

(** *** Retrying a call to the Slack API

    [safe_slack_api_call]: [api_func n] is the outcome of the call made
    at attempt [n]. An [IncompleteRead] is retried (after a pause, which
    the model leaves out), anything else the call returns or raises ends
    the loop. *)
Definition is_incomplete_read (e : exn) : bool :=
  String.eqb (exn_class e) "IncompleteRead".

Fixpoint retry_from {A} (api_func : nat -> res A) (attempt left : nat) : res A :=
  match left with
  | O => Raise (Exn "RuntimeError" "Failed after retries due to IncompleteRead")
  | S left' =>
      match api_func attempt with
      | Ok r => Ok r
      | Raise e =>
          if is_incomplete_read e
          then retry_from api_func (S attempt) left'
          else Raise e
      end
  end.

Definition safe_slack_api_call {A} (api_func : nat -> res A) : res A :=
  retry_from api_func 0 3.

(** *** Indexing ([index_slack_messages]) *)

(** A loop whose body may raise. *)
Fixpoint fold_res {A S} (f : S -> A -> res S) (l : list A) (s : S) : res S :=
  match l with
  | [] => Ok s
  | x :: l' => and_then (f s x) (fold_res f l')
  end.

(** [c['name'] in text or c['linkedin_url'] in text] *)
Definition names_candidate (c : Candidate) (text : pyval) : res bool :=
  match text with
  | VStr t => Ok (contains (name c) t || contains (linkedin_url c) t)
  | VNone => Raise (TypeError "argument of type 'NoneType' is not iterable")
  end.

(** [{c['linkedin_url']: [] for c in candidates}] *)
Definition empty_groups (candidates : list Candidate) : odict string (list Message) :=
  fold_left (fun d c => od_set (linkedin_url c) [] d) candidates [].

(** The grouping loop: every candidate entry that a message names gets
    the message appended under its url. *)
Definition candidate_messages_of (candidates : list Candidate)
    (messages : list Message) : res (odict string (list Message)) :=
  fold_res (fun d msg =>
              let text := get_or msg "text" (VStr "") in
              fold_res (fun d c =>
                          and_then (names_candidate c text) (fun named =>
                            if named : bool then
                              and_then (od_index (linkedin_url c) d) (fun l =>
                                Ok (od_set (linkedin_url c) (l ++ [msg]) d))
                            else Ok d))
                       candidates d)
           messages (empty_groups candidates).

(** [msg.get('thread_ts') and msg.get('thread_ts') != msg.get('ts')] *)
Definition is_thread_reply (msg : Message) : bool :=
  truthy (get msg "thread_ts")
  && negb (py_eqb (get msg "thread_ts") (get msg "ts")).

(** The nested function [get_main_parent_text]. It calls itself on the
    parent it finds; [depth] is the number of calls the interpreter still
    allows, after which Python raises [RecursionError]. *)
Fixpoint get_main_parent_text (depth : nat) (msg : Message)
    (all_msgs : list Message) : res pyval :=
  match depth with
  | O => Raise (Exn "RecursionError" "maximum recursion depth exceeded")
  | S depth' =>
      let parent_ts := get msg "thread_ts" in
      if negb (truthy parent_ts) || py_eqb (get msg "ts") parent_ts
      then Ok (get_or msg "text" (VStr ""))
      else
        match find (fun m => py_eqb (get m "ts") parent_ts) all_msgs with
        | Some parent =>
            if bool_decide (parent = ∅) then Ok (VStr "[Parent: unknown]")
            else get_main_parent_text depth' parent all_msgs
        | None => Ok (VStr "[Parent: unknown]")
        end
  end.

(** An entry of [metadatas]. *)
Record Metadata : Type := mkMetadata {
  md_channel : string;
  md_user : pyval;
  md_ts : pyval;
  md_datetime : string;
  md_candidate : string;
  md_linkedin_url : string;
  md_is_thread_reply : bool
}.

(** The arguments of one call of [collection.add]. *)
Record Batch : Type := mkBatch {
  documents : list string;
  metadatas : list Metadata;
  ids : list string
}.

Section Indexing.

(** [float(...)], and
    [datetime.fromtimestamp(..., self.timezone).strftime('%Y-%m-%d %H:%M:%S')],
    which raises for a float that is no time of the platform ([nan],
    [inf], a year beyond 9999). *)
Context {F : Type}.
Context (parse_float : string -> option F) (format_ts : F -> res string).

(** [self.collection.add(documents=..., metadatas=..., ids=...)], which
    may raise: the collection embeds the documents and may refuse the
    batch. *)
Context (collection_add : Batch -> res unit).

(** The body of the loop over the messages of one candidate: the
    document, the metadata and the id of one message. *)
Definition index_entry (depth : nat) (channel_name : string)
    (candidates : list Candidate) (candidate_url : string) (msgs : list Message)
    (msg : Message) : res (string * Metadata * string) :=
  match msg !! "ts" with
  | None => Raise (KeyError "'ts'")
  | Some ts =>
      and_then (float_of parse_float ts) (fun t =>
        and_then (format_ts t) (fun dt =>
          and_then
            (if is_thread_reply msg then
               and_then (get_main_parent_text depth msg msgs) (fun main_parent_text =>
                 Ok (dt +:+ " [" +:+ channel_name +:+ "] (thread reply) [Main message: "
                        +:+ py_str main_parent_text +:+ "] "
                        +:+ py_str (get_or msg "text" (VStr ""))))
             else
               Ok (dt +:+ " [" +:+ channel_name +:+ "] "
                      +:+ py_str (get_or msg "text" (VStr ""))))
            (fun doc =>
               Ok (doc,
                   {| md_channel := channel_name;
                      md_user := get_or msg "user" (VStr "");
                      md_ts := ts;
                      md_datetime := dt;
                      md_candidate :=
                        match find (fun c => bool_decide (linkedin_url c = candidate_url))
                                   candidates with
                        | Some c => name c
                        | None => ""
                        end;
                      md_linkedin_url := candidate_url;
                      md_is_thread_reply := is_thread_reply msg |},
                   channel_name +:+ "_" +:+ py_str ts +:+ "_" +:+ candidate_url))))
  end.

(** One call of [collection.add]. The state of the run is the list of
    the batches handed to the collection so far, the refused one
    included. *)
Definition add_call (batch : Batch) : M (list Batch) unit :=
  fun handed => (handed ++ [batch], collection_add batch).

(** [index_slack_messages] *)
Definition index_slack_messages (depth : nat) (messages : list Message)
    (channel_name : string) : M (list Batch) unit :=
  bind (lift (snd (extract_candidates messages channel_name init))) (fun candidates =>
    bind (lift (candidate_messages_of candidates messages)) (fun candidate_messages =>
      for_each candidate_messages (fun um =>
        match snd um with
        | [] => ret tt                                            (* continue *)
        | _ :: _ =>
            bind (lift (map_res (index_entry depth channel_name candidates
                                             (fst um) (snd um)) (snd um)))
                 (fun entries =>
                    add_call (mkBatch (map (fun e => fst (fst e)) entries)
                                      (map (fun e => snd (fst e)) entries)
                                      (map snd entries)))
        end))).

End Indexing.

End Rag.

(** ** The channel-activity builder ([backend/slack_rag_backend.py])

    [build_claude_context] of the backend fragment.  The storage methods
    it calls ([get_messages], [get_channel_name], [get_message_by_ts],
    [get_thread_replies]) are not part of the sources: they are the
    fields of [ActivityStore]. *)

Module Activity.
Import Py Re Rag.

Record ActivityStore : Type := {
  get_messages : pyval -> Z -> option Z -> list Message;
  get_channel_name : pyval -> pyval;
  get_message_by_ts : pyval -> option Message;
  get_thread_replies : pyval -> list Message
}.

(** [message.get('thread_ts') and message.get('ts') != message.get('thread_ts')] *)
Definition is_thread_reply (message : Message) : bool :=
  truthy (get message "thread_ts")
  && negb (py_eqb (get message "ts") (get message "thread_ts")).

(** [extract_candidates_from_messages] of [backend/candidate_extractor.py],
    whose result the builder does not use: it reads the text of the
    messages of type ['message'] and raises on a text that is not a
    string. *)
Definition extract_candidates_from_messages (messages : list Message)
    : res unit :=
  and_then
    (map_res (fun message =>
                if py_eqb (get message "type") (VStr "message")
                then match message !! "text" with
                     | Some VNone =>
                         Raise (TypeError
                           "expected string or bytes-like object, got 'NoneType'")
                     | _ => Ok tt
                     end
                else Ok tt)
             messages)
    (fun _ => Ok tt).

Definition group_by_channel (messages : list Message)
    : odict pyval (list Message) :=
  fold_left (fun d message =>
               let channel_id := get message "channel_id" in
               od_set channel_id (default [] (od_get channel_id d) ++ [message]) d)
            messages [].

(** The first loop over a channel: a "Parent Message" line for every
    thread that has a reply among the messages, the parent being looked
    up in the store. [included] is [included_parents]. *)
Fixpoint parent_lines (ds : ActivityStore) (channel_msgs : list Message)
    (included : list pyval) : list string :=
  match channel_msgs with
  | [] => []
  | message :: rest =>
      if is_thread_reply message then
        let parent_ts := get message "thread_ts" in
        if bool_decide (parent_ts ∈ included) then parent_lines ds rest included
        else
          match get_message_by_ts ds parent_ts with
          | Some parent_message =>
              if bool_decide (parent_message = ∅)
              then parent_lines ds rest included
              else ("Parent Message: " +:+ py_str (get parent_message "text"))
                     :: parent_lines ds rest (parent_ts :: included)
          | None => parent_lines ds rest included
          end
      else parent_lines ds rest included
  end.

(** The second loop: the top-level messages with the replies the store
    has for them. *)
Definition message_lines (ds : ActivityStore) (user_name : pyval -> pyval)
    (message : Message) : list string :=
  if is_thread_reply message then []
  else
    ("Message: " +:+ py_str (get message "text")) ::
    match get_thread_replies ds (get message "ts") with
    | [] => []
    | thread_replies =>
        "Thread Replies:" ::
        map (fun reply =>
               "- " +:+ py_str (user_name (get reply "user")) +:+ ": "
                 +:+ py_str (get reply "text"))
            thread_replies
    end.

Definition build_claude_context (ds : ActivityStore) (user_name : pyval -> pyval)
    (channel_id : pyval) (start_ts end_ts : option Z) : res string :=
  let messages := get_messages ds channel_id (default 0%Z start_ts) end_ts in
  and_then (extract_candidates_from_messages messages) (fun _ =>
    Ok (join nl
          (flat_map (fun cm =>
                       ("Channel: " +:+ py_str (get_channel_name ds (fst cm)))
                         :: parent_lines ds (snd cm) []
                         ++ flat_map (message_lines ds user_name) (snd cm))
                    (group_by_channel messages)))).

(** A store over a table of rows, with the lookups the fragment expects:
    a message by its timestamp, and the replies of a thread. *)
Definition activity_store (rows : list Message) : ActivityStore :=
  {| get_messages :=
       fun channel_id lo hi => List.filter (in_window lo hi channel_id) rows;
     get_channel_name := fun channel_id => channel_id;
     get_message_by_ts :=
       fun ts => find (fun row => py_eqb (get row "ts") ts) rows;
     get_thread_replies :=
       fun ts => List.filter (fun row => py_eqb (get row "thread_ts") ts
                                          && negb (py_eqb (get row "ts") ts)) rows |}.

End Activity.

(** ** The digest generator ([generate_digest.py]) *)

Module Digest.
Import Py Re Rag.

(** [linkedin_pattern =
     r'(?:https?://)?(?:www\.)?linkedin\.com/in/([^>\s|]+)(?:\|([^>]+))?']
    of [enrich_message]. *)
Definition linkedin_pattern : re :=
  (Opt (Lit "http" · Opt (Lit "s") · Lit "://") ·
   Opt (Lit "www.") ·
   Lit "linkedin.com/in/" ·
   Grp 1 (Plus (CClass true [">"; "|"]%char true)) ·
   Opt (Lit "|" · Grp 2 (Plus (CClass true [">"]%char false))))%re.

(** An entry of [enriched_msg['linkedin_profiles']]. *)
Record Profile : Type := mkProfile {
  profile_name : string;
  profile_url : string
}.

#[global] Instance Profile_eq_dec : EqDecision Profile.
Proof. solve_decision. Defined.

(** The loop over [re.finditer(linkedin_pattern, text)] in
    [enrich_message]. *)
Definition profile_of_match (mt : caps) : Profile :=
  let profile := default "" (group mt 1) in
  let name :=
    match group mt 2 with
    | Some g => if truthy (VStr g) then g else profile
    | None => profile
    end in
  mkProfile name ("https://linkedin.com/in/" +:+ profile).

Definition linkedin_profiles (text : string) : list Profile :=
  map profile_of_match (finditer linkedin_pattern text).

(** *** Date ranges *)

(** A [datetime]: the day counted from 1970-01-01, the wall-clock fields,
    and, for an aware datetime, the UTC offset of its [tzinfo] in
    seconds. *)
Record datetime : Type := mkDatetime {
  dt_day : Z;
  dt_hour : Z;
  dt_minute : Z;
  dt_second : Z;
  dt_microsecond : Z;
  dt_tzinfo : option Z
}.

(** A [pytz] timezone: the UTC offset it gives to a wall-clock time. *)
Definition Timezone : Type := datetime -> Z.

(** [tz.localize(dt)]: [pytz] refuses a datetime that already has a
    [tzinfo]. *)
Definition localize (tz : Timezone) (dt : datetime) : res datetime :=
  match dt_tzinfo dt with
  | Some _ => Raise (ValueError "Not naive datetime (tzinfo is already set)")
  | None =>
      Ok (mkDatetime (dt_day dt) (dt_hour dt) (dt_minute dt) (dt_second dt)
                     (dt_microsecond dt) (Some (tz dt)))
  end.

(** [datetime.now(tz)]: the wall clock of the zone, aware. *)
Definition datetime_now (tz : Timezone) (wall : datetime) : datetime :=
  mkDatetime (dt_day wall) (dt_hour wall) (dt_minute wall) (dt_second wall)
             (dt_microsecond wall) (Some (tz wall)).

(** [dt.weekday()]: Monday is 0; 1970-01-01 was a Thursday. *)
Definition weekday (dt : datetime) : Z := ((dt_day dt + 3) mod 7)%Z.

(** [dt + timedelta(days=n)] *)
Definition add_days (dt : datetime) (n : Z) : datetime :=
  mkDatetime (dt_day dt + n)%Z (dt_hour dt) (dt_minute dt) (dt_second dt)
             (dt_microsecond dt) (dt_tzinfo dt).

(** [dt.replace(hour=h, minute=m, second=s)] *)
Definition replace_hms (dt : datetime) (h m s : Z) : datetime :=
  mkDatetime (dt_day dt) h m s (dt_microsecond dt) (dt_tzinfo dt).

(** [dt.timestamp()] of an aware datetime, in microseconds. *)
Definition timestamp (dt : datetime) : Z :=
  ((dt_day dt * 86400 + dt_hour dt * 3600 + dt_minute dt * 60 + dt_second dt
    - default 0 (dt_tzinfo dt)) * 1000000 + dt_microsecond dt)%Z.

Section DateRange.

(** [datetime.strptime(s, "%Y-%m-%d")], a naive datetime at midnight, or
    [ValueError]. *)
Context (strptime : string -> res datetime).

Definition get_date_range (tz : Timezone) (wall_clock : datetime)
    (start_date_str end_date_str : pyval) : res (Z * Z) :=
  and_then
    (if truthy start_date_str then
       and_then (strptime (py_str start_date_str)) (fun start_date =>
         localize tz (replace_hms start_date 0 0 0))
     else
       let now := datetime_now tz wall_clock in
       let start_date := add_days now (- (weekday now + 7)) in
       let start_date := replace_hms start_date 0 0 0 in
       localize tz start_date)
    (fun start_date =>
       and_then
         (if truthy end_date_str then
            and_then (strptime (py_str end_date_str)) (fun end_date =>
              localize tz (replace_hms end_date 23 59 59))
          else
            Ok (replace_hms (add_days start_date 6) 23 59 59))
         (fun end_date => Ok (timestamp start_date, timestamp end_date))).

End DateRange.

(** *** Paging through the Slack API

    [get_conversation_history] and [get_thread_messages] are the same
    loop around two calls of the client. A page is what the loop reads of
    a response: [result.get('messages', [])] and
    [result.get('response_metadata', {}).get('next_cursor')]. The call is
    a function of the cursor (the other arguments stay the same). *)
Record Page : Type := mkPage {
  page_messages : list Message;
  next_cursor : pyval
}.

Definition is_slack_api_error (e : exn) : bool :=
  String.eqb (exn_class e) "SlackApiError".

(** The [while True] loop, for at most [fuel] calls: [None] when the
    loop would go on. *)
Fixpoint paginate (fuel : nat) (call : pyval -> res Page) (cursor : pyval)
    (all_messages : list Message) : option (res (list Message)) :=
  match fuel with
  | O => None
  | S fuel' =>
      match call cursor with
      | Ok result =>
          let all_messages := all_messages ++ page_messages result in
          if truthy (next_cursor result)
          then paginate fuel' call (next_cursor result) all_messages
          else Some (Ok all_messages)                       (* break *)
      | Raise e =>
          if is_slack_api_error e
          then Some (Ok all_messages)                       (* except: break *)
          else Some (Raise e)
      end
  end.

Definition get_thread_messages (fuel : nat) (conversations_replies : pyval -> res Page)
    : option (res (list Message)) :=
  paginate fuel conversations_replies VNone [].

Definition get_conversation_history (fuel : nat)
    (conversations_history : pyval -> res Page) : option (res (list Message)) :=
  paginate fuel conversations_history VNone [].

End Digest.

(** * Properties *)

(** ** Ordered dicts *)

Module PyFacts.
Import Py.

Section ODictFacts.
Context {K V : Type} `{EqDecision K}.
Implicit Types (d : odict K V) (k : K) (v : V).

Lemma od_get_set_eq k v d : od_get k (od_set k v d) = Some v.
Proof.
  induction d as [|[k' v'] d IH]; simpl.
  - by rewrite decide_True.
  - destruct (decide (k = k')) as [->|Hne]; simpl.
    + by rewrite decide_True.
    + by rewrite decide_False.
Qed.

Lemma od_get_set_ne k k' v d : k ≠ k' → od_get k' (od_set k v d) = od_get k' d.
Proof.
  intros Hne. induction d as [|[k0 v0] d IH]; simpl.
  - rewrite decide_False; [done | congruence].
  - destruct (decide (k = k0)) as [->|Hk]; simpl.
    + rewrite !decide_False; [done | congruence | congruence].
    + by rewrite IH.
Qed.

Lemma od_get_alter_eq f k d : od_get k (od_alter f k d) = f <$> od_get k d.
Proof.
  induction d as [|[k0 v0] d IH]; simpl; [done|].
  destruct (decide (k = k0)) as [->|Hk]; simpl.
  - by rewrite decide_True.
  - by rewrite decide_False.
Qed.

Lemma od_get_alter_ne f k k' d : k ≠ k' → od_get k' (od_alter f k d) = od_get k' d.
Proof.
  intros Hne. induction d as [|[k0 v0] d IH]; simpl; [done|].
  destruct (decide (k = k0)) as [->|Hk]; simpl.
  - rewrite !decide_False; [done | congruence | congruence].
  - by rewrite IH.
Qed.

Lemma od_keys_alter f k d : od_keys (od_alter f k d) = od_keys d.
Proof.
  induction d as [|[k0 v0] d IH]; simpl; [done|].
  destruct (decide (k = k0)); simpl; [done | by f_equal].
Qed.

Lemma od_get_elem k v d : od_get k d = Some v → (k, v) ∈ d.
Proof.
  induction d as [|[k0 v0] d IH]; simpl; [done|].
  destruct (decide (k = k0)) as [->|Hk].
  - intros Hg. injection Hg as ->. left.
  - intros Hg. right. by apply IH.
Qed.

Lemma od_get_None k d : od_get k d = None ↔ k ∉ od_keys d.
Proof.
  induction d as [|[k0 v0] d IH]; simpl.
  - split; [intros _; apply not_elem_of_nil | done].
  - destruct (decide (k = k0)) as [->|Hk].
    + split; [done | intros Hn; exfalso; apply Hn; left].
    + rewrite IH, not_elem_of_cons. tauto.
Qed.

Lemma od_elem_get k v d : NoDup (od_keys d) → (k, v) ∈ d → od_get k d = Some v.
Proof.
  induction d as [|[k0 v0] d IH]; simpl.
  - intros _ Hin. by apply elem_of_nil in Hin.
  - intros Hnd Hin. apply NoDup_cons in Hnd as [Hk0 Hnd].
    apply elem_of_cons in Hin as [[= -> ->]|Hin].
    + by rewrite decide_True.
    + destruct (decide (k = k0)) as [->|Hk]; [|by apply IH].
      exfalso. apply Hk0. apply list_elem_of_fmap. by exists (k0, v).
Qed.

Lemma od_keys_set k v d :
  od_keys (od_set k v d) = if od_mem k d then od_keys d else od_keys d ++ [k].
Proof.
  unfold od_mem. induction d as [|[k0 v0] d IH]; simpl; [done|].
  destruct (decide (k = k0)) as [->|Hk]; simpl; [done|].
  rewrite IH. by destruct (od_get k d).
Qed.

Lemma od_keys_set_NoDup k v d : NoDup (od_keys d) → NoDup (od_keys (od_set k v d)).
Proof.
  intros Hnd. rewrite od_keys_set. unfold od_mem.
  destruct (od_get k d) eqn:Hg; [done|].
  apply NoDup_app. split; [done|]. split.
  - intros x Hx Hx'. apply list_elem_of_singleton in Hx' as ->.
    by apply od_get_None in Hg.
  - apply NoDup_singleton.
Qed.

Lemma od_index_Ok k d v : od_index k d = Ok v ↔ od_get k d = Some v.
Proof. unfold od_index. destruct (od_get k d); naive_solver. Qed.

End ODictFacts.

End PyFacts.

(** ** Reasoning about stateful code *)

Module EffFacts.
Import Py Eff.

Section Hoare.
Context {St : Type}.

(** [hoare P m Q E]: from a state in [P], [m] ends in a state in [Q a]
    when it returns [a], and in a state in [E] when it raises. *)
Definition hoare {A} (P : St → Prop) (m : M St A) (Q : A → St → Prop)
    (E : St → Prop) : Prop :=
  ∀ s, P s →
    match m s with
    | (s', Ok a) => Q a s'
    | (s', Raise _) => E s'
    end.

Lemma hoare_ret {A} (P : St → Prop) (a : A) Q E :
  (∀ s, P s → Q a s) → hoare P (ret a) Q E.
Proof. intros H s Hs. simpl. by apply H. Qed.

Lemma hoare_gets {A} (P : St → Prop) (f : St → A) Q E :
  (∀ s, P s → Q (f s) s) → hoare P (gets f) Q E.
Proof. intros H s Hs. simpl. by apply H. Qed.

Lemma hoare_modify (P : St → Prop) (f : St → St) Q E :
  (∀ s, P s → Q tt (f s)) → hoare P (modify f) Q E.
Proof. intros H s Hs. simpl. by apply H. Qed.

Lemma hoare_lift {A} (P : St → Prop) (r : res A) Q E :
  (∀ s a, P s → r = Ok a → Q a s) →
  (∀ s e, P s → r = Raise e → E s) →
  hoare P (lift r) Q E.
Proof. intros HQ HE s Hs. unfold lift. destruct r; eauto. Qed.

Lemma hoare_lift_keep {A} (P : St → Prop) (r : res A) :
  hoare P (lift r) (λ _, P) P.
Proof. apply hoare_lift; auto. Qed.

Lemma hoare_bind {A B} (P : St → Prop) (m : M St A) (f : A → M St B) R Q E :
  hoare P m R E → (∀ a, hoare (R a) (f a) Q E) → hoare P (bind m f) Q E.
Proof.
  intros Hm Hf s Hs. unfold bind. specialize (Hm s Hs).
  destruct (m s) as [s' [a|e]]; [by apply Hf | done].
Qed.

Lemma hoare_conseq {A} (P P' : St → Prop) (m : M St A) (Q Q' : A → St → Prop)
    (E E' : St → Prop) :
  hoare P' m Q' E' →
  (∀ s, P s → P' s) → (∀ a s, Q' a s → Q a s) → (∀ s, E' s → E s) →
  hoare P m Q E.
Proof.
  intros Hm HP HQ HE s Hs. specialize (Hm s (HP s Hs)).
  destruct (m s) as [s' [a|e]]; eauto.
Qed.

Lemma hoare_for_each {X} (I : St → Prop) (xs : list X) (body : X → M St unit) E :
  (∀ x, x ∈ xs → hoare I (body x) (λ _, I) E) →
  hoare I (for_each xs body) (λ _, I) E.
Proof.
  induction xs as [|x xs IH]; intros Hbody; simpl.
  - by apply hoare_ret.
  - eapply hoare_bind.
    + apply Hbody. left.
    + intros []. apply IH. intros y Hy. apply Hbody. by right.
Qed.

Lemma hoare_bind_lift {A B} (P : St → Prop) (r : res A) (f : A → M St B) Q E :
  (∀ e s, r = Raise e → P s → E s) →
  (∀ a, r = Ok a → hoare P (f a) Q E) →
  hoare P (bind (lift r) f) Q E.
Proof.
  intros HE Hf s Hs. unfold bind, lift. destruct r as [a|e].
  - by apply Hf.
  - by eapply HE.
Qed.

Lemma hoare_bind_gets {A B} (P : St → Prop) (g : St → A) (f : A → M St B) Q E :
  (∀ a, hoare (λ s, P s ∧ g s = a) (f a) Q E) →
  hoare P (bind (gets g) f) Q E.
Proof. intros Hf s Hs. unfold bind, gets. by apply Hf. Qed.

Lemma hoare_bind_gets_res {A B} (P : St → Prop) (g : St → res A)
    (f : A → M St B) Q E :
  (∀ e s, g s = Raise e → P s → E s) →
  (∀ a, hoare (λ s, P s ∧ g s = Ok a) (f a) Q E) →
  hoare P (bind (gets_res g) f) Q E.
Proof.
  intros HE Hf s Hs. unfold bind, gets_res. destruct (g s) as [a|e] eqn:Hg.
  - by apply Hf.
  - by eapply HE.
Qed.

(** A loop over a concatenation is the two loops in sequence. *)
Lemma for_each_app {X} (xs ys : list X) (body : X → M St unit) s :
  for_each (xs ++ ys) body s =
  bind (for_each xs body) (λ _, for_each ys body) s.
Proof.
  revert s. induction xs as [|x xs IH]; intros s; simpl.
  - done.
  - unfold bind. destruct (body x s) as [s' [[]|e]]; [|done].
    by rewrite IH.
Qed.

(** A loop one of whose iterations establishes [Q], when every iteration
    keeps [I] and keeps [Q] once it holds. *)
Lemma hoare_for_each_at {X} (I Q : St → Prop) (xs : list X) (x : X)
    (body : X → M St unit) (E : St → Prop) :
  x ∈ xs →
  (∀ y, y ∈ xs → hoare I (body y) (λ _, I) E) →
  hoare I (body x) (λ _ s, I s ∧ Q s) E →
  (∀ y, y ∈ xs → hoare (λ s, I s ∧ Q s) (body y) (λ _ s, I s ∧ Q s) E) →
  hoare I (for_each xs body) (λ _ s, I s ∧ Q s) E.
Proof.
  induction xs as [|y xs IH]; intros Hx Hkeep Hhit Hstay.
  - by apply elem_of_nil in Hx.
  - simpl. apply elem_of_cons in Hx as [<-|Hx].
    + eapply hoare_bind; [exact Hhit|]. intros [].
      apply hoare_for_each. intros z Hz. apply Hstay. by right.
    + eapply hoare_bind; [apply Hkeep; left|]. intros [].
      apply IH; [done| |done|].
      * intros z Hz. apply Hkeep. by right.
      * intros z Hz. apply Hstay. by right.
Qed.

(** With [False] as the condition on raising, a triple says that the
    computation returns. *)
Lemma hoare_returns {A} (P : St → Prop) (m : M St A) (Q : A → St → Prop) s :
  hoare P m Q (λ _, False) → P s → ∃ s' a, m s = (s', Ok a) ∧ Q a s'.
Proof.
  intros Hm Hs. specialize (Hm s Hs). destruct (m s) as [s' [a|e]]; [|done].
  by exists s', a.
Qed.

(** A fact that follows from the precondition may be used outright. *)
Lemma hoare_pure {A} (φ : Prop) (P : St → Prop) (m : M St A) Q E :
  (∀ s, P s → φ) → (φ → hoare P m Q E) → hoare P m Q E.
Proof. intros Hφ Hm s Hs. apply Hm; [by eapply Hφ | done]. Qed.

End Hoare.

End EffFacts.

(** ** Strings and patterns *)

Module ReFacts.
Import Py Re PyFacts.

(** [needle] occurs in [hay]. *)
Definition infix (needle hay : list ascii) : Prop :=
  ∃ before after, hay = before ++ needle ++ after.

Lemma la_of_la l : la (of_la l) = l.
Proof. apply list_ascii_of_string_of_list_ascii. Qed.

Lemma of_la_la s : of_la (la s) = s.
Proof. apply string_of_list_ascii_of_string. Qed.

Lemma ascii_eqb_eq a b : ascii_eqb a b = true ↔ a = b.
Proof. apply Ascii.eqb_eq. Qed.

Lemma starts_with_app p l : starts_with p (p ++ l) = true.
Proof.
  induction p as [|a p IH]; simpl; [done|].
  rewrite IH, andb_true_r. by apply ascii_eqb_eq.
Qed.

Lemma contains_la_infix needle hay : infix needle hay → contains_la needle hay = true.
Proof.
  intros (before & after & ->). induction before as [|c before IH]; simpl.
  - pose proof (starts_with_app needle after) as Hs.
    destruct (needle ++ after); simpl; by rewrite Hs.
  - rewrite IH. apply orb_true_r.
Qed.

Lemma infix_refl l : infix l l.
Proof. exists [], []. by rewrite app_nil_r. Qed.

Lemma infix_trans a b c : infix a b → infix b c → infix a c.
Proof.
  intros (x & y & ->) (x' & y' & ->). exists (x' ++ x), (y ++ y').
  by rewrite <- !app_assoc.
Qed.

Lemma lstrip_suffix l : ∃ sp, l = sp ++ lstrip l.
Proof.
  induction l as [|c l [sp IH]]; simpl.
  - by exists [].
  - destruct (is_space c).
    + exists (c :: sp). simpl. by rewrite <- IH.
    + by exists [].
Qed.

Lemma strip_la_infix l : infix (strip_la l) l.
Proof.
  unfold strip_la, rstrip.
  destruct (lstrip_suffix l) as [sp Hl].
  destruct (lstrip_suffix (rev (lstrip l))) as [sp' Hr].
  exists sp, (rev sp'). rewrite Hl at 1. f_equal.
  rewrite <- (rev_involutive (lstrip l)) at 1. rewrite Hr at 1.
  by rewrite rev_app_distr.
Qed.

(** *** What a match consumes and captures *)

Lemma strip_prefix_Some p l l' : strip_prefix p l = Some l' → l = p ++ l'.
Proof.
  revert l. induction p as [|a p IH]; intros [|b l]; simpl; try done.
  - by intros [= ->].
  - by intros [= ->].
  - destruct (ascii_eqb a b) eqn:Hab; [|done].
    apply ascii_eqb_eq in Hab as ->. intros H. by rewrite (IH _ H).
Qed.

Lemma plus_rests_suffix cl s s' :
  s' ∈ plus_rests cl s → ∃ taken, taken ≠ [] ∧ s = taken ++ s'.
Proof.
  revert s'. induction s as [|c s IH]; intros s'; simpl.
  - intros H. by apply elem_of_nil in H.
  - destruct (cc_matches cl c); [|intros H; by apply elem_of_nil in H].
    intros H. apply elem_of_app in H as [H|H].
    + destruct (IH _ H) as (taken & _ & ->). by exists (c :: taken).
    + apply list_elem_of_singleton in H as ->. by exists [c].
Qed.

Lemma run_suffix r s cp s' cp' :
  (s', cp') ∈ run r s cp → ∃ taken, s = taken ++ s'.
Proof.
  revert s cp s' cp'. induction r as [l|cl|r IH|r1 IH1 r2 IH2|n r IH];
    intros s cp s' cp'; simpl.
  - destruct (strip_prefix (la l) s) as [s0|] eqn:Hp;
      [|intros H; by apply elem_of_nil in H].
    intros H. apply list_elem_of_singleton in H. injection H as -> ->.
    exists (la l). by apply strip_prefix_Some.
  - intros H. apply list_elem_of_fmap in H as (s0 & Heq & H).
    injection Heq as -> ->. destruct (plus_rests_suffix _ _ _ H) as (t & _ & ->).
    by exists t.
  - intros H. apply elem_of_app in H as [H|H]; [by eapply IH|].
    apply list_elem_of_singleton in H. injection H as -> ->. by exists [].
  - intros H. apply list_elem_of_In, in_flat_map in H as ([s1 cp1] & H1 & H2).
    apply list_elem_of_In in H1, H2. simpl in H2.
    destruct (IH1 _ _ _ _ H1) as (t1 & ->). destruct (IH2 _ _ _ _ H2) as (t2 & ->).
    exists (t1 ++ t2). by rewrite app_assoc.
  - intros H. apply list_elem_of_fmap in H as ([s1 cp1] & Heq & H).
    simpl in Heq. injection Heq as -> ->. by eapply IH.
Qed.

Fixpoint no_groups (r : re) : bool :=
  match r with
  | Lit _ | Plus _ => true
  | Opt r1 => no_groups r1
  | Cat r1 r2 => no_groups r1 && no_groups r2
  | Grp _ _ => false
  end.

Lemma run_no_groups r s cp s' cp' :
  no_groups r = true → (s', cp') ∈ run r s cp → cp' = cp.
Proof.
  revert s cp s' cp'. induction r as [l|cl|r IH|r1 IH1 r2 IH2|n r IH];
    intros s cp s' cp' Hng; simpl in *.
  - destruct (strip_prefix (la l) s); intros H;
      [|by apply elem_of_nil in H].
    apply list_elem_of_singleton in H. by injection H as -> ->.
  - intros H. apply list_elem_of_fmap in H as (s0 & Heq & H). by injection Heq as -> ->.
  - intros H. apply elem_of_app in H as [H|H]; [by eapply IH|].
    apply list_elem_of_singleton in H. by injection H as -> ->.
  - apply andb_prop in Hng as [Hn1 Hn2].
    intros H. apply list_elem_of_In, in_flat_map in H as ([s1 cp1] & H1 & H2).
    apply list_elem_of_In in H1, H2. simpl in H2.
    rewrite (IH2 _ _ _ _ Hn2 H2). by eapply IH1.
  - done.
Qed.

(** A group without inner groups captures a prefix of the input it was
    tried on. *)
Lemma run_grp n r s cp s' cp' :
  no_groups r = true → (s', cp') ∈ run (Grp n r) s cp →
  ∃ g, cp' = (n, g) :: cp ∧ s = g ++ s'.
Proof.
  intros Hng H. simpl in H. apply list_elem_of_fmap in H as ([s1 cp1] & Heq & H).
  simpl in Heq. injection Heq as -> ->.
  rewrite (run_no_groups _ _ _ _ _ Hng H).
  destruct (run_suffix _ _ _ _ _ H) as (t & ->).
  exists t. split; [|done]. f_equal. f_equal.
  rewrite length_app. replace (length t + length s1 - length s1) with (length t) by lia.
  by rewrite take_app_length.
Qed.

Lemma run_cat r1 r2 s cp s' cp' :
  (s', cp') ∈ run (Cat r1 r2) s cp →
  ∃ s1 cp1, (s1, cp1) ∈ run r1 s cp ∧ (s', cp') ∈ run r2 s1 cp1.
Proof.
  simpl. intros H. apply list_elem_of_In, in_flat_map in H as ([s1 cp1] & H1 & H2).
  apply list_elem_of_In in H1, H2. by exists s1, cp1.
Qed.

Lemma match_here_run r s rest cp :
  match_here r s = Some (rest, cp) → (rest, cp) ∈ run r s [].
Proof.
  unfold match_here. destruct (run r s []) as [|x l]; simpl; [done|].
  intros [= ->]. left.
Qed.

(** Every match that [finditer] reports is a match at some position of
    the text. *)
Lemma finditer_from_elem r s skip cp :
  cp ∈ finditer_from r s skip →
  ∃ before s' rest, s = before ++ s' ∧ match_here r s' = Some (rest, cp).
Proof.
  revert skip. induction s as [|c s IH]; intros skip; simpl.
  - intros H. by apply elem_of_nil in H.
  - assert (Hrec : ∀ k, cp ∈ finditer_from r s k →
              ∃ before s' rest, c :: s = before ++ s' ∧
                                match_here r s' = Some (rest, cp)).
    { intros k H. destruct (IH _ H) as (before & s' & rest & -> & Hm).
      by exists (c :: before), s', rest. }
    destruct skip as [|k]; [|apply Hrec].
    destruct (match_here r (c :: s)) as [[rest cp0]|] eqn:Hm; [|apply Hrec].
    intros H. apply elem_of_cons in H as [->|H]; [|by eapply Hrec].
    by exists [], (c :: s), rest.
Qed.

Lemma run_lit l s cp s' cp' :
  (s', cp') ∈ run (Lit l) s cp → cp' = cp ∧ s = la l ++ s'.
Proof.
  simpl. destruct (strip_prefix (la l) s) as [s0|] eqn:Hp;
    [|intros H; by apply elem_of_nil in H].
  intros H. apply list_elem_of_singleton in H. injection H as -> ->.
  split; [done|]. by apply strip_prefix_Some.
Qed.

End ReFacts.

(** ** The association stages *)

Module ExtractorFacts.
Import Py Eff Re Extractor PyFacts EffFacts ReFacts.

(** [msg] is a reply in the thread that [c]'s anchor started, as both
    [associate_threads] and [associate_direct_mentions] test it. *)
Definition in_thread_of (m : Message) (c : Candidate) : Prop :=
  truthy (get m "thread_ts") = true ∧ get m "thread_ts" = message_id c.

(** The urls of [associations] are distinct, and the candidate that
    [candidate_map] holds for a url is the anchor of its bundle. *)
Definition wf (st : Extractor) : Prop :=
  NoDup (od_keys (associations st)) ∧
  NoDup (od_keys (candidate_map st)) ∧
  ∀ url c, od_get url (candidate_map st) = Some c →
    ∃ b, od_get url (associations st) = Some b ∧ anchor b = c.

Definition bundles (Q : Bundle → Prop) (st : Extractor) : Prop :=
  ∀ url b, od_get url (associations st) = Some b → Q b.

Definition threads_ok (b : Bundle) : Prop :=
  ∀ m, m ∈ threads b → in_thread_of m (anchor b).
Definition direct_ok (b : Bundle) : Prop :=
  ∀ m, m ∈ direct b → ¬ in_thread_of m (anchor b).
Definition fuzzy_ok (b : Bundle) : Prop :=
  ∀ m, m ∈ fuzzy b → (m ∉ threads b) ∧ (m ∉ direct b).

(** A message is in at most one of the three lists of a bundle. *)
Definition exclusive (b : Bundle) : Prop :=
  ∀ m, ¬ (m ∈ threads b ∧ m ∈ direct b) ∧
       ¬ (m ∈ threads b ∧ m ∈ fuzzy b) ∧
       ¬ (m ∈ direct b ∧ m ∈ fuzzy b).

Definition after_extract (b : Bundle) : Prop :=
  threads b = [] ∧ direct b = [] ∧ fuzzy b = [].
Definition after_threads (b : Bundle) : Prop :=
  threads_ok b ∧ direct b = [] ∧ fuzzy b = [].
Definition after_direct (b : Bundle) : Prop :=
  threads_ok b ∧ direct_ok b ∧ fuzzy b = [].
Definition after_fuzzy (b : Bundle) : Prop :=
  threads_ok b ∧ direct_ok b ∧ fuzzy_ok b.

Lemma after_extract_threads b : after_extract b → after_threads b.
Proof.
  intros (Ht & Hd & Hf). split; [|done].
  intros m Hm. rewrite Ht in Hm. by apply elem_of_nil in Hm.
Qed.

Lemma after_threads_direct b : after_threads b → after_direct b.
Proof.
  intros (Ht & Hd & Hf). split; [done|]. split; [|done].
  intros m Hm. rewrite Hd in Hm. by apply elem_of_nil in Hm.
Qed.

Lemma after_direct_fuzzy b : after_direct b → after_fuzzy b.
Proof.
  intros (Ht & Hd & Hf). split; [done|]. split; [done|].
  intros m Hm. rewrite Hf in Hm. by apply elem_of_nil in Hm.
Qed.

Lemma after_fuzzy_exclusive b : after_fuzzy b → exclusive b.
Proof.
  intros (Ht & Hd & Hf) m. repeat split.
  - intros [H1 H2]. by apply (Hd m H2), Ht.
  - intros [H1 H2]. by destruct (Hf m H2).
  - intros [H1 H2]. by destruct (Hf m H2).
Qed.

Lemma bundles_impl (Q Q' : Bundle → Prop) st :
  (∀ b, Q b → Q' b) → bundles Q st → bundles Q' st.
Proof. intros HQ Hb url b Hg. apply HQ. by eapply Hb. Qed.

(** *** Updating one bundle in place *)

Definition alter_bundle (f : Bundle → Bundle) (url : string) (st : Extractor)
    : Extractor :=
  mkExtractor (candidates st) (candidate_map st)
              (od_alter f url (associations st)).

Lemma bundle_append_eq add url msg st :
  bundle_append add url msg st =
  match od_get url (associations st) with
  | Some _ => (alter_bundle (add msg) url st, Ok tt)
  | None => (st, Raise (KeyError "key not found"))
  end.
Proof.
  unfold bundle_append, bind, gets_res, od_index, modify, alter_bundle.
  by destruct (od_get url (associations st)).
Qed.

Lemma hoare_bundle_append (P : Extractor → Prop) Q E add url msg :
  (∀ st b, P st → od_get url (associations st) = Some b →
     Q tt (alter_bundle (add msg) url st)) →
  (∀ st, P st → od_get url (associations st) = None → E st) →
  hoare P (bundle_append add url msg) Q E.
Proof.
  intros HP HE st Hst. rewrite bundle_append_eq.
  destruct (od_get url (associations st)) eqn:Hg; [by eapply HP | by apply HE].
Qed.

Lemma wf_alter f url st :
  (∀ b, anchor (f b) = anchor b) → wf st → wf (alter_bundle f url st).
Proof.
  intros Hf (Hnd & Hnd' & Hcm). split; [|split]; simpl.
  - by rewrite od_keys_alter.
  - done.
  - intros u c Hc. destruct (Hcm u c Hc) as (b & Hb & Ha).
    destruct (decide (url = u)) as [->|Hne].
    + exists (f b). rewrite od_get_alter_eq, Hb. split; [done|]. by rewrite Hf.
    + exists b. by rewrite od_get_alter_ne.
Qed.

Lemma bundles_alter (Q : Bundle → Prop) f url st :
  (∀ b, od_get url (associations st) = Some b → Q b → Q (f b)) →
  bundles Q st → bundles Q (alter_bundle f url st).
Proof.
  intros Hf HQ u b. simpl. destruct (decide (url = u)) as [->|Hne].
  - rewrite od_get_alter_eq. destruct (od_get u (associations st)) eqn:Hg; [|done].
    intros Hb. injection Hb as <-. apply Hf; [done|]. by eapply HQ.
  - rewrite od_get_alter_ne by done. apply HQ.
Qed.

(** *** Extraction *)

Lemma wf_record c st : wf st → wf (record_candidate c st).
Proof.
  intros (Hnd & Hnd' & Hcm). split; [|split]; simpl.
  - by apply od_keys_set_NoDup.
  - by apply od_keys_set_NoDup.
  - intros u c' Hc'. destruct (decide (linkedin_url c = u)) as [<-|Hne].
    + rewrite od_get_set_eq in Hc'. injection Hc' as <-.
      eexists. by rewrite od_get_set_eq.
    + rewrite od_get_set_ne in Hc' by done. rewrite od_get_set_ne by done.
      by apply Hcm.
Qed.

Lemma bundles_record (Q : Bundle → Prop) c st :
  Q (mkBundle c [] [] []) → bundles Q st → bundles Q (record_candidate c st).
Proof.
  intros Hc HQ u b. simpl. destruct (decide (linkedin_url c = u)) as [<-|Hne].
  - rewrite od_get_set_eq. intros Hb. by injection Hb as <-.
  - rewrite od_get_set_ne by done. apply HQ.
Qed.

Definition fresh (st : Extractor) : Prop := wf st ∧ bundles after_extract st.

Lemma fresh_init : fresh init.
Proof.
  split; [split; [|split]|]; simpl.
  - apply NoDup_nil_2.
  - apply NoDup_nil_2.
  - intros url c Hc. done.
  - intros url b Hb. done.
Qed.

Lemma extract_candidates_fresh messages channel_name :
  hoare fresh (extract_candidates messages channel_name) (λ _, fresh) fresh.
Proof.
  unfold extract_candidates. eapply hoare_bind.
  - apply hoare_for_each. intros msg _.
    eapply hoare_bind; [apply hoare_lift_keep |].
    intros tm. apply hoare_for_each. intros mt _.
    eapply hoare_bind; [apply hoare_lift_keep |].
    intros candidate_name.
    eapply hoare_bind; [apply hoare_lift_keep |].
    intros url. apply hoare_modify. intros st [Hwf Hb]. split.
    + by apply wf_record.
    + by apply bundles_record.
  - intros []. by apply hoare_gets.
Qed.

(** *** Thread replies *)

(** What [thread_map] promises: the url it gives for a key is the url of
    a bundle whose anchor has that key as message id. *)
Definition tm_sound (tm : odict pyval string) (st : Extractor) : Prop :=
  ∀ k url, od_get k tm = Some url →
    ∃ b, od_get url (associations st) = Some b ∧ message_id (anchor b) = k.

Lemma thread_map_fold (assoc l : odict string Bundle) (tm0 : odict pyval string) :
  (∀ k url, od_get k tm0 = Some url →
     ∃ b, (url, b) ∈ assoc ∧ message_id (anchor b) = k) →
  (∀ x, x ∈ l → x ∈ assoc) →
  ∀ k url,
    od_get k (fold_left (λ tm uc, od_set (message_id (anchor (snd uc))) (fst uc) tm)
                        l tm0) = Some url →
    ∃ b, (url, b) ∈ assoc ∧ message_id (anchor b) = k.
Proof.
  revert tm0. induction l as [|[u b] l IH]; intros tm0 H0 Hl k url; simpl.
  - apply H0.
  - apply IH.
    + intros k' url'. destruct (decide (message_id (anchor b) = k')) as [<-|Hne].
      * rewrite od_get_set_eq. intros Hu. injection Hu as <-.
        exists b. split; [|done]. apply Hl. left.
      * rewrite od_get_set_ne by done. apply H0.
    + intros x Hx. apply Hl. by right.
Qed.

Lemma thread_map_of_sound st :
  NoDup (od_keys (associations st)) →
  tm_sound (thread_map_of (associations st)) st.
Proof.
  intros Hnd k url Hk.
  destruct (thread_map_fold (associations st) (associations st) [] ) with (k := k) (url := url)
    as (b & Hb & Hid); try done.
  exists b. split; [|done]. by apply od_elem_get.
Qed.

Lemma tm_sound_alter tm f url st :
  (∀ b, anchor (f b) = anchor b) →
  tm_sound tm st → tm_sound tm (alter_bundle f url st).
Proof.
  intros Hf Htm k u Hk. destruct (Htm k u Hk) as (b & Hb & Hid). simpl.
  destruct (decide (url = u)) as [->|Hne].
  - exists (f b). rewrite od_get_alter_eq, Hb. split; [done|]. by rewrite Hf.
  - exists b. by rewrite od_get_alter_ne.
Qed.

Definition threads_inv (st : Extractor) : Prop := wf st ∧ bundles after_threads st.

Lemma associate_threads_inv messages :
  hoare threads_inv (associate_threads messages) (λ _, threads_inv) threads_inv.
Proof.
  unfold associate_threads. apply hoare_bind_gets. intros tm.
  eapply hoare_conseq with
    (P' := λ st, threads_inv st ∧ tm_sound tm st)
    (Q' := λ _ st, threads_inv st ∧ tm_sound tm st)
    (E' := λ st, threads_inv st ∧ tm_sound tm st).
  - apply hoare_for_each. intros msg _.
    destruct (truthy (get msg "thread_ts") && od_mem (get msg "thread_ts") tm
              && negb (py_eqb (get msg "ts") (get msg "thread_ts"))) eqn:Hc;
      [|by apply hoare_ret].
    apply andb_prop in Hc as [Hc _]. apply andb_prop in Hc as [Htruthy _].
    apply hoare_bind_lift; [done|]. intros url Hurl.
    apply od_index_Ok in Hurl.
    apply hoare_bundle_append; [|by intros].
    intros st b [[Hwf Hb] Htm] Hg.
    destruct (Htm _ _ Hurl) as (b' & Hb' & Hid).
    assert (b' = b) as -> by congruence.
    split; [split|].
    + by apply wf_alter.
    + apply bundles_alter; [|done]. intros b0 Hb0 (Ht & Hd & Hf).
      assert (b0 = b) as -> by congruence.
      split; [|done]. intros m Hm. simpl in Hm.
      apply elem_of_app in Hm as [Hm|Hm]; [by apply Ht|].
      apply list_elem_of_singleton in Hm as ->. by split.
    + by apply tm_sound_alter.
  - intros st [[Hwf Hb] <-]. split; [done|].
    apply thread_map_of_sound, Hwf.
  - by intros _ st [H _].
  - by intros st [H _].
Qed.

(** *** Direct mentions *)

Definition direct_inv (st : Extractor) : Prop := wf st ∧ bundles after_direct st.

Lemma wf_item st url c :
  wf st → (url, c) ∈ candidate_map st →
  ∃ b, od_get url (associations st) = Some b ∧ anchor b = c.
Proof.
  intros (Hnd & Hnd' & Hcm) Hin. apply Hcm. by apply od_elem_get.
Qed.

Lemma not_in_thread_of msg c :
  negb (truthy (get msg "thread_ts"))
  || negb (py_eqb (get msg "thread_ts") (message_id c)) = true →
  ¬ in_thread_of msg c.
Proof.
  intros Hc [Ht He]. apply orb_prop in Hc as [Hc|Hc].
  - by rewrite Ht in Hc.
  - unfold py_eqb in Hc. by rewrite bool_decide_eq_true_2 in Hc.
Qed.

Lemma associate_direct_mentions_inv messages :
  hoare direct_inv (associate_direct_mentions messages) (λ _, direct_inv) direct_inv.
Proof.
  unfold associate_direct_mentions. apply hoare_for_each. intros msg _.
  apply hoare_bind_gets. intros items.
  eapply hoare_conseq with
    (P' := λ st, direct_inv st ∧ candidate_map st = items)
    (Q' := λ _ st, direct_inv st ∧ candidate_map st = items)
    (E' := λ st, direct_inv st ∧ candidate_map st = items);
    [|done|by intros _ st [H _]|by intros st [H _]].
  apply hoare_for_each. intros [url c] Hin. simpl.
  apply hoare_bind_lift; [done|]. intros mentioned _.
  destruct mentioned; [|by apply hoare_ret].
  destruct (py_eqb (get msg "id") (message_id c)); [by apply hoare_ret|].
  destruct (negb (truthy (get msg "thread_ts"))
            || negb (py_eqb (get msg "thread_ts") (message_id c))) eqn:Hc;
    [|by apply hoare_ret].
  apply not_in_thread_of in Hc.
  apply hoare_bundle_append; [|by intros].
  intros st b [[Hwf Hb] Hcm] Hg. split; [split|done].
  - by apply wf_alter.
  - apply bundles_alter; [|done]. intros b0 Hb0 (Ht & Hd & Hf).
    assert (b0 = b) as -> by congruence.
    destruct (wf_item st url c Hwf) as (b' & Hb' & Ha); [by rewrite Hcm|].
    assert (b' = b) as -> by congruence. subst c.
    split; [done|]. split; [|done]. intros m Hm. simpl in Hm.
    apply elem_of_app in Hm as [Hm|Hm]; [by apply Hd|].
    by apply list_elem_of_singleton in Hm as ->.
Qed.

(** *** Fuzzy matches *)

Definition fuzzy_inv (st : Extractor) : Prop := wf st ∧ bundles after_fuzzy st.

Lemma associate_fuzzy_inv messages rag_backend channel_name :
  hoare fuzzy_inv (associate_fuzzy messages rag_backend channel_name)
        (λ _, fuzzy_inv) fuzzy_inv.
Proof.
  unfold associate_fuzzy. apply hoare_for_each. intros msg _.
  apply hoare_bind_gets. intros items.
  eapply hoare_conseq with
    (P' := fuzzy_inv) (Q' := λ _, fuzzy_inv) (E' := fuzzy_inv);
    [|by intros st [H _]|done|done].
  apply hoare_for_each. intros [url c] _. simpl.
  apply hoare_bind_gets_res; [done|]. intros b.
  destruct (msg_in msg (threads b) || msg_in msg (direct b)
            || py_eqb (get msg "id") (message_id c)) eqn:Hc;
    [apply hoare_ret; by intros st [H _]|].
  apply orb_false_elim in Hc as [Hc _]. apply orb_false_elim in Hc as [Hnt Hnd].
  unfold msg_in in Hnt, Hnd. apply bool_decide_eq_false in Hnt, Hnd.
  apply hoare_bind_lift; [by intros e st _ [H _]|]. intros top_docs _.
  destruct (contains (name c) (join "" top_docs));
    [|apply hoare_ret; by intros st [H _]].
  apply hoare_bundle_append; [|by intros st [H _]].
  intros st b' [[Hwf Hb] Hidx] Hg. apply od_index_Ok in Hidx.
  assert (b' = b) as -> by congruence.
  split.
  - by apply wf_alter.
  - apply bundles_alter; [|done]. intros b0 Hb0 (Ht & Hd & Hf).
    assert (b0 = b) as -> by congruence.
    split; [done|]. split; [done|]. intros m Hm. simpl in *.
    apply elem_of_app in Hm as [Hm|Hm]; [by apply Hf|].
    by apply list_elem_of_singleton in Hm as ->.
Qed.

(** *** The stages in sequence *)

Lemma fresh_threads_inv st : fresh st → threads_inv st.
Proof. intros [Hwf Hb]. split; [done|]. eapply bundles_impl, Hb. apply after_extract_threads. Qed.

Lemma threads_direct_inv st : threads_inv st → direct_inv st.
Proof. intros [Hwf Hb]. split; [done|]. eapply bundles_impl, Hb. apply after_threads_direct. Qed.

Lemma direct_fuzzy_inv st : direct_inv st → fuzzy_inv st.
Proof. intros [Hwf Hb]. split; [done|]. eapply bundles_impl, Hb. apply after_direct_fuzzy. Qed.

Lemma pipeline_inv messages channel_name rag_backend :
  hoare fresh (pipeline messages channel_name rag_backend)
        (λ _, fuzzy_inv) fuzzy_inv.
Proof.
  unfold pipeline.
  apply hoare_bind with (R := λ _, threads_inv).
  { apply hoare_conseq with (P' := fresh) (Q' := λ _, fresh) (E' := fresh).
    - apply extract_candidates_fresh.
    - done.
    - intros ? st. apply fresh_threads_inv.
    - intros st H. by apply direct_fuzzy_inv, threads_direct_inv, fresh_threads_inv. }
  intros ?. apply hoare_bind with (R := λ _, direct_inv).
  { apply hoare_conseq with (P' := threads_inv) (Q' := λ _, threads_inv)
                            (E' := threads_inv).
    - apply associate_threads_inv.
    - done.
    - intros ? st. apply threads_direct_inv.
    - intros st H. by apply direct_fuzzy_inv, threads_direct_inv. }
  intros ?. apply hoare_bind with (R := λ _, fuzzy_inv).
  { apply hoare_conseq with (P' := direct_inv) (Q' := λ _, direct_inv)
                            (E' := direct_inv).
    - apply associate_direct_mentions_inv.
    - done.
    - intros ? st. apply direct_fuzzy_inv.
    - intros st H. by apply direct_fuzzy_inv. }
  intros ?. apply associate_fuzzy_inv.
Qed.

(** A corpus on which every list of the bundle is inhabited: an anchor, a
    reply in its thread, a message that names the candidate, and one that
    only the retrieval backend relates to her. *)
Definition demo_anchor : Message :=
  {[ "ts" := VStr "1";
     "text" := VStr "<https://linkedin.com/in/jdoe|Jane Doe>" ]}.
Definition demo_reply : Message :=
  {[ "ts" := VStr "2"; "thread_ts" := VStr "1"; "text" := VStr "ok great" ]}.
Definition demo_mention : Message :=
  {[ "ts" := VStr "3"; "text" := VStr "what about jane doe?" ]}.
Definition demo_other : Message :=
  {[ "ts" := VStr "4"; "text" := VStr "unrelated" ]}.
Definition demo_corpus : list Message :=
  [demo_anchor; demo_reply; demo_mention; demo_other].
Definition demo_backend : Backend := λ _ _ _, Ok ["Jane Doe is great"].
Definition demo_url : string := "https://linkedin.com/in/jdoe".
Definition demo_candidate : Candidate :=
  mkCandidate "Jane Doe" demo_url (VStr "1") (VStr "1") "chan" (VStr "")
              "<https://linkedin.com/in/jdoe|Jane Doe>".

(** C1. After [extract_candidates] and the three association stages run
    in their order on one corpus, every message is in at most one of the
    lists [threads], [direct] and [fuzzy] of a candidate's bundle; this
    also holds of the state a stage leaves behind when it raises. *)
Theorem association_lists_exclusive messages channel_name rag_backend url b :
  od_get url (associations (fst (pipeline messages channel_name rag_backend init)))
    = Some b →
  exclusive b.
Proof.
  intros Hb. pose proof (pipeline_inv messages channel_name rag_backend init fresh_init) as H.
  destruct (pipeline messages channel_name rag_backend init) as [st [[]|e]];
    simpl in Hb; destruct H as [_ H]; by eapply after_fuzzy_exclusive, H.
Qed.

Lemma association_lists_exclusive_witness :
  od_get demo_url (associations (fst (pipeline demo_corpus "chan" demo_backend init)))
    = Some (mkBundle demo_candidate [demo_reply] [demo_anchor; demo_mention] [demo_other])
  ∧ exclusive (mkBundle demo_candidate [demo_reply] [demo_anchor; demo_mention] [demo_other]).
Proof.
  split.
  - vm_compute. reflexivity.
  - apply (association_lists_exclusive demo_corpus "chan" demo_backend demo_url).
    vm_compute. reflexivity.
Defined.

(** *** Running [associate_threads] again *)

(** The messages of a list that [associate_threads] files under [url],
    for a given [thread_map]. *)
Definition is_reply_for (tm : odict pyval string) (url : string) (msg : Message)
    : bool :=
  truthy (get msg "thread_ts") && od_mem (get msg "thread_ts") tm
  && negb (py_eqb (get msg "ts") (get msg "thread_ts"))
  && bool_decide (od_get (get msg "thread_ts") tm = Some url).

Definition replies_for (tm : odict pyval string) (url : string)
    (messages : list Message) : list Message :=
  filter (λ msg, is_reply_for tm url msg) messages.

Definition add_threads (msgs : list Message) (b : Bundle) : Bundle :=
  mkBundle (anchor b) (threads b ++ msgs) (direct b) (fuzzy b).

(** The urls and anchor ids of [associations], which is all that
    [thread_map_of] reads. *)
Definition anchor_ids (assoc : odict string Bundle) : list (string * pyval) :=
  map (λ ub, (fst ub, message_id (anchor (snd ub)))) assoc.

Lemma thread_map_of_anchor_ids assoc assoc' :
  anchor_ids assoc = anchor_ids assoc' → thread_map_of assoc = thread_map_of assoc'.
Proof.
  unfold thread_map_of. generalize (@nil (pyval * string)).
  revert assoc'. induction assoc as [|[u b] assoc IH]; intros [|[u' b'] assoc'] tm0 Heq;
    simpl in *; try done.
  injection Heq as -> Hid Heq. rewrite Hid. by apply IH.
Qed.

Lemma anchor_ids_alter f url assoc :
  (∀ b, anchor (f b) = anchor b) →
  anchor_ids (od_alter f url assoc) = anchor_ids assoc.
Proof.
  intros Hf. induction assoc as [|[u b] assoc IH]; simpl; [done|].
  destruct (decide (url = u)); simpl; [by rewrite Hf | by rewrite IH].
Qed.

Lemma anchor_ids_keys assoc : od_keys assoc = map fst (anchor_ids assoc).
Proof. unfold od_keys, anchor_ids. rewrite map_map. done. Qed.

(** The urls that [thread_map] gives are urls of [associations]. *)
Lemma thread_map_of_keys assoc k url :
  od_get k (thread_map_of assoc) = Some url → url ∈ od_keys assoc.
Proof.
  intros Hk.
  destruct (thread_map_fold assoc assoc []) with (k := k) (url := url)
    as (b & Hb & _); try done.
  apply list_elem_of_fmap. by exists (url, b).
Qed.

Lemma threads_loop_spec (tm : odict pyval string) messages :
  ∀ st,
    (∀ k url, od_get k tm = Some url → url ∈ od_keys (associations st)) →
    ∃ st',
      for_each messages (λ msg,
        let thread_ts := get msg "thread_ts" in
        if truthy thread_ts && od_mem thread_ts tm
           && negb (py_eqb (get msg "ts") thread_ts)
        then bind (lift (od_index thread_ts tm))
                  (λ url, bundle_append add_thread url msg)
        else ret tt) st = (st', Ok tt) ∧
      candidates st' = candidates st ∧
      candidate_map st' = candidate_map st ∧
      anchor_ids (associations st') = anchor_ids (associations st) ∧
      ∀ url, od_get url (associations st') =
             add_threads (replies_for tm url messages) <$> od_get url (associations st).
Proof.
  induction messages as [|msg messages IH]; intros st Htm.
  - exists st. simpl. repeat split; try done. intros url.
    destruct (od_get url (associations st)) as [[a t d f]|]; simpl; [|done].
    unfold add_threads. simpl. by rewrite app_nil_r.
  - cbn [for_each]. unfold bind at 1. cbv zeta.
    unfold replies_for. setoid_rewrite filter_cons. unfold is_reply_for.
    destruct (truthy (get msg "thread_ts") && od_mem (get msg "thread_ts") tm
              && negb (py_eqb (get msg "ts") (get msg "thread_ts"))) eqn:Hc.
    + unfold bind at 1, lift, od_index.
      destruct (od_get (get msg "thread_ts") tm) as [url|] eqn:Hurl.
      2:{ apply andb_prop in Hc as [Hc _]. apply andb_prop in Hc as [_ Hc].
          unfold od_mem in Hc. by rewrite Hurl in Hc. }
      rewrite bundle_append_eq.
      destruct (od_get url (associations st)) as [b|] eqn:Hb.
      2:{ apply od_get_None in Hb. exfalso. apply Hb. by eapply Htm. }
      destruct (IH (alter_bundle (add_thread msg) url st)) as (st' & Hrun & Hc1 & Hc2 & Hc3 & Hc4).
      { intros k u Hk. simpl. rewrite od_keys_alter. by eapply Htm. }
      exists st'. split; [done|]. split; [done|]. split; [done|]. split.
      { rewrite Hc3. simpl. by apply anchor_ids_alter. }
      intros u. rewrite Hc4. simpl. destruct (decide (url = u)) as [<-|Hne].
      * rewrite od_get_alter_eq, Hb. simpl.
        rewrite decide_True; [|by rewrite bool_decide_spec].
        unfold add_threads, add_thread. simpl. by rewrite <- app_assoc.
      * rewrite od_get_alter_ne by done.
        rewrite decide_False; [done|].
        rewrite bool_decide_spec. congruence.
    + destruct (IH st Htm) as (st' & Hrun & Hc1 & Hc2 & Hc3 & Hc4).
      exists st'. simpl. split; [done|]. split; [done|]. split; [done|]. split; [done|].
      intros u. by rewrite Hc4.
Qed.

Lemma associate_threads_spec messages st :
  ∃ st',
    associate_threads messages st = (st', Ok tt) ∧
    candidates st' = candidates st ∧
    candidate_map st' = candidate_map st ∧
    anchor_ids (associations st') = anchor_ids (associations st) ∧
    ∀ url, od_get url (associations st') =
           add_threads (replies_for (thread_map_of (associations st)) url messages)
             <$> od_get url (associations st).
Proof.
  unfold associate_threads, bind at 1, gets.
  apply threads_loop_spec. intros k url. apply thread_map_of_keys.
Qed.

(** C2, as the code has it. A second call of [associate_threads] on the
    same messages does not raise and appends to each candidate's
    [threads] the same replies once more: the list after the second call
    is the list after the first call followed by a second copy of what the
    first call appended. The bundle is the same after both calls only
    when the first call appended nothing to it. *)
Theorem associate_threads_twice_appends_again messages st url b0 :
  od_get url (associations st) = Some b0 →
  ∃ st1 st2 b1 b2,
    associate_threads messages st = (st1, Ok tt) ∧
    associate_threads messages st1 = (st2, Ok tt) ∧
    od_get url (associations st1) = Some b1 ∧
    od_get url (associations st2) = Some b2 ∧
    let delta := replies_for (thread_map_of (associations st)) url messages in
    threads b1 = threads b0 ++ delta ∧
    threads b2 = threads b1 ++ delta ∧
    anchor b2 = anchor b1 ∧ direct b2 = direct b1 ∧ fuzzy b2 = fuzzy b1 ∧
    (b2 = b1 ↔ delta = []).
Proof.
  intros Hb0.
  destruct (associate_threads_spec messages st) as (st1 & Hrun1 & _ & _ & Hids & Hget1).
  destruct (associate_threads_spec messages st1) as (st2 & Hrun2 & _ & _ & _ & Hget2).
  rewrite (thread_map_of_anchor_ids _ _ Hids) in Hget2.
  specialize (Hget1 url). specialize (Hget2 url).
  rewrite Hb0 in Hget1. simpl in Hget1. rewrite Hget1 in Hget2. simpl in Hget2.
  eexists st1, st2, _, _. repeat (split; [eassumption|]).
  simpl. repeat (split; [done|]). split.
  - intros Heq. apply (f_equal threads) in Heq. simpl in Heq.
    rewrite <- (app_nil_r (threads b0 ++ _)) in Heq at 2.
    by apply app_inv_head in Heq.
  - intros ->. unfold add_threads. simpl. by rewrite !app_nil_r.
Qed.

Lemma associate_threads_twice_appends_again_witness :
  od_get demo_url (associations (fst (extract_candidates demo_corpus "chan" init)))
    = Some (mkBundle demo_candidate [] [] []) ∧
  ∃ st1 st2 b1 b2,
    associate_threads demo_corpus (fst (extract_candidates demo_corpus "chan" init))
      = (st1, Ok tt) ∧
    associate_threads demo_corpus st1 = (st2, Ok tt) ∧
    od_get demo_url (associations st1) = Some b1 ∧
    od_get demo_url (associations st2) = Some b2 ∧
    let delta :=
      replies_for
        (thread_map_of
           (associations (fst (extract_candidates demo_corpus "chan" init))))
        demo_url demo_corpus in
    threads b1 = threads (mkBundle demo_candidate [] [] []) ++ delta ∧
    threads b2 = threads b1 ++ delta ∧
    anchor b2 = anchor b1 ∧ direct b2 = direct b1 ∧ fuzzy b2 = fuzzy b1 ∧
    (b2 = b1 ↔ delta = []).
Proof.
  split.
  - vm_compute. reflexivity.
  - apply (associate_threads_twice_appends_again demo_corpus
             (fst (extract_candidates demo_corpus "chan" init)) demo_url).
    vm_compute. reflexivity.
Defined.

(** C2, as the specification states it, fails: on the demo corpus the
    reply is filed once by the first call and a second time by the second
    call. *)
Lemma associate_threads_second_call_differs :
  let st0 := fst (extract_candidates demo_corpus "chan" init) in
  let st1 := fst (associate_threads demo_corpus st0) in
  let st2 := fst (associate_threads demo_corpus st1) in
  threads <$> od_get demo_url (associations st1) = Some [demo_reply] ∧
  threads <$> od_get demo_url (associations st2) = Some [demo_reply; demo_reply] ∧
  associations st2 ≠ associations st1.
Proof.
  intros st0 st1 st2.
  assert (H1 : threads <$> od_get demo_url (associations st1) = Some [demo_reply])
    by (vm_compute; reflexivity).
  assert (H2 : threads <$> od_get demo_url (associations st2)
               = Some [demo_reply; demo_reply])
    by (vm_compute; reflexivity).
  split; [done|]. split; [done|].
  intros Heq. rewrite Heq, H1 in H2. discriminate H2.
Qed.

(** *** A judge that raises *)

(** Every url of [candidate_map] has a bundle. *)
Definition linked (st : Extractor) : bool :=
  forallb (λ uc, od_mem (fst uc) (associations st)) (candidate_map st).

(** The body of the outer loop of [associate_fuzzy]. *)
Definition fuzzy_message (rag_backend : Backend) (channel_name : string)
    (msg : Message) : M Extractor unit :=
  bind (gets candidate_map) (λ items,
    for_each items (λ uc,
      bind (gets_res (λ st, od_index (fst uc) (associations st))) (λ b,
        if msg_in msg (threads b) || msg_in msg (direct b)
           || py_eqb (get msg "id") (message_id (snd uc))
        then ret tt
        else
          bind (lift (rag_backend (get_or msg "text" (VStr "")) 3 channel_name))
               (λ top_docs,
                  if contains (name (snd uc)) (join "" top_docs)
                  then bundle_append add_fuzzy (fst uc) msg
                  else ret tt)))).

Lemma associate_fuzzy_unfold messages rag_backend channel_name :
  associate_fuzzy messages rag_backend channel_name =
  for_each messages (fuzzy_message rag_backend channel_name).
Proof. reflexivity. Qed.

(** [msg] and the candidate under [url] are a pair that [associate_fuzzy]
    hands to the judge: the message is not yet in the candidate's
    [threads] or [direct], and is not recognised as her anchor. *)
Definition examined (st : Extractor) (msg : Message) (uc : string * Candidate)
    : bool :=
  match od_get (fst uc) (associations st) with
  | Some b =>
      negb (msg_in msg (threads b) || msg_in msg (direct b)
            || py_eqb (get msg "id") (message_id (snd uc)))
  | None => false
  end.

Definition examines (st : Extractor) (msg : Message) : bool :=
  existsb (examined st msg) (candidate_map st).

Lemma linked_alter f url st : linked (alter_bundle f url st) = linked st.
Proof.
  unfold linked. simpl.
  induction (candidate_map st) as [|[u c] l IH]; simpl; [done|].
  rewrite IH. f_equal.
  unfold od_mem. destruct (decide (url = u)) as [->|Hne].
  - rewrite od_get_alter_eq. by destruct (od_get u (associations st)).
  - by rewrite od_get_alter_ne.
Qed.

Lemma associate_fuzzy_linked messages rag_backend channel_name :
  hoare (λ st, linked st = true)
        (associate_fuzzy messages rag_backend channel_name)
        (λ _ st, linked st = true) (λ st, linked st = true).
Proof.
  unfold associate_fuzzy. apply hoare_for_each. intros msg _.
  apply hoare_bind_gets. intros items.
  eapply hoare_conseq with
    (P' := λ st, linked st = true) (Q' := λ _ st, linked st = true)
    (E' := λ st, linked st = true);
    [|by intros st [H _]|done|done].
  apply hoare_for_each. intros [url c] _. simpl.
  apply hoare_bind_gets_res; [done|]. intros b.
  destruct (msg_in msg (threads b) || msg_in msg (direct b)
            || py_eqb (get msg "id") (message_id c));
    [apply hoare_ret; by intros st [H _]|].
  apply hoare_bind_lift; [by intros e st _ [H _]|]. intros top_docs _.
  destruct (contains (name c) (join "" top_docs));
    [|apply hoare_ret; by intros st [H _]].
  apply hoare_bundle_append; [|by intros st [H _]].
  intros st b' [Hl _] _. by rewrite linked_alter.
Qed.

(** When the judge raises on the text of [msg], the first examined pair
    ends the inner loop with that error, and nothing was appended. *)
Lemma fuzzy_items_raise (rag_backend : Backend) (channel_name : string)
    (msg : Message) e st items :
  rag_backend (get_or msg "text" (VStr "")) 3 channel_name = Raise e →
  forallb (λ uc, od_mem (fst uc) (associations st)) items = true →
  for_each items (λ uc,
    bind (gets_res (λ st, od_index (fst uc) (associations st))) (λ b,
      if msg_in msg (threads b) || msg_in msg (direct b)
         || py_eqb (get msg "id") (message_id (snd uc))
      then ret tt
      else
        bind (lift (rag_backend (get_or msg "text" (VStr "")) 3 channel_name))
             (λ top_docs,
                if contains (name (snd uc)) (join "" top_docs)
                then bundle_append add_fuzzy (fst uc) msg
                else ret tt))) st
  = (st, if existsb (examined st msg) items then Raise e else Ok tt).
Proof.
  intros Hj. induction items as [|[url c] items IH]; intros Hl; [done|].
  simpl in Hl. apply andb_prop in Hl as [Hm Hl].
  cbn [for_each existsb]. unfold bind at 1. unfold bind at 1, gets_res, od_index, examined.
  unfold od_mem in Hm. simpl in *.
  destruct (od_get url (associations st)) as [b|]; [|done].
  destruct (msg_in msg (threads b) || msg_in msg (direct b)
            || py_eqb (get msg "id") (message_id c)); simpl.
  - by apply IH.
  - unfold bind, lift. by rewrite Hj.
Qed.

Lemma fuzzy_message_raise (rag_backend : Backend) (channel_name : string)
    (msg : Message) e st :
  rag_backend (get_or msg "text" (VStr "")) 3 channel_name = Raise e →
  linked st = true →
  fuzzy_message rag_backend channel_name msg st
  = (st, if examines st msg then Raise e else Ok tt).
Proof.
  intros Hj Hl. unfold fuzzy_message, bind at 1, gets.
  by apply fuzzy_items_raise.
Qed.

(** A judge that fails on one text and relates every other message to
    Jane Doe, and a corpus with a message after the failing one. *)
Definition moody_backend : Backend :=
  λ text _ _,
    if bool_decide (text = VStr "unrelated")
    then Raise (Exn "RuntimeError" "collection unavailable")
    else Ok ["Jane Doe is great"].
Definition demo_late : Message :=
  {[ "ts" := VStr "5"; "text" := VStr "strong profile" ]}.
Definition demo_classified : Extractor :=
  fst ((extract_candidates demo_corpus "chan" ;;
        associate_threads demo_corpus ;;
        associate_direct_mentions demo_corpus)%eff init).

(** C3, as the specification states it, fails: with a judge that raises
    on one message, [associate_fuzzy] ends with the error, and the later
    message, which the judge would have related to the candidate, is not
    in [fuzzy]. *)
Lemma associate_fuzzy_crashes_on_judge_error :
  snd (associate_fuzzy [demo_other; demo_late] moody_backend "chan" demo_classified)
    = Raise (Exn "RuntimeError" "collection unavailable") ∧
  fuzzy <$> od_get demo_url
              (associations
                 (fst (associate_fuzzy [demo_other; demo_late] moody_backend "chan"
                                       demo_classified)))
    = Some [] ∧
  fuzzy <$> od_get demo_url
              (associations
                 (fst (associate_fuzzy [demo_late] moody_backend "chan"
                                       demo_classified)))
    = Some [demo_late].
Proof. repeat split; vm_compute; reflexivity. Qed.

(** *** What extraction records *)

(** A match of [LINKEDIN_REGEX] binds both groups, and the first is a
    piece of the text. *)
Lemma linkedin_run s rest cp :
  (rest, cp) ∈ run LINKEDIN_REGEX s [] →
  ∃ g1 g2, cp = [(2, g2); (1, g1)] ∧ infix g1 s.
Proof.
  unfold LINKEDIN_REGEX. intros H.
  apply run_cat in H as (s1 & cp1 & H1 & H).
  apply run_lit in H1 as [-> ->].
  apply run_cat in H as (s2 & cp2 & H2 & H).
  apply run_grp in H2 as (g1 & -> & ->); [|reflexivity].
  apply run_cat in H as (s3 & cp3 & H3 & H).
  apply run_lit in H3 as [-> ->].
  apply run_cat in H as (s4 & cp4 & H4 & H).
  apply run_grp in H4 as (g2 & -> & ->); [|reflexivity].
  apply run_lit in H as [-> ->].
  exists g1, g2. split; [done|].
  exists (la "<"), (la "|" ++ g2 ++ la ">" ++ rest). done.
Qed.

Lemma linkedin_groups t mt :
  mt ∈ finditer LINKEDIN_REGEX t →
  ∃ g1 g2, mt = [(2, g2); (1, g1)] ∧ infix g1 (la t).
Proof.
  intros H. apply finditer_from_elem in H as (before & s' & rest & Ht & Hm).
  apply match_here_run, linkedin_run in Hm as (g1 & g2 & -> & Hin).
  exists g1, g2. split; [done|]. rewrite Ht.
  eapply infix_trans; [exact Hin|]. exists before, []. by rewrite app_nil_r.
Qed.

(** The candidate of one match, and the candidates of one message. *)
Definition match_candidate (msg : Message) (channel_name t : string) (mt : caps)
    : Candidate :=
  make_candidate msg channel_name t
                 (strip (default "" (group mt 1)))
                 (strip (default "" (group mt 2))).

Definition message_candidates (channel_name : string) (msg : Message)
    : list Candidate :=
  match get_or msg "text" (VStr "") with
  | VStr t => map (match_candidate msg channel_name t) (finditer LINKEDIN_REGEX t)
  | VNone => []
  end.

Definition record_all (cs : list Candidate) (st : Extractor) : Extractor :=
  fold_left (λ st c, record_candidate c st) cs st.

Definition has_text (msg : Message) : Prop :=
  ∃ t, get_or msg "text" (VStr "") = VStr t.

Lemma record_matches msg channel_name t mts st :
  (∀ mt, mt ∈ mts → ∃ g1 g2, mt = [(2, g2); (1, g1)]) →
  for_each mts (λ mt,
    bind (lift (group_strip mt 2)) (λ candidate_name,
      bind (lift (group_strip mt 1)) (λ linkedin_url,
        modify (record_candidate
                  (make_candidate msg channel_name t linkedin_url candidate_name)))))
    st
  = (record_all (map (match_candidate msg channel_name t) mts) st, Ok tt).
Proof.
  revert st. induction mts as [|mt mts IH]; intros st Hm; [done|].
  destruct (Hm mt) as (g1 & g2 & ->); [left|].
  cbn [for_each map]. unfold bind at 1. simpl. apply IH.
  intros mt' Hmt'. apply Hm. by right.
Qed.

Lemma record_all_app cs cs' st :
  record_all (cs ++ cs') st = record_all cs' (record_all cs st).
Proof. unfold record_all. apply fold_left_app. Qed.

Lemma extract_loop_spec messages channel_name st :
  (∀ m, m ∈ messages → has_text m) →
  for_each messages (λ msg,
    bind (lift (text_matches LINKEDIN_REGEX (get_or msg "text" (VStr "")))) (λ tm,
      for_each (snd tm) (λ mt,
        bind (lift (group_strip mt 2)) (λ candidate_name,
          bind (lift (group_strip mt 1)) (λ linkedin_url,
            modify (record_candidate
                      (make_candidate msg channel_name (fst tm)
                                      linkedin_url candidate_name)))))))
    st
  = (record_all (flat_map (message_candidates channel_name) messages) st, Ok tt).
Proof.
  revert st. induction messages as [|msg messages IH]; intros st Ht; [done|].
  cbn [for_each flat_map]. unfold bind at 1. unfold bind at 1, lift at 1.
  destruct (Ht msg) as [t Hmsg]; [left|].
  unfold message_candidates at 1. rewrite Hmsg.
  unfold text_matches. cbn [fst snd].
  rewrite (record_matches msg channel_name t (finditer LINKEDIN_REGEX t)).
  - rewrite record_all_app. apply IH. intros m Hm. apply Ht. by right.
  - intros mt Hmt. apply linkedin_groups in Hmt as (g1 & g2 & -> & _). eauto.
Qed.

(** On messages whose text is a string, [extract_candidates] does not
    raise and records, one after the other, the candidates of the matches
    of each message. *)
Lemma extract_candidates_spec messages channel_name st :
  (∀ m, m ∈ messages → has_text m) →
  let st' := record_all (flat_map (message_candidates channel_name) messages) st in
  extract_candidates messages channel_name st = (st', Ok (candidates st')).
Proof.
  intros Ht st'. unfold extract_candidates. unfold bind at 1.
  by rewrite extract_loop_spec.
Qed.

Lemma record_all_candidates cs st :
  candidates (record_all cs st) = candidates st ++ cs.
Proof.
  revert st. induction cs as [|c cs IH]; intros st; simpl.
  - by rewrite app_nil_r.
  - unfold record_all in *. simpl. rewrite IH. simpl. by rewrite <- app_assoc.
Qed.

Lemma wf_record_all cs st : wf st → wf (record_all cs st).
Proof.
  revert st. induction cs as [|c cs IH]; intros st Hwf; [done|].
  apply IH. by apply wf_record.
Qed.

Lemma wf_linked st : wf st → linked st = true.
Proof.
  intros Hwf. unfold linked. apply forallb_forall. intros [u c] Hin.
  apply list_elem_of_In in Hin.
  destruct (wf_item st u c Hwf Hin) as (b & Hb & _).
  unfold od_mem. simpl. by rewrite Hb.
Qed.

(** Every candidate held by [candidate_map] satisfies [P]. *)
Definition cmap_all (P : Candidate → Prop) (st : Extractor) : Prop :=
  ∀ url c, od_get url (candidate_map st) = Some c → P c.

Lemma cmap_all_record_all (P : Candidate → Prop) cs st :
  (∀ c, c ∈ cs → P c) → cmap_all P st → cmap_all P (record_all cs st).
Proof.
  revert st. induction cs as [|c cs IH]; intros st Hcs Hst; [done|].
  apply IH.
  - intros c' Hc'. apply Hcs. by right.
  - intros u c'. simpl. destruct (decide (linkedin_url c = u)) as [<-|Hne].
    + rewrite od_get_set_eq. intros [= <-]. apply Hcs. left.
    + rewrite od_get_set_ne by done. apply Hst.
Qed.

Lemma record_all_keeps_key cs st url :
  od_mem url (candidate_map st) = true →
  od_mem url (candidate_map (record_all cs st)) = true.
Proof.
  revert st. induction cs as [|c cs IH]; intros st Hst; [done|].
  change (od_mem url (candidate_map (record_all cs (record_candidate c st))) = true).
  apply IH. simpl. unfold od_mem in *.
  destruct (decide (linkedin_url c = url)) as [<-|Hne].
  - by rewrite od_get_set_eq.
  - by rewrite od_get_set_ne.
Qed.

Lemma record_all_has_key cs st c :
  c ∈ cs → od_mem (linkedin_url c) (candidate_map (record_all cs st)) = true.
Proof.
  revert st. induction cs as [|c0 cs IH]; intros st Hc.
  - by apply elem_of_nil in Hc.
  - apply elem_of_cons in Hc as [->|Hc]; [|by apply IH].
    change (od_mem (linkedin_url c0)
              (candidate_map (record_all cs (record_candidate c0 st))) = true).
    apply record_all_keeps_key. simpl. unfold od_mem. by rewrite od_get_set_eq.
Qed.

(** The candidates of a message carry a url that occurs in its text, and
    the id that [extract_candidates] gives them. *)
Lemma message_candidates_elem channel_name msg c :
  c ∈ message_candidates channel_name msg →
  ∃ t, get_or msg "text" (VStr "") = VStr t ∧
       contains (linkedin_url c) t = true ∧
       message_id c = py_or (get msg "id") (get msg "ts").
Proof.
  unfold message_candidates.
  destruct (get_or msg "text" (VStr "")) as [|t] eqn:Ht;
    [intros H; by apply elem_of_nil in H|].
  intros H. apply list_elem_of_fmap in H as (mt & -> & Hmt).
  apply linkedin_groups in Hmt as (g1 & g2 & -> & Hin).
  exists t. split; [done|]. split; [|done].
  unfold match_candidate, contains, strip. simpl.
  rewrite !la_of_la. apply contains_la_infix.
  eapply infix_trans; [apply strip_la_infix | exact Hin].
Qed.

(** *** The anchor among the direct mentions *)

Definition direct_item (msg : Message) (uc : string * Candidate)
    : M Extractor unit :=
  bind (lift (mentions (fst uc) (name (snd uc)) (get_or msg "text" (VStr ""))))
       (λ mentioned : bool,
          if mentioned then
            if py_eqb (get msg "id") (message_id (snd uc)) then ret tt
            else if negb (truthy (get msg "thread_ts"))
                    || negb (py_eqb (get msg "thread_ts") (message_id (snd uc)))
            then bundle_append add_direct (fst uc) msg
            else ret tt
          else ret tt).

Definition direct_message (msg : Message) : M Extractor unit :=
  bind (gets candidate_map) (λ items, for_each items (direct_item msg)).

Lemma associate_direct_mentions_unfold messages :
  associate_direct_mentions messages = for_each messages direct_message.
Proof. reflexivity. Qed.

(** The facts of the state that the loops of [associate_direct_mentions]
    rely on and keep. *)
Definition steady (CM : odict string Candidate) (st : Extractor) : Prop :=
  candidate_map st = CM ∧ linked st = true.

Definition stable (X : Extractor → Prop) : Prop :=
  ∀ st u m, X st → X (alter_bundle (add_direct m) u st).

Lemma steady_alter CM f u st : steady CM st → steady CM (alter_bundle f u st).
Proof. intros [Hcm Hl]. split; [done|]. by rewrite linked_alter. Qed.

Lemma steady_bundle CM st uc :
  steady CM st → uc ∈ CM → od_get (fst uc) (associations st) ≠ None.
Proof.
  intros [<- Hl] Hin Hnone. unfold linked in Hl.
  rewrite forallb_forall in Hl. apply list_elem_of_In, Hl in Hin.
  unfold od_mem in Hin. by rewrite Hnone in Hin.
Qed.

Lemma direct_item_keeps CM (X : Extractor → Prop) msg uc :
  stable X → has_text msg → uc ∈ CM →
  hoare (λ st, steady CM st ∧ X st) (direct_item msg uc)
        (λ _ st, steady CM st ∧ X st) (λ _, False).
Proof.
  intros HX [t Ht] Hin. unfold direct_item. rewrite Ht.
  apply hoare_bind_lift; [done|]. intros mentioned _.
  destruct mentioned; [|by apply hoare_ret].
  destruct (py_eqb (get msg "id") (message_id uc.2)); [by apply hoare_ret|].
  destruct (negb (truthy (get msg "thread_ts"))
            || negb (py_eqb (get msg "thread_ts") (message_id uc.2)));
    [|by apply hoare_ret].
  apply hoare_bundle_append.
  - intros st b [Hs Hx] _. split; [by apply steady_alter | by apply HX].
  - intros st [Hs _] Hnone. by eapply steady_bundle.
Qed.

(** The anchor message is in [direct] of the bundle under [url]. *)
Definition filed (url : string) (msg : Message) (st : Extractor) : Prop :=
  ∃ b, od_get url (associations st) = Some b ∧ msg ∈ direct b.

Lemma filed_stable url msg : stable (filed url msg).
Proof.
  intros st u m (b & Hb & Hin). unfold filed. simpl.
  destruct (decide (u = url)) as [->|Hne].
  - exists (add_direct m b). rewrite od_get_alter_eq, Hb. split; [done|].
    simpl. apply elem_of_app. by left.
  - exists b. by rewrite od_get_alter_ne.
Qed.

Lemma direct_item_hits CM msg url c t :
  (url, c) ∈ CM →
  get_or msg "text" (VStr "") = VStr t →
  contains url t = true →
  py_eqb (get msg "id") (message_id c) = false →
  truthy (get msg "thread_ts") = false →
  hoare (steady CM) (direct_item msg (url, c))
        (λ _ st, steady CM st ∧ filed url msg st) (λ _, False).
Proof.
  intros Hin Ht Hc Hid Hth. unfold direct_item. simpl.
  rewrite Ht. simpl. rewrite Hc, Hid, Hth. simpl.
  apply hoare_bind_lift; [done|]. intros mentioned [= <-].
  apply hoare_bundle_append.
  - intros st b Hs Hb. split; [by apply steady_alter|].
    exists (add_direct msg b). simpl. rewrite od_get_alter_eq, Hb.
    split; [done|]. simpl. apply elem_of_app. right. by apply list_elem_of_singleton.
  - intros st Hs Hnone. by eapply (steady_bundle CM st (url, c)).
Qed.

Lemma direct_message_keeps CM (X : Extractor → Prop) msg :
  stable X → has_text msg →
  hoare (λ st, steady CM st ∧ X st) (direct_message msg)
        (λ _ st, steady CM st ∧ X st) (λ _, False).
Proof.
  intros HX Ht. unfold direct_message. apply hoare_bind_gets. intros items.
  apply (hoare_pure (items = CM)).
  { intros st [[[Hcm _] _] Heq]. congruence. }
  intros ->.
  apply hoare_conseq with
    (P' := λ st, steady CM st ∧ X st)
    (Q' := λ _ st, steady CM st ∧ X st) (E' := λ _, False);
    [|tauto|done|done].
  apply hoare_for_each. intros uc Hin. by apply direct_item_keeps.
Qed.

Lemma direct_item_steady CM msg uc :
  has_text msg → uc ∈ CM →
  hoare (steady CM) (direct_item msg uc) (λ _, steady CM) (λ _, False).
Proof.
  intros Ht Hin.
  apply hoare_conseq with
    (P' := λ st, steady CM st ∧ True)
    (Q' := λ _ st, steady CM st ∧ True) (E' := λ _, False);
    [|tauto|by intros _ st [H _]|done].
  by apply (direct_item_keeps CM (λ _, True)).
Qed.

Lemma direct_message_steady CM msg :
  has_text msg →
  hoare (steady CM) (direct_message msg) (λ _, steady CM) (λ _, False).
Proof.
  intros Ht.
  apply hoare_conseq with
    (P' := λ st, steady CM st ∧ True)
    (Q' := λ _ st, steady CM st ∧ True) (E' := λ _, False);
    [|tauto|by intros _ st [H _]|done].
  by apply (direct_message_keeps CM (λ _, True)).
Qed.

Lemma direct_message_hits CM msg url c t :
  (url, c) ∈ CM →
  get_or msg "text" (VStr "") = VStr t →
  contains url t = true →
  py_eqb (get msg "id") (message_id c) = false →
  truthy (get msg "thread_ts") = false →
  hoare (steady CM) (direct_message msg)
        (λ _ st, steady CM st ∧ filed url msg st) (λ _, False).
Proof.
  intros Hin Ht Hc Hid Hth. unfold direct_message.
  apply hoare_bind_gets. intros items.
  apply (hoare_pure (items = CM)).
  { intros st [[Hcm _] Heq]. congruence. }
  intros ->.
  apply hoare_conseq with
    (P' := steady CM)
    (Q' := λ _ st, steady CM st ∧ filed url msg st) (E' := λ _, False);
    [|tauto|done|done].
  apply hoare_for_each_at with (x := (url, c)); [done|..].
  - intros uc Huc. apply direct_item_steady; [by exists t | done].
  - by eapply direct_item_hits.
  - intros uc Huc. apply direct_item_keeps; [apply filed_stable | by exists t | done].
Qed.

(** On messages whose text is a string, [associate_direct_mentions] does
    not raise; a message that mentions the url of a candidate of
    [candidate_map], is not recognised as her anchor and has no
    [thread_ts] ends up in [direct] of that url. *)
Lemma associate_direct_mentions_files messages st :
  (∀ m, m ∈ messages → has_text m) →
  linked st = true →
  ∃ st2,
    associate_direct_mentions messages st = (st2, Ok tt) ∧
    ∀ msg url c t,
      msg ∈ messages →
      od_get url (candidate_map st) = Some c →
      get_or msg "text" (VStr "") = VStr t →
      contains url t = true →
      py_eqb (get msg "id") (message_id c) = false →
      truthy (get msg "thread_ts") = false →
      filed url msg st2.
Proof.
  intros Ht Hl. rewrite associate_direct_mentions_unfold.
  assert (Hs : steady (candidate_map st) st) by done.
  destruct (hoare_returns (steady (candidate_map st))
              (for_each messages direct_message) (λ _, steady (candidate_map st)) st)
    as (st2 & [] & Hrun & _); [|done|].
  { apply hoare_for_each. intros m Hm. by apply direct_message_steady, Ht. }
  exists st2. split; [done|].
  intros msg url c t Hmsg Hc Htext Hcont Hid Hth.
  destruct (hoare_returns (steady (candidate_map st))
              (for_each messages direct_message)
              (λ _ s, steady (candidate_map st) s ∧ filed url msg s) st)
    as (st2' & [] & Hrun' & _ & Hf); [|done|].
  - apply hoare_for_each_at with (x := msg); [done|..].
    + intros m Hm. by apply direct_message_steady, Ht.
    + eapply direct_message_hits; try done. by apply od_get_elem.
    + intros m Hm. apply direct_message_keeps; [apply filed_stable | by apply Ht].
  - rewrite Hrun in Hrun'. by injection Hrun' as ->.
Qed.

Lemma py_or_None v : py_or VNone v = v.
Proof. done. Qed.

(** C10. When no message has an ['id'] and every message has a ['ts']
    (and a text that is a string, if it has one), extraction gives each
    candidate the ['ts'] of her anchor as message id, and
    [associate_direct_mentions], run on the same messages right after
    extraction or after [associate_threads], returns and has put the
    anchor message of every candidate into the [direct] list filed under
    the candidate's url, provided the anchor has no [thread_ts]: the test
    against the anchor compares the missing ['id'] with that ['ts']. *)
Theorem anchor_filed_as_direct_mention messages channel_name (threads_first : bool) :
  (∀ m, m ∈ messages →
        get m "id" = VNone ∧ get m "ts" ≠ VNone ∧ has_text m) →
  ∃ st1 st2,
    extract_candidates messages channel_name init
      = (st1, Ok (flat_map (message_candidates channel_name) messages)) ∧
    associate_direct_mentions messages
      (if threads_first then fst (associate_threads messages st1) else st1)
      = (st2, Ok tt) ∧
    ∀ msg c,
      msg ∈ messages →
      c ∈ message_candidates channel_name msg →
      truthy (get msg "thread_ts") = false →
      message_id c = get msg "ts" ∧
      ∃ b, od_get (linkedin_url c) (associations st2) = Some b ∧ msg ∈ direct b.
Proof.
  intros Hmsgs.
  assert (Htext : ∀ m, m ∈ messages → has_text m) by (intros m Hm; by apply Hmsgs).
  pose proof (extract_candidates_spec messages channel_name init Htext) as Hex.
  cbv zeta in Hex. rewrite record_all_candidates in Hex. simpl in Hex.
  set (st1 := record_all (flat_map (message_candidates channel_name) messages) init) in *.
  assert (Hfresh : fresh st1).
  { pose proof (extract_candidates_fresh messages channel_name init fresh_init) as Hf.
    by rewrite Hex in Hf. }
  assert (Hwf1 : wf st1) by apply Hfresh.
  assert (Hids : cmap_all (λ c, message_id c ≠ VNone) st1).
  { apply cmap_all_record_all; [|done].
    intros c Hc. apply list_elem_of_In, in_flat_map in Hc as (m & Hm & Hc).
    apply list_elem_of_In in Hm, Hc.
    apply message_candidates_elem in Hc as (t & _ & _ & ->).
    destruct (Hmsgs m Hm) as (-> & Hts & _). by rewrite py_or_None. }
  set (st := if threads_first then fst (associate_threads messages st1) else st1).
  assert (Hst : candidate_map st = candidate_map st1 ∧ wf st).
  { unfold st. destruct threads_first; [|done].
    destruct (associate_threads_spec messages st1) as (st' & Hrun & _ & Hcm & _).
    pose proof (associate_threads_inv messages st1 (fresh_threads_inv st1 Hfresh))
      as Hinv.
    rewrite Hrun in *. simpl. split; [done | apply Hinv]. }
  destruct Hst as [Hcm Hwf].
  destruct (associate_direct_mentions_files messages st Htext (wf_linked st Hwf))
    as (st2 & Hrun & Hfiled).
  exists st1, st2. split; [done|]. split; [done|].
  intros msg c Hmsg Hc Hth.
  destruct (Hmsgs msg Hmsg) as (Hid & Hts & _).
  pose proof (message_candidates_elem _ _ _ Hc) as (t & Ht & Hcont & Hmid).
  rewrite Hid, py_or_None in Hmid. split; [done|].
  assert (Hkey : od_mem (linkedin_url c) (candidate_map st1) = true).
  { apply record_all_has_key. apply list_elem_of_In, in_flat_map.
    exists msg. split; by apply list_elem_of_In. }
  unfold od_mem in Hkey.
  destruct (od_get (linkedin_url c) (candidate_map st1)) as [c'|] eqn:Hc'; [|done].
  apply (Hfiled msg (linkedin_url c) c' t); try done.
  - by rewrite Hcm.
  - rewrite Hid. unfold py_eqb. apply bool_decide_eq_false.
    intros Heq. by apply (Hids _ _ Hc').
Qed.

Lemma anchor_filed_as_direct_mention_witness :
  (∀ m, m ∈ demo_corpus →
        get m "id" = VNone ∧ get m "ts" ≠ VNone ∧ has_text m) ∧
  ∃ st1 st2,
    extract_candidates demo_corpus "chan" init
      = (st1, Ok (flat_map (message_candidates "chan") demo_corpus)) ∧
    associate_direct_mentions demo_corpus
      (if true then fst (associate_threads demo_corpus st1) else st1)
      = (st2, Ok tt) ∧
    ∀ msg c,
      msg ∈ demo_corpus →
      c ∈ message_candidates "chan" msg →
      truthy (get msg "thread_ts") = false →
      message_id c = get msg "ts" ∧
      ∃ b, od_get (linkedin_url c) (associations st2) = Some b ∧ msg ∈ direct b.
Proof.
  assert (H : ∀ m, m ∈ demo_corpus →
                get m "id" = VNone ∧ get m "ts" ≠ VNone ∧ has_text m).
  { intros m Hm. unfold demo_corpus in Hm.
    repeat (apply elem_of_cons in Hm as [->|Hm]);
      [..|by apply elem_of_nil in Hm];
      (split; [vm_compute; reflexivity|]);
      (split; [vm_compute; discriminate|]);
      eexists; vm_compute; reflexivity. }
  split; [exact H|].
  exact (anchor_filed_as_direct_mention demo_corpus "chan" true H).
Defined.

(** On the demo corpus the anchor is indeed the first direct mention of
    its own candidate. *)
Example demo_anchor_in_direct :
  direct <$> od_get demo_url
               (associations
                  (fst ((extract_candidates demo_corpus "chan" ;;
                         associate_direct_mentions demo_corpus)%eff init)))
  = Some [demo_anchor; demo_mention].
Proof. vm_compute. reflexivity. Qed.

(** ** What [extract_candidates] leaves in the extractor *)

(** The last candidate recorded for a profile URL. *)
Definition last_with_url (url : string) (cs : list Candidate) : option Candidate :=
  last (filter (λ c, linkedin_url c = url) cs).

Lemma record_all_snoc cs c st :
  record_all (cs ++ [c]) st = record_candidate c (record_all cs st).
Proof. by rewrite record_all_app. Qed.

Lemma record_all_lookup cs st url :
  od_get url (candidate_map (record_all cs st)) =
    from_option Some (od_get url (candidate_map st)) (last_with_url url cs) ∧
  od_get url (associations (record_all cs st)) =
    from_option (λ c, Some (mkBundle c [] [] []))
                (od_get url (associations st)) (last_with_url url cs).
Proof.
  unfold last_with_url.
  induction cs as [|c cs IH] using rev_ind; [done|].
  rewrite record_all_snoc, filter_app, filter_cons, filter_nil. simpl.
  destruct IH as [IH1 IH2].
  destruct (decide (linkedin_url c = url)) as [<-|Hne].
  - rewrite last_snoc. simpl. by rewrite !od_get_set_eq.
  - rewrite app_nil_r, !od_get_set_ne by done. done.
Qed.

(** X1. [extract_candidates] returns the list the extractor keeps, not the
    candidates of the call: on messages whose text is a string, a call
    made on an extractor that already holds candidates returns those
    followed by one candidate for each profile link of the new messages,
    in message order, and a second call returns the result of the first
    followed by the candidates of its own messages. Nothing is
    de-duplicated. *)
Theorem extract_candidates_accumulates ms1 ch1 ms2 ch2 st :
  (∀ m, m ∈ ms1 → has_text m) →
  (∀ m, m ∈ ms2 → has_text m) →
  ∃ st1 st2,
    extract_candidates ms1 ch1 st
      = (st1, Ok (candidates st ++ flat_map (message_candidates ch1) ms1)) ∧
    extract_candidates ms2 ch2 st1
      = (st2, Ok (candidates st ++ flat_map (message_candidates ch1) ms1
                                ++ flat_map (message_candidates ch2) ms2)) ∧
    get_all_candidates st2
      = candidates st ++ flat_map (message_candidates ch1) ms1
                      ++ flat_map (message_candidates ch2) ms2.
Proof.
  intros H1 H2.
  exists (record_all (flat_map (message_candidates ch1) ms1) st).
  exists (record_all (flat_map (message_candidates ch2) ms2)
            (record_all (flat_map (message_candidates ch1) ms1) st)).
  rewrite (extract_candidates_spec ms1 ch1 st H1).
  rewrite (extract_candidates_spec ms2 ch2 _ H2). cbv zeta.
  unfold get_all_candidates.
  rewrite !record_all_candidates, <- !app_assoc. done.
Qed.

Lemma demo_corpus_has_text m : m ∈ demo_corpus → has_text m.
Proof.
  unfold demo_corpus. rewrite !elem_of_cons, elem_of_nil.
  intros [->|[->|[->|[->|[]]]]]; eexists; vm_compute; reflexivity.
Qed.

Lemma extract_candidates_accumulates_witness :
  (∀ m, m ∈ demo_corpus → has_text m) ∧
  ∃ st1 st2,
    extract_candidates demo_corpus "chan" init
      = (st1, Ok (candidates init ++ flat_map (message_candidates "chan") demo_corpus)) ∧
    extract_candidates demo_corpus "chan" st1
      = (st2, Ok (candidates init ++ flat_map (message_candidates "chan") demo_corpus
                                  ++ flat_map (message_candidates "chan") demo_corpus)) ∧
    get_all_candidates st2
      = candidates init ++ flat_map (message_candidates "chan") demo_corpus
                        ++ flat_map (message_candidates "chan") demo_corpus.
Proof.
  split; [exact demo_corpus_has_text|].
  exact (extract_candidates_accumulates demo_corpus "chan" demo_corpus "chan" init
           demo_corpus_has_text demo_corpus_has_text).
Defined.

(** X2. A message whose [text] is [None] stops [extract_candidates] with a
    [TypeError]: the candidates of the messages before it stay recorded in
    the extractor, and the messages after it are never looked at. *)
Theorem extract_candidates_null_text pre bad post channel_name st :
  (∀ m, m ∈ pre → has_text m) →
  bad !! "text" = Some VNone →
  extract_candidates (pre ++ bad :: post) channel_name st
  = (record_all (flat_map (message_candidates channel_name) pre) st,
     Raise (TypeError "expected string or bytes-like object, got 'NoneType'")).
Proof.
  intros Hpre Hbad. unfold extract_candidates, bind at 1.
  rewrite for_each_app. unfold bind at 1.
  rewrite (extract_loop_spec pre channel_name st Hpre).
  cbn [for_each]. unfold bind at 1, bind at 1, lift at 1.
  unfold get_or. rewrite Hbad. simpl. done.
Qed.

Definition demo_null : Message := {[ "ts" := VStr "9"; "text" := VNone ]}.

Lemma extract_candidates_null_text_witness :
  (∀ m, m ∈ [demo_anchor] → has_text m) ∧
  demo_null !! "text" = Some VNone ∧
  extract_candidates ([demo_anchor] ++ demo_null :: [demo_reply]) "chan" init
  = (record_all (flat_map (message_candidates "chan") [demo_anchor]) init,
     Raise (TypeError "expected string or bytes-like object, got 'NoneType'")).
Proof.
  assert (H : ∀ m, m ∈ [demo_anchor] → has_text m).
  { intros m Hm. apply demo_corpus_has_text. apply list_elem_of_singleton in Hm as ->.
    left. }
  assert (H' : demo_null !! "text" = Some VNone) by (vm_compute; reflexivity).
  split; [exact H|]. split; [exact H'|].
  exact (extract_candidates_null_text [demo_anchor] demo_null [demo_reply] "chan" init
           H H').
Defined.

(** X3. After [extract_candidates] on a new extractor, the look-up tables
    hold for each profile URL the last candidate extracted with it, while
    the list of candidates keeps them all: [get_candidate_associations]
    gives that last candidate as the anchor, with three empty lists, and
    [None] for a URL that no message linked. *)
Theorem get_candidate_associations_last messages channel_name url :
  (∀ m, m ∈ messages → has_text m) →
  let cs := flat_map (message_candidates channel_name) messages in
  ∃ st,
    extract_candidates messages channel_name init = (st, Ok cs) ∧
    get_all_candidates st = cs ∧
    od_get url (candidate_map st) = last_with_url url cs ∧
    get_candidate_associations url st
      = (λ c, mkBundle c [] [] []) <$> last_with_url url cs.
Proof.
  intros Htext cs. exists (record_all cs init).
  rewrite (extract_candidates_spec messages channel_name init Htext). cbv zeta.
  unfold get_all_candidates, get_candidate_associations.
  rewrite !record_all_candidates. simpl. fold cs.
  destruct (record_all_lookup cs init url) as [-> ->]. simpl.
  by destruct (last_with_url url cs).
Qed.

Definition demo_again : Message :=
  {[ "ts" := VStr "7";
     "text" := VStr "again <https://linkedin.com/in/jdoe|J. Doe>" ]}.

Lemma get_candidate_associations_last_witness :
  (∀ m, m ∈ [demo_anchor; demo_again] → has_text m) ∧
  let cs := flat_map (message_candidates "chan") [demo_anchor; demo_again] in
  ∃ st,
    extract_candidates [demo_anchor; demo_again] "chan" init = (st, Ok cs) ∧
    get_all_candidates st = cs ∧
    od_get demo_url (candidate_map st) = last_with_url demo_url cs ∧
    get_candidate_associations demo_url st
      = (λ c, mkBundle c [] [] []) <$> last_with_url demo_url cs.
Proof.
  assert (H : ∀ m, m ∈ [demo_anchor; demo_again] → has_text m).
  { intros m. rewrite !elem_of_cons, elem_of_nil.
    intros [->|[->|[]]]; eexists; vm_compute; reflexivity. }
  split; [exact H|].
  exact (get_candidate_associations_last [demo_anchor; demo_again] "chan" demo_url H).
Defined.

(** ** Which candidate a thread reply goes to *)

(** [thread_map] has, for an anchor id, the url of the last bundle with
    that id. *)
Lemma thread_map_fold_last (l : list (string * Bundle)) (tm0 : odict pyval string) k :
  od_get k (fold_left (λ tm uc, od_set (message_id (anchor (snd uc))) (fst uc) tm)
                      l tm0)
  = from_option (λ ub, Some (fst ub)) (od_get k tm0)
      (last (filter (λ ub, message_id (anchor (snd ub)) = k) l)).
Proof.
  induction l as [|x l IH] using rev_ind; [done|].
  rewrite fold_left_app, filter_app, filter_cons, filter_nil. simpl.
  destruct (decide (message_id (anchor x.2) = k)) as [<-|Hne].
  - rewrite last_snoc. simpl. by rewrite od_get_set_eq.
  - rewrite app_nil_r, od_get_set_ne by done. apply IH.
Qed.

Lemma thread_map_of_last (assoc : list (string * Bundle)) k :
  od_get k (thread_map_of assoc)
  = fst <$> last (filter (λ ub, message_id (anchor (snd ub)) = k) assoc).
Proof.
  unfold thread_map_of. rewrite thread_map_fold_last. simpl.
  by destruct (last _).
Qed.

Lemma filter_none {A} (f : A → bool) (l : list A) :
  (∀ x, x ∈ l → f x = false) → filter (λ x, f x) l = [].
Proof.
  induction l as [|x l IH]; intros Hf; [done|].
  rewrite filter_cons. destruct (decide _) as [Ht|_].
  { rewrite (Hf x) in Ht by left. done. }
  apply IH. intros y Hy. apply Hf. by right.
Qed.

Lemma add_threads_nil b : add_threads [] b = b.
Proof. destruct b. unfold add_threads. simpl. by rewrite app_nil_r. Qed.

(** The replies to the message [id] among [messages]: the messages with
    that [thread_ts] other than the thread's root. *)
Definition replies_to (id : pyval) (messages : list Message) : list Message :=
  filter (λ m, truthy (get m "thread_ts")
               && bool_decide (get m "thread_ts" = id)
               && negb (py_eqb (get m "ts") (get m "thread_ts"))) messages.

(** X4. When the anchor of the candidate under [url] is the only anchor
    with its message id, [associate_threads] appends to the candidate's
    [threads] exactly the messages whose [thread_ts] is that id and whose
    own [ts] differs from it, in the order of [messages]; it does not
    raise and leaves the anchor and the two other lists as they were. *)
Theorem associate_threads_files_replies messages st url b0 :
  NoDup (od_keys (associations st)) →
  od_get url (associations st) = Some b0 →
  (∀ u b, (u, b) ∈ associations st →
          message_id (anchor b) = message_id (anchor b0) → u = url) →
  ∃ st' b',
    associate_threads messages st = (st', Ok tt) ∧
    od_get url (associations st') = Some b' ∧
    anchor b' = anchor b0 ∧ direct b' = direct b0 ∧ fuzzy b' = fuzzy b0 ∧
    threads b' = threads b0 ++ replies_to (message_id (anchor b0)) messages.
Proof.
  intros Hnd Hb0 Huniq.
  destruct (associate_threads_spec messages st) as (st' & Hrun & _ & _ & _ & Hget).
  specialize (Hget url). rewrite Hb0 in Hget. simpl in Hget.
  eexists st', _. split; [done|]. split; [exact Hget|]. simpl.
  split; [done|]. split; [done|]. split; [done|]. f_equal.
  unfold replies_for, replies_to. apply list_filter_iff. intros m.
  unfold is_reply_for.
  assert (Hiff : od_get (get m "thread_ts") (thread_map_of (associations st)) = Some url
                 ↔ get m "thread_ts" = message_id (anchor b0)).
  { split.
    - intros Hk. destruct (thread_map_of_sound st Hnd _ _ Hk) as (b & Hb & Hid).
      rewrite Hb0 in Hb. by injection Hb as <-.
    - intros Hk. rewrite thread_map_of_last.
      destruct (last _) as [[u b]|] eqn:Hlast.
      + apply last_Some_elem_of, list_elem_of_filter in Hlast as [Hid Hin]. simpl in Hid.
        simpl. f_equal. apply (Huniq u b Hin). congruence.
      + exfalso. apply last_None in Hlast. apply od_get_elem in Hb0.
        pose proof (proj2 (list_elem_of_filter
                      (λ ub : string * Bundle,
                         message_id (anchor ub.2) = get m "thread_ts")
                      (associations st) (url, b0))) as Hin.
        rewrite Hlast in Hin. eapply elem_of_nil, Hin.
        split; [simpl; congruence | done]. }
  unfold od_mem. rewrite !andb_True, !bool_decide_spec. split.
  - intros [[[HT _] HN] Hk]. split; [split|]; [done | by apply Hiff | done].
  - intros [[HT Hk] HN]. apply Hiff in Hk.
    split; [split; [split|]|]; [done | by rewrite Hk | done | done].
Qed.

Lemma associate_threads_files_replies_witness :
  let st := fst (extract_candidates demo_corpus "chan" init) in
  NoDup (od_keys (associations st)) ∧
  od_get demo_url (associations st) = Some (mkBundle demo_candidate [] [] []) ∧
  ∃ st' b',
    associate_threads demo_corpus st = (st', Ok tt) ∧
    od_get demo_url (associations st') = Some b' ∧
    anchor b' = demo_candidate ∧ direct b' = [] ∧ fuzzy b' = [] ∧
    threads b' = [] ++ replies_to (VStr "1") demo_corpus.
Proof.
  intros st.
  assert (Hassoc : associations st = [(demo_url, mkBundle demo_candidate [] [] [])])
    by (vm_compute; reflexivity).
  assert (Hnd : NoDup (od_keys (associations st))).
  { rewrite Hassoc. simpl. apply NoDup_singleton. }
  assert (Hb0 : od_get demo_url (associations st)
                = Some (mkBundle demo_candidate [] [] []))
    by (vm_compute; reflexivity).
  assert (Huniq : ∀ u b, (u, b) ∈ associations st →
            message_id (anchor b)
            = message_id (anchor (mkBundle demo_candidate [] [] [])) → u = demo_url).
  { intros u b Hin _. rewrite Hassoc in Hin.
    apply list_elem_of_singleton in Hin. by injection Hin as -> _. }
  split; [exact Hnd|]. split; [exact Hb0|].
  exact (associate_threads_files_replies demo_corpus st demo_url
           (mkBundle demo_candidate [] [] []) Hnd Hb0 Huniq).
Defined.

(** X5. When two candidates are anchored to the same message id (two
    profile links in one message), [thread_map] keeps the later url only:
    [associate_threads] files nothing under the earlier candidate,
    whatever the messages are. *)
Theorem associate_threads_shared_anchor messages st l1 l2 u1 b1 u2 b2 :
  associations st = l1 ++ (u1, b1) :: l2 →
  NoDup (od_keys (associations st)) →
  (u2, b2) ∈ l2 →
  message_id (anchor b2) = message_id (anchor b1) →
  ∃ st',
    associate_threads messages st = (st', Ok tt) ∧
    od_get u1 (associations st') = Some b1.
Proof.
  intros Hassoc Hnd Hin Hid.
  destruct (associate_threads_spec messages st) as (st' & Hrun & _ & _ & _ & Hget).
  exists st'. split; [done|]. rewrite Hget.
  assert (Hb1 : od_get u1 (associations st) = Some b1).
  { apply od_elem_get; [done|]. rewrite Hassoc. apply elem_of_app. right. left. }
  rewrite Hb1. simpl. f_equal.
  rewrite <- (add_threads_nil b1) at 2. f_equal.
  unfold replies_for. apply filter_none. intros m _.
  unfold is_reply_for. apply andb_false_intro2. apply bool_decide_eq_false.
  intros Hk.
  destruct (thread_map_of_sound st Hnd _ _ Hk) as (b & Hb & Hidb).
  rewrite Hb1 in Hb. injection Hb as <-.
  rewrite thread_map_of_last, Hassoc, filter_app, filter_cons in Hk.
  rewrite decide_True in Hk by done.
  pose proof (proj2 (list_elem_of_filter
                (λ ub : string * Bundle,
                   message_id (anchor ub.2) = get m "thread_ts")
                l2 (u2, b2))) as Hin2.
  pose proof (list_elem_of_filter
                (λ ub : string * Bundle,
                   message_id (anchor ub.2) = get m "thread_ts") l2) as Hsub.
  destruct (filter _ l2) as [|x xs]; [eapply elem_of_nil, Hin2; split; [simpl; congruence | done]|].
  rewrite last_app_cons, last_cons_cons in Hk.
  destruct (last (x :: xs)) as [[u b]|] eqn:Hlast; [|done].
  simpl in Hk. injection Hk as ->.
  apply last_Some_elem_of in Hlast. apply Hsub in Hlast as [_ Hl2].
  rewrite Hassoc in Hnd. unfold od_keys in Hnd. rewrite map_app in Hnd. simpl in Hnd.
  apply NoDup_app in Hnd as (_ & _ & Hnd). apply NoDup_cons in Hnd as [Hnot _].
  apply Hnot. apply list_elem_of_fmap. by exists (u1, b).
Qed.

Definition demo_pair : Message :=
  {[ "ts" := VStr "1";
     "text" := VStr "<https://linkedin.com/in/ann|Ann> <https://linkedin.com/in/bob|Bob>" ]}.
Definition demo_ann : Candidate :=
  mkCandidate "Ann" "https://linkedin.com/in/ann" (VStr "1") (VStr "1") "chan" (VStr "")
    "<https://linkedin.com/in/ann|Ann> <https://linkedin.com/in/bob|Bob>".
Definition demo_bob : Candidate :=
  mkCandidate "Bob" "https://linkedin.com/in/bob" (VStr "1") (VStr "1") "chan" (VStr "")
    "<https://linkedin.com/in/ann|Ann> <https://linkedin.com/in/bob|Bob>".

Lemma associate_threads_shared_anchor_witness :
  let st := fst (extract_candidates [demo_pair] "chan" init) in
  associations st
    = [] ++ ("https://linkedin.com/in/ann", mkBundle demo_ann [] [] [])
         :: [("https://linkedin.com/in/bob", mkBundle demo_bob [] [] [])] ∧
  ∃ st',
    associate_threads [demo_pair; demo_reply] st = (st', Ok tt) ∧
    od_get "https://linkedin.com/in/ann" (associations st')
      = Some (mkBundle demo_ann [] [] []).
Proof.
  intros st.
  assert (Hassoc : associations st
    = [] ++ ("https://linkedin.com/in/ann", mkBundle demo_ann [] [] [])
         :: [("https://linkedin.com/in/bob", mkBundle demo_bob [] [] [])])
    by (vm_compute; reflexivity).
  assert (Hnd : NoDup (od_keys (associations st))).
  { rewrite Hassoc. simpl. apply NoDup_cons. split.
    - rewrite list_elem_of_singleton. discriminate.
    - apply NoDup_singleton. }
  assert (Hin : ("https://linkedin.com/in/bob", mkBundle demo_bob [] [] [])
                ∈ [("https://linkedin.com/in/bob", mkBundle demo_bob [] [] [])])
    by left.
  split; [exact Hassoc|].
  exact (associate_threads_shared_anchor [demo_pair; demo_reply] st _ _ _ _ _ _
           Hassoc Hnd Hin eq_refl).
Defined.

(** ** The two loops over every pair of a message and a candidate

    [associate_direct_mentions] and [associate_fuzzy] have the same
    shape: for each message, for each entry of [candidate_map], a test
    that may read the candidate's bundle, and an append of the message to
    one of the bundle's lists. *)

Lemma od_mem_alter {V} (f : V → V) (u k : string) (d : odict string V) :
  od_mem k (od_alter f u d) = od_mem k d.
Proof.
  unfold od_mem. destruct (decide (u = k)) as [->|Hne].
  - rewrite od_get_alter_eq. by destruct (od_get k d).
  - by rewrite od_get_alter_ne.
Qed.

Lemma forallb_pointwise {A} (f g : A → bool) (l : list A) :
  (∀ x, f x = g x) → forallb f l = forallb g l.
Proof. intros H. induction l as [|x l IH]; simpl; [done|]. by rewrite H, IH. Qed.

Section NestedLoop.
Variable add : Message → Bundle → Bundle.
Variable sel : Message → string * Candidate → Bundle → bool.
Variable body : Message → string * Candidate → M Extractor unit.

(** What the body of the inner loop does to a state in which the
    candidate has a bundle. *)
Definition body_ok (msg : Message) : Prop :=
  ∀ uc st b, od_get (fst uc) (associations st) = Some b →
    body msg uc st
    = (if sel msg uc b then alter_bundle (add msg) (fst uc) st else st, Ok tt).

Definition touch (msg : Message) (items : odict string Candidate) (url : string)
    (b : Bundle) : Bundle :=
  match od_get url items with
  | Some c => if sel msg (url, c) b then add msg b else b
  | None => b
  end.

Lemma items_spec msg (items : odict string Candidate) :
  body_ok msg →
  NoDup (od_keys items) →
  ∀ st,
    forallb (λ uc, od_mem (fst uc) (associations st)) items = true →
    ∃ st',
      for_each items (body msg) st = (st', Ok tt) ∧
      candidates st' = candidates st ∧
      candidate_map st' = candidate_map st ∧
      ∀ url, od_get url (associations st')
             = touch msg items url <$> od_get url (associations st).
Proof.
  intros Hbody. induction items as [|[u c] items IH]; intros Hnd st Hlinked.
  - exists st. simpl. split; [done|]. split; [done|]. split; [done|].
    intros url. unfold touch. simpl. by destruct (od_get url (associations st)).
  - simpl in Hnd. apply NoDup_cons in Hnd as [Hu Hnd].
    simpl in Hlinked. apply andb_prop in Hlinked as [Hmem Hl].
    unfold od_mem in Hmem.
    destruct (od_get u (associations st)) as [b|] eqn:Hb; [|done].
    cbn [for_each]. unfold bind at 1. rewrite (Hbody (u, c) st b Hb).
    cbn [fst snd].
    apply od_get_None in Hu.
    destruct (sel msg (u, c) b) eqn:Hsel.
    + destruct (IH Hnd (alter_bundle (add msg) u st)) as (st' & Hrun & Hc1 & Hc2 & Hget).
      { rewrite <- Hl. apply forallb_pointwise. intros uc. simpl. apply od_mem_alter. }
      exists st'. split; [done|]. split; [done|]. split; [done|].
      intros url. rewrite Hget. unfold touch. simpl.
      destruct (decide (url = u)) as [->|Hne].
      * rewrite od_get_alter_eq, Hb, Hu. simpl. by rewrite Hsel.
      * rewrite od_get_alter_ne by done. done.
    + destruct (IH Hnd st Hl) as (st' & Hrun & Hc1 & Hc2 & Hget).
      exists st'. split; [done|]. split; [done|]. split; [done|].
      intros url. rewrite Hget. unfold touch. simpl.
      destruct (decide (url = u)) as [->|Hne]; [|done].
      rewrite Hb, Hu. simpl. by rewrite Hsel.
Qed.

(** The messages that the loops append to the bundle [b] of [url]. *)
Definition selected (items : odict string Candidate) (url : string) (b : Bundle)
    (messages : list Message) : list Message :=
  filter (λ m, from_option (λ c, sel m (url, c) b) false (od_get url items))
         messages.

Definition add_all (msgs : list Message) (b : Bundle) : Bundle :=
  fold_left (λ b m, add m b) msgs b.

Hypothesis sel_add : ∀ m m' uc b, sel m uc (add m' b) = sel m uc b.

Lemma nested_spec messages :
  (∀ m, m ∈ messages → body_ok m) →
  ∀ st,
    NoDup (od_keys (candidate_map st)) →
    linked st = true →
    ∃ st',
      for_each messages (λ msg,
        bind (gets candidate_map) (λ items, for_each items (body msg))) st
        = (st', Ok tt) ∧
      candidates st' = candidates st ∧
      candidate_map st' = candidate_map st ∧
      ∀ url, od_get url (associations st')
             = (λ b, add_all (selected (candidate_map st) url b messages) b)
                 <$> od_get url (associations st).
Proof.
  induction messages as [|msg messages IH]; intros Hbody st Hnd Hlinked.
  - exists st. simpl. split; [done|]. split; [done|]. split; [done|].
    intros url. by destruct (od_get url (associations st)).
  - cbn [for_each]. unfold bind at 1, bind at 1, gets.
    destruct (items_spec msg (candidate_map st) (Hbody msg ltac:(left)) Hnd st Hlinked)
      as (st1 & Hrun1 & Hc1 & Hc2 & Hget1).
    rewrite Hrun1.
    destruct (IH (λ m Hm, Hbody m ltac:(by right)) st1) as (st' & Hrun & Hc1' & Hc2' & Hget).
    { by rewrite Hc2. }
    { unfold linked. rewrite Hc2. unfold linked in Hlinked.
      rewrite <- Hlinked. apply forallb_pointwise. intros uc.
      unfold od_mem. rewrite Hget1. by destruct (od_get uc.1 (associations st)). }
    exists st'. split; [done|]. split; [congruence|]. split; [congruence|].
    intros url. rewrite Hget, Hget1, Hc2.
    destruct (od_get url (associations st)) as [b|]; [|done]. simpl. f_equal.
    unfold touch, selected. rewrite filter_cons.
    destruct (od_get url (candidate_map st)) as [c|] eqn:Hc.
    + simpl. destruct (sel msg (url, c) b) eqn:Hsel; simpl; [|done].
      unfold add_all. simpl. f_equal.
      apply list_filter_iff. intros m. simpl. by rewrite sel_add.
    + done.
Qed.

End NestedLoop.

(** *** Direct mentions *)

(** The test of [associate_direct_mentions] on a message and a
    candidate: the text has the url or, with the letter case ignored, the
    name; the message is not the anchor (by [id]); and it is not a
    message of the anchor's thread. *)
Definition direct_sel (msg : Message) (uc : string * Candidate) : bool :=
  match get_or msg "text" (VStr "") with
  | VStr t =>
      (contains (fst uc) t || contains (lower (name (snd uc))) (lower t))
      && negb (py_eqb (get msg "id") (message_id (snd uc)))
      && (negb (truthy (get msg "thread_ts"))
          || negb (py_eqb (get msg "thread_ts") (message_id (snd uc))))
  | VNone => false
  end.

Lemma direct_item_ok msg :
  has_text msg → body_ok add_direct (λ m uc _, direct_sel m uc) direct_item msg.
Proof.
  intros [t Ht] uc st b Hb. unfold direct_item, direct_sel, bind, lift, mentions.
  rewrite Ht.
  destruct (contains uc.1 t || contains (lower (name uc.2)) (lower t)); simpl; [|done].
  destruct (py_eqb (get msg "id") (message_id uc.2)); simpl; [done|].
  destruct (negb (truthy (get msg "thread_ts"))
            || negb (py_eqb (get msg "thread_ts") (message_id uc.2))); simpl; [|done].
  rewrite bundle_append_eq, Hb. done.
Qed.

Lemma add_all_direct msgs b :
  add_all add_direct msgs b
  = mkBundle (anchor b) (threads b) (direct b ++ msgs) (fuzzy b).
Proof.
  revert b. induction msgs as [|m msgs IH]; intros b.
  - destruct b. unfold add_all. simpl. by rewrite app_nil_r.
  - unfold add_all in *. simpl. rewrite IH. simpl. by rewrite <- app_assoc.
Qed.

(** X6. What [associate_direct_mentions] does, as one equation. On
    messages whose text is a string, and an extractor in which every url
    of [candidate_map] has a bundle, the call does not raise and appends
    to the [direct] list of each candidate the messages that mention the
    url or (ignoring letter case) the name, whose [id] is not the
    anchor's message id and which are not in the anchor's thread, in the
    order of [messages] and as often as they occur there; nothing else
    changes. *)
Theorem associate_direct_mentions_appends messages st :
  (∀ m, m ∈ messages → has_text m) →
  NoDup (od_keys (candidate_map st)) →
  linked st = true →
  ∃ st',
    associate_direct_mentions messages st = (st', Ok tt) ∧
    candidates st' = candidates st ∧
    candidate_map st' = candidate_map st ∧
    ∀ url,
      od_get url (associations st')
      = (λ b, mkBundle (anchor b) (threads b)
                (direct b ++
                 filter (λ m, from_option (λ c, direct_sel m (url, c)) false
                                          (od_get url (candidate_map st)))
                        messages)
                (fuzzy b))
          <$> od_get url (associations st).
Proof.
  intros Htext Hnd Hlinked.
  destruct (nested_spec add_direct (λ m uc _, direct_sel m uc) direct_item
              (λ _ _ _ _, eq_refl) messages
              (λ m Hm, direct_item_ok m (Htext m Hm)) st Hnd Hlinked)
    as (st' & Hrun & Hc1 & Hc2 & Hget).
  exists st'. split; [exact Hrun|]. split; [done|]. split; [done|].
  intros url. rewrite Hget.
  destruct (od_get url (associations st)) as [b|]; [|done]. simpl.
  by rewrite add_all_direct.
Qed.

Lemma associate_direct_mentions_appends_witness :
  let st := fst (extract_candidates demo_corpus "chan" init) in
  (∀ m, m ∈ demo_corpus → has_text m) ∧
  NoDup (od_keys (candidate_map st)) ∧
  linked st = true ∧
  ∃ st',
    associate_direct_mentions demo_corpus st = (st', Ok tt) ∧
    candidates st' = candidates st ∧
    candidate_map st' = candidate_map st ∧
    ∀ url,
      od_get url (associations st')
      = (λ b, mkBundle (anchor b) (threads b)
                (direct b ++
                 filter (λ m, from_option (λ c, direct_sel m (url, c)) false
                                          (od_get url (candidate_map st)))
                        demo_corpus)
                (fuzzy b))
          <$> od_get url (associations st).
Proof.
  intros st.
  assert (Hnd : NoDup (od_keys (candidate_map st))).
  { replace (od_keys (candidate_map st)) with [demo_url] by (vm_compute; reflexivity).
    apply NoDup_singleton. }
  assert (Hl : linked st = true) by (vm_compute; reflexivity).
  split; [exact demo_corpus_has_text|]. split; [exact Hnd|]. split; [exact Hl|].
  exact (associate_direct_mentions_appends demo_corpus st demo_corpus_has_text Hnd Hl).
Defined.

(** *** Fuzzy matches *)

(** The body of the inner loop of [associate_fuzzy]. *)
Definition fuzzy_item (rag_backend : Backend) (channel_name : string)
    (msg : Message) (uc : string * Candidate) : M Extractor unit :=
  bind (gets_res (λ st, od_index (fst uc) (associations st))) (λ b,
    if msg_in msg (threads b) || msg_in msg (direct b)
       || py_eqb (get msg "id") (message_id (snd uc))
    then ret tt
    else
      bind (lift (rag_backend (get_or msg "text" (VStr "")) 3 channel_name))
           (λ top_docs,
              if contains (name (snd uc)) (join "" top_docs)
              then bundle_append add_fuzzy (fst uc) msg
              else ret tt)).

(** The test of [associate_fuzzy] on a message, a candidate and her
    bundle: the message is in neither [threads] nor [direct], its [id] is
    not the anchor's message id, and the name occurs, letter for letter,
    in the documents the backend finds for the message's text. *)
Definition fuzzy_sel (rag_backend : Backend) (channel_name : string)
    (msg : Message) (uc : string * Candidate) (b : Bundle) : bool :=
  negb (msg_in msg (threads b) || msg_in msg (direct b)
        || py_eqb (get msg "id") (message_id (snd uc)))
  && match rag_backend (get_or msg "text" (VStr "")) 3 channel_name with
     | Ok top_docs => contains (name (snd uc)) (join "" top_docs)
     | Raise _ => false
     end.

Lemma fuzzy_item_ok (rag_backend : Backend) (channel_name : string) msg docs :
  rag_backend (get_or msg "text" (VStr "")) 3 channel_name = Ok docs →
  body_ok add_fuzzy (fuzzy_sel rag_backend channel_name)
          (fuzzy_item rag_backend channel_name) msg.
Proof.
  intros Hdocs uc st b Hb. unfold fuzzy_item, fuzzy_sel, bind at 1, gets_res, od_index.
  rewrite Hb, Hdocs.
  destruct (msg_in msg (threads b) || msg_in msg (direct b)
            || py_eqb (get msg "id") (message_id uc.2)); simpl; [done|].
  unfold bind, lift.
  destruct (contains (name uc.2) (join "" docs)); [|done].
  rewrite bundle_append_eq, Hb. done.
Qed.

Lemma add_all_fuzzy msgs b :
  add_all add_fuzzy msgs b
  = mkBundle (anchor b) (threads b) (direct b) (fuzzy b ++ msgs).
Proof.
  revert b. induction msgs as [|m msgs IH]; intros b.
  - destruct b. unfold add_all. simpl. by rewrite app_nil_r.
  - unfold add_all in *. simpl. rewrite IH. simpl. by rewrite <- app_assoc.
Qed.

(** X7. What [associate_fuzzy] does when the backend answers every
    message: it does not raise, and appends to the [fuzzy] list of each
    candidate the messages that are in neither [threads] nor [direct] of
    that candidate, whose [id] is not the anchor's message id, and for
    which the candidate's name occurs in the concatenation of the
    documents found for the message's text; in the order of [messages],
    and as often as they occur there (the [fuzzy] list itself is not
    consulted). [threads], [direct] and the anchor are left as they
    were. *)
Theorem associate_fuzzy_appends messages (rag_backend : Backend)
    (channel_name : string) st :
  (∀ m, m ∈ messages →
     ∃ docs, rag_backend (get_or m "text" (VStr "")) 3 channel_name = Ok docs) →
  NoDup (od_keys (candidate_map st)) →
  linked st = true →
  ∃ st',
    associate_fuzzy messages rag_backend channel_name st = (st', Ok tt) ∧
    candidates st' = candidates st ∧
    candidate_map st' = candidate_map st ∧
    ∀ url,
      od_get url (associations st')
      = (λ b, mkBundle (anchor b) (threads b) (direct b)
                (fuzzy b ++
                 filter (λ m, from_option
                                (λ c, fuzzy_sel rag_backend channel_name m (url, c) b)
                                false (od_get url (candidate_map st)))
                        messages))
          <$> od_get url (associations st).
Proof.
  intros Hdocs Hnd Hlinked.
  destruct (nested_spec add_fuzzy (fuzzy_sel rag_backend channel_name)
              (fuzzy_item rag_backend channel_name)
              (λ _ _ _ _, eq_refl) messages) with (st := st)
    as (st' & Hrun & Hc1 & Hc2 & Hget); [|done|done|].
  { intros m Hm. destruct (Hdocs m Hm) as [docs Hd]. by eapply fuzzy_item_ok. }
  exists st'. split; [exact Hrun|]. split; [done|]. split; [done|].
  intros url. rewrite Hget.
  destruct (od_get url (associations st)) as [b|]; [|done]. simpl.
  by rewrite add_all_fuzzy.
Qed.

Lemma associate_fuzzy_appends_witness :
  (∀ m, m ∈ demo_corpus →
     ∃ docs, demo_backend (get_or m "text" (VStr "")) 3 "chan" = Ok docs) ∧
  NoDup (od_keys (candidate_map demo_classified)) ∧
  linked demo_classified = true ∧
  ∃ st',
    associate_fuzzy demo_corpus demo_backend "chan" demo_classified = (st', Ok tt) ∧
    candidates st' = candidates demo_classified ∧
    candidate_map st' = candidate_map demo_classified ∧
    ∀ url,
      od_get url (associations st')
      = (λ b, mkBundle (anchor b) (threads b) (direct b)
                (fuzzy b ++
                 filter (λ m, from_option
                                (λ c, fuzzy_sel demo_backend "chan" m (url, c) b)
                                false (od_get url (candidate_map demo_classified)))
                        demo_corpus))
          <$> od_get url (associations demo_classified).
Proof.
  assert (Hd : ∀ m, m ∈ demo_corpus →
     ∃ docs, demo_backend (get_or m "text" (VStr "")) 3 "chan" = Ok docs).
  { intros m _. by exists ["Jane Doe is great"]. }
  assert (Hnd : NoDup (od_keys (candidate_map demo_classified))).
  { replace (od_keys (candidate_map demo_classified)) with [demo_url]
      by (vm_compute; reflexivity).
    apply NoDup_singleton. }
  assert (Hl : linked demo_classified = true) by (vm_compute; reflexivity).
  split; [exact Hd|]. split; [exact Hnd|]. split; [exact Hl|].
  exact (associate_fuzzy_appends demo_corpus demo_backend "chan" demo_classified
           Hd Hnd Hl).
Defined.

(** *** A candidate whose label is blank *)

Lemma contains_la_nil hay : contains_la [] hay = true.
Proof. by destruct hay. Qed.

(** X8. The name is the stripped label of the link, so a label of blanks
    gives the empty name, and the empty string occurs in every text: for
    such a candidate [associate_direct_mentions] files every message
    whose text is a string, whether it mentions her or not, unless the
    message's [id] is the anchor's message id or the message is in the
    anchor's thread. *)
Theorem blank_name_mentioned_everywhere messages st url c msg :
  (∀ m, m ∈ messages → has_text m) →
  NoDup (od_keys (candidate_map st)) →
  linked st = true →
  od_get url (candidate_map st) = Some c →
  name c = "" →
  msg ∈ messages →
  py_eqb (get msg "id") (message_id c) = false →
  negb (truthy (get msg "thread_ts"))
  || negb (py_eqb (get msg "thread_ts") (message_id c)) = true →
  ∃ st' b',
    associate_direct_mentions messages st = (st', Ok tt) ∧
    od_get url (associations st') = Some b' ∧
    msg ∈ direct b'.
Proof.
  intros Htext Hnd Hlinked Hc Hname Hmsg Hid Hth.
  destruct (nested_spec add_direct (λ m uc _, direct_sel m uc) direct_item
              (λ _ _ _ _, eq_refl) messages
              (λ m Hm, direct_item_ok m (Htext m Hm)) st Hnd Hlinked)
    as (st' & Hrun & _ & _ & Hget).
  assert (Hb : ∃ b, od_get url (associations st) = Some b).
  { unfold linked in Hlinked. rewrite forallb_forall in Hlinked.
    apply od_get_elem, list_elem_of_In, Hlinked in Hc. simpl in Hc.
    unfold od_mem in Hc. destruct (od_get url (associations st)); [by eexists | done]. }
  destruct Hb as [b Hb].
  eexists st', _. split; [exact Hrun|]. split.
  { rewrite Hget, Hb. reflexivity. }
  rewrite add_all_direct. simpl. apply elem_of_app. right.
  apply list_elem_of_filter. split; [|done].
  rewrite Hc. simpl. unfold direct_sel. destruct (Htext msg Hmsg) as [t Ht].
  rewrite Ht. simpl. rewrite Hname, Hid, Hth.
  unfold contains at 2. change (la (lower "")) with (@nil ascii).
  rewrite contains_la_nil, orb_true_r. done.
Qed.

Definition demo_blank : Message :=
  {[ "ts" := VStr "1"; "text" := VStr "<https://linkedin.com/in/zed| >" ]}.

Lemma blank_name_mentioned_everywhere_witness :
  let st := fst (extract_candidates [demo_blank] "chan" init) in
  od_get "https://linkedin.com/in/zed" (candidate_map st)
    = Some (mkCandidate "" "https://linkedin.com/in/zed" (VStr "1") (VStr "1")
                        "chan" (VStr "") "<https://linkedin.com/in/zed| >") ∧
  ∃ st' b',
    associate_direct_mentions [demo_blank; demo_other] st = (st', Ok tt) ∧
    od_get "https://linkedin.com/in/zed" (associations st') = Some b' ∧
    demo_other ∈ direct b'.
Proof.
  intros st.
  assert (Htext : ∀ m, m ∈ [demo_blank; demo_other] → has_text m).
  { intros m. rewrite !elem_of_cons, elem_of_nil.
    intros [->|[->|[]]]; eexists; vm_compute; reflexivity. }
  assert (Hnd : NoDup (od_keys (candidate_map st))).
  { replace (od_keys (candidate_map st)) with ["https://linkedin.com/in/zed"]
      by (vm_compute; reflexivity).
    apply NoDup_singleton. }
  assert (Hl : linked st = true) by (vm_compute; reflexivity).
  assert (Hc : od_get "https://linkedin.com/in/zed" (candidate_map st)
    = Some (mkCandidate "" "https://linkedin.com/in/zed" (VStr "1") (VStr "1")
                        "chan" (VStr "") "<https://linkedin.com/in/zed| >"))
    by (vm_compute; reflexivity).
  assert (Hin : demo_other ∈ [demo_blank; demo_other]) by (right; left).
  split; [exact Hc|].
  exact (blank_name_mentioned_everywhere [demo_blank; demo_other] st _ _ demo_other
           Htext Hnd Hl Hc eq_refl Hin eq_refl eq_refl).
Defined.

(** *** The judge's answer *)

Lemma la_app a b : la (a +:+ b) = la a ++ la b.
Proof.
  unfold la. induction a as [|c a IH]; simpl; [done|]. by rewrite IH.
Qed.

Lemma la_lower s : la (lower s) = map lower_ascii (la s).
Proof. unfold lower. apply la_of_la. Qed.

(** X9. [llm_judge_fn] looks for the letters "yes" anywhere in the
    answer, in any letter case: an answer that has them, be it inside
    another word or after a "NO", counts as a yes. *)
Theorem llm_judge_fn_yes_anywhere message candidate (ask : string → res string)
    before y after :
  lower y = "yes" →
  ask (llm_judge_prompt message candidate) = Ok (before +:+ y +:+ after) →
  llm_judge_fn message candidate ask = Ok true.
Proof.
  intros Hy Hask. unfold llm_judge_fn. rewrite Hask. f_equal.
  assert (Hly : map lower_ascii (la y) = la "yes") by (by rewrite <- la_lower, Hy).
  unfold contains. rewrite la_lower, !la_app, !map_app, Hly.
  apply contains_la_infix. by eexists _, _.
Qed.

Lemma llm_judge_fn_yes_anywhere_witness :
  lower "Yes" = "yes" ∧
  llm_judge_fn demo_other demo_candidate (λ _, Ok ("NO. " +:+ "Yes" +:+ "terday's note"))
    = Ok true.
Proof.
  split; [reflexivity|].
  exact (llm_judge_fn_yes_anywhere demo_other demo_candidate
           (λ _, Ok ("NO. " +:+ "Yes" +:+ "terday's note")) "NO. " "Yes" "terday's note"
           eq_refl eq_refl).
Defined.

(** ** The judge, call by call *)

(** The pairs of a message and a candidate, in the order the two loops
    of [associate_fuzzy] visit them. *)
Definition pairs_of (items : odict string Candidate) (messages : list Message)
    : list (Message * (string * Candidate)) :=
  flat_map (λ msg, map (λ uc, (msg, uc)) items) messages.

Lemma for_each_map {St X Y} (f : X → Y) (xs : list X) (body : Y → M St unit) s :
  for_each (map f xs) body s = for_each xs (λ x, body (f x)) s.
Proof.
  revert s. induction xs as [|x xs IH]; intros s; [done|].
  simpl. unfold bind. destruct (body (f x) s) as [s' [[]|e]]; [|done]. apply IH.
Qed.

Lemma fuzzy_pair_candidate_map (rag_backend : CallBackend) channel_name msg uc s :
  candidate_map (fst (fst (fuzzy_pair rag_backend channel_name msg uc s)))
  = candidate_map (fst s).
Proof.
  unfold fuzzy_pair, bind at 1, gets_res.
  destruct (od_index uc.1 (associations s.1)) as [b|e]; [|done].
  destruct (msg_in msg (threads b) || msg_in msg (direct b)
            || py_eqb (get msg "id") (message_id uc.2)); [done|].
  unfold bind, semantic_search_call. simpl.
  destruct (rag_backend s.2 (get_or msg "text" (VStr "")) 3 channel_name)
    as [docs|e]; [|done].
  destruct (contains (name uc.2) (join "" docs)); [|done].
  unfold fuzzy_append. simpl. rewrite bundle_append_eq.
  by destruct (od_get uc.1 (associations s.1)).
Qed.

Lemma fuzzy_pairs_candidate_map (rag_backend : CallBackend) channel_name
    (ps : list (Message * (string * Candidate))) s :
  candidate_map
    (fst (fst (for_each ps (λ p, fuzzy_pair rag_backend channel_name p.1 p.2) s)))
  = candidate_map (fst s).
Proof.
  revert s. induction ps as [|p ps IH]; intros s; [done|].
  simpl. unfold bind.
  pose proof (fuzzy_pair_candidate_map rag_backend channel_name p.1 p.2 s) as Hp.
  destruct (fuzzy_pair rag_backend channel_name p.1 p.2 s) as [s' [[]|e]];
    simpl in *; [|done].
  by rewrite IH.
Qed.

(** The two nested loops are one loop over the pairs. *)
Lemma associate_fuzzy_calls_pairs messages (rag_backend : CallBackend)
    channel_name s :
  associate_fuzzy_calls messages rag_backend channel_name s
  = for_each (pairs_of (candidate_map (fst s)) messages)
             (λ p, fuzzy_pair rag_backend channel_name p.1 p.2) s.
Proof.
  unfold associate_fuzzy_calls, pairs_of.
  revert s. induction messages as [|msg messages IH]; intros s; [done|].
  cbn [for_each flat_map]. rewrite for_each_app.
  unfold bind at 1, bind at 1, gets. unfold bind at 2. rewrite for_each_map.
  cbn [fst snd].
  pose proof (fuzzy_pairs_candidate_map rag_backend channel_name
                (map (λ uc, (msg, uc)) (candidate_map s.1)) s) as Hcm.
  rewrite for_each_map in Hcm. cbn [fst snd] in Hcm.
  destruct (for_each (candidate_map s.1)
              (λ x, fuzzy_pair rag_backend channel_name msg x) s)
    as [s' [[]|e]]; [|done].
  cbn [fst] in Hcm. rewrite IH, Hcm. done.
Qed.

(** For a backend without a memory the run is the one of
    [associate_fuzzy]. *)
Lemma fuzzy_pair_constant (rag_backend : Backend) channel_name msg uc st k :
  ∃ k',
    fuzzy_pair (λ _, rag_backend) channel_name msg uc (st, k)
    = ((fst (fuzzy_item rag_backend channel_name msg uc st), k'),
       snd (fuzzy_item rag_backend channel_name msg uc st)).
Proof.
  unfold fuzzy_pair, fuzzy_item, bind, gets_res, semantic_search_call, lift,
    fuzzy_append, ret.
  cbn [fst snd].
  destruct (od_index uc.1 (associations st)) as [b|e]; [|by eexists].
  destruct (msg_in msg (threads b) || msg_in msg (direct b)
            || py_eqb (get msg "id") (message_id uc.2)); [by eexists|].
  destruct (rag_backend (get_or msg "text" (VStr "")) 3 channel_name)
    as [docs|e]; [|by eexists].
  destruct (contains (name uc.2) (join "" docs)); [|by eexists].
  cbn [fst snd].
  destruct (bundle_append add_fuzzy uc.1 msg st) as [st' r]. by eexists.
Qed.

Lemma associate_fuzzy_calls_constant messages (rag_backend : Backend)
    channel_name st k :
  ∃ k',
    associate_fuzzy_calls messages (λ _, rag_backend) channel_name (st, k)
    = ((fst (associate_fuzzy messages rag_backend channel_name st), k'),
       snd (associate_fuzzy messages rag_backend channel_name st)).
Proof.
  assert (Hitems : ∀ msg items st k,
    ∃ k',
      for_each items (fuzzy_pair (λ _, rag_backend) channel_name msg) (st, k)
      = ((fst (for_each items (fuzzy_item rag_backend channel_name msg) st), k'),
         snd (for_each items (fuzzy_item rag_backend channel_name msg) st))).
  { intros msg items. induction items as [|uc items IH]; intros st0 k0;
      [by eexists|].
    cbn [for_each]. unfold bind.
    destruct (fuzzy_pair_constant rag_backend channel_name msg uc st0 k0)
      as [k1 ->].
    destruct (fuzzy_item rag_backend channel_name msg uc st0) as [st1 [[]|e]];
      cbn [fst snd]; [apply IH | by eexists]. }
  rewrite associate_fuzzy_unfold. unfold associate_fuzzy_calls.
  revert st k. induction messages as [|msg messages IH]; intros st k;
    [by eexists|].
  assert (Hpure :
    for_each (msg :: messages) (fuzzy_message rag_backend channel_name) st
    = match for_each (candidate_map st) (fuzzy_item rag_backend channel_name msg) st
      with
      | (st1, Ok _) => for_each messages (fuzzy_message rag_backend channel_name) st1
      | (st1, Raise e) => (st1, Raise e)
      end) by reflexivity.
  assert (Hcalls :
    for_each (msg :: messages)
      (λ msg, bind (gets (λ s : Extractor * nat, candidate_map s.1))
                (λ items,
                   for_each items (fuzzy_pair (λ _, rag_backend) channel_name msg)))
      (st, k)
    = match for_each (candidate_map st)
              (fuzzy_pair (λ _, rag_backend) channel_name msg) (st, k)
      with
      | (s1, Ok _) =>
          for_each messages
            (λ msg, bind (gets (λ s : Extractor * nat, candidate_map s.1))
                      (λ items,
                         for_each items
                           (fuzzy_pair (λ _, rag_backend) channel_name msg)))
            s1
      | (s1, Raise e) => (s1, Raise e)
      end) by reflexivity.
  rewrite Hpure, Hcalls.
  destruct (Hitems msg (candidate_map st) st k) as [k1 ->].
  destruct (for_each (candidate_map st) (fuzzy_item rag_backend channel_name msg) st)
    as [st1 [[]|e]]; cbn [fst snd]; [apply IH | by eexists].
Qed.

(** C3, as the code has it. The judge is called once for each pair that
    [associate_fuzzy] examines, and nothing catches what it raises. Take
    the run pair by pair: when the pairs before [(msg, uc)] have been
    dealt with, leaving the extractor [fst s1] after [snd s1] calls, the
    pair is examined there, and the judge raises [e] at this call, then
    [associate_fuzzy] ends with [e]. The extractor is left as the earlier
    pairs left it, with what they appended, and the failing call is the
    last one made: no later pair is examined, be it another candidate for
    the same message or a later message. *)
Theorem associate_fuzzy_judge_error_ends_run messages (rag_backend : CallBackend)
    channel_name s pre msg uc post s1 e :
  pairs_of (candidate_map (fst s)) messages = pre ++ (msg, uc) :: post →
  for_each pre (λ p, fuzzy_pair rag_backend channel_name p.1 p.2) s = (s1, Ok tt) →
  examined (fst s1) msg uc = true →
  rag_backend (snd s1) (get_or msg "text" (VStr "")) 3 channel_name = Raise e →
  associate_fuzzy_calls messages rag_backend channel_name s
  = ((fst s1, S (snd s1)), Raise e).
Proof.
  intros Hpairs Hpre Hex He.
  rewrite associate_fuzzy_calls_pairs, Hpairs, for_each_app.
  unfold bind at 1. rewrite Hpre. cbn [for_each]. unfold bind at 1.
  unfold fuzzy_pair, bind at 1, gets_res. cbn [fst snd].
  unfold examined in Hex. unfold od_index.
  destruct (od_get uc.1 (associations s1.1)) as [b|]; [|done].
  apply negb_true_iff in Hex. rewrite Hex.
  unfold bind at 1, semantic_search_call. cbn [fst snd]. by rewrite He.
Qed.

(** Two candidates linked in one message, a later message, and a backend
    that answers its first call and fails from the second on, whatever it
    is asked. *)
Definition demo_remark : Message :=
  {[ "ts" := VStr "6"; "text" := VStr "worth a call" ]}.
Definition demo_pair_corpus : list Message := [demo_pair; demo_late; demo_remark].
Definition demo_pair_classified : Extractor :=
  fst ((extract_candidates demo_pair_corpus "chan" ;;
        associate_threads demo_pair_corpus ;;
        associate_direct_mentions demo_pair_corpus)%eff init).
Definition tiring_backend : CallBackend :=
  λ k _ _ _,
    match k with
    | O => Ok ["Ann is great"]
    | S _ => Raise (Exn "RuntimeError" "collection unavailable")
    end.

Lemma associate_fuzzy_judge_error_ends_run_witness :
  let ann := ("https://linkedin.com/in/ann", demo_ann) in
  let bob := ("https://linkedin.com/in/bob", demo_bob) in
  let s1 := (alter_bundle (add_fuzzy demo_late) "https://linkedin.com/in/ann"
                          demo_pair_classified, 1%nat) in
  pairs_of (candidate_map demo_pair_classified) demo_pair_corpus
    = [(demo_pair, ann); (demo_pair, bob); (demo_late, ann)]
      ++ (demo_late, bob) :: [(demo_remark, ann); (demo_remark, bob)] ∧
  for_each [(demo_pair, ann); (demo_pair, bob); (demo_late, ann)]
           (λ p, fuzzy_pair tiring_backend "chan" p.1 p.2)
           (demo_pair_classified, 0%nat) = (s1, Ok tt) ∧
  examined (fst s1) demo_late bob = true ∧
  tiring_backend (snd s1) (get_or demo_late "text" (VStr "")) 3 "chan"
    = Raise (Exn "RuntimeError" "collection unavailable") ∧
  associate_fuzzy_calls demo_pair_corpus tiring_backend "chan"
                        (demo_pair_classified, 0%nat)
  = ((fst s1, S (snd s1)), Raise (Exn "RuntimeError" "collection unavailable")).
Proof.
  intros ann bob s1.
  assert (H1 : pairs_of (candidate_map (fst (demo_pair_classified, 0%nat)))
                        demo_pair_corpus
    = [(demo_pair, ann); (demo_pair, bob); (demo_late, ann)]
      ++ (demo_late, bob) :: [(demo_remark, ann); (demo_remark, bob)])
    by (vm_compute; reflexivity).
  assert (H2 : for_each [(demo_pair, ann); (demo_pair, bob); (demo_late, ann)]
           (λ p, fuzzy_pair tiring_backend "chan" p.1 p.2)
           (demo_pair_classified, 0%nat) = (s1, Ok tt))
    by (vm_compute; reflexivity).
  assert (H3 : examined (fst s1) demo_late bob = true) by (vm_compute; reflexivity).
  assert (H4 : tiring_backend (snd s1) (get_or demo_late "text" (VStr "")) 3 "chan"
    = Raise (Exn "RuntimeError" "collection unavailable")) by reflexivity.
  split; [exact H1|]. split; [exact H2|]. split; [exact H3|]. split; [exact H4|].
  exact (associate_fuzzy_judge_error_ends_run demo_pair_corpus tiring_backend "chan"
           (demo_pair_classified, 0%nat) _ demo_late bob _ s1 _ H1 H2 H3 H4).
Defined.

End ExtractorFacts.

(** ** Query rewriting and the context builders *)

Module RagFacts.
Import Py Re Eff Extractor Rag PyFacts.

(** *** Query rewriting *)

(** When the client is there and the optimizer call raises [e],
    [semantic_search] queries the collection with the text that
    [optimize_query_with_claude] returns for the error, not with the
    query it was given. *)
Lemma optimizer_error_text_is_searched c query n channel start_date end_date e :
  anthropic_client c = Ok tt →
  messages_create c optimizer_system_prompt
    ("Optimize the following query for better search results: " +:+ py_str query)
    = Raise e →
  semantic_search c query n channel start_date end_date =
  and_then
    (collection_query c ["[ERROR] Claude API error: " +:+ exn_str e] n
       (match where_of channel start_date end_date with
        | [] => None
        | w => Some w
        end))
    (λ documents, Ok (first_documents documents)).
Proof.
  intros Hc He. unfold semantic_search, optimize_query_with_claude.
  rewrite Hc. simpl. rewrite He. simpl.
  by destruct (where_of channel start_date end_date).
Qed.

(** The client is built before the [try]: if building it raises, so does
    [semantic_search], and nothing is searched. *)
Lemma client_error_aborts_search c query n channel start_date end_date e :
  anthropic_client c = Raise e →
  semantic_search c query n channel start_date end_date = Raise e.
Proof.
  intros Hc. unfold semantic_search, optimize_query_with_claude. by rewrite Hc.
Qed.

(** An optimizer that cannot be reached, and a collection that answers
    with the very texts it was queried with. *)
Definition offline_optimizer : Collaborators :=
  {| anthropic_client := Ok tt;
     messages_create := λ _ _, Raise (Exn "APIConnectionError" "Connection error.");
     collection_query := λ query_texts _ _, Ok [query_texts] |}.

(** C4, on the code. With the optimizer unreachable, the search for
    "status of Jane Doe" is made, but the text handed to the collection
    is the error message, not the caller's query. *)
Theorem semantic_search_searches_error_text :
  semantic_search offline_optimizer (VStr "status of Jane Doe") 10 VNone VNone VNone
    = Ok ["[ERROR] Claude API error: Connection error."] ∧
  semantic_search offline_optimizer (VStr "status of Jane Doe") 10 VNone VNone VNone
    ≠ Ok ["status of Jane Doe"].
Proof. split; [reflexivity | discriminate]. Qed.

(** *** Context builders on concrete stores *)

(** The builders at whole-second timestamps. *)
Definition with_all_thread_replies :=
  build_claude_context_with_all_thread_replies
    0%Z (Z.eqb 0) Z.leb parse_seconds show_seconds.
Definition by_candidate :=
  build_claude_context_by_candidate (F := Z) 0%Z (Z.eqb 0).
Definition by_candidate_shadowed :=
  build_claude_context_by_candidate_shadowed (F := Z) 0%Z (Z.eqb 0).
Definition recent_replies_with_parent :=
  get_recent_thread_replies_with_parent 0%Z Z.leb parse_seconds.

Definition no_names : pyval → option string := λ _, None.

(** A search that finds no document. *)
Definition quiet_search : Collaborators :=
  {| anthropic_client := Ok tt;
     messages_create := λ _ _, Ok "candidate feedback";
     collection_query := λ _ _ _, Ok [] |}.

(** A submission and two replies in its thread; the store returns the
    later reply first. *)
Definition submission : Message :=
  {[ "ts" := VStr "100"; "user" := VStr "U1"; "channel_name" := VStr "acme";
     "text" := VStr "<https://linkedin.com/in/jdoe|Jane Doe>" ]}.
Definition reply_late : Message :=
  {[ "ts" := VStr "300"; "thread_ts" := VStr "100"; "user" := VStr "U2";
     "text" := VStr "second round booked" ]}.
Definition reply_early : Message :=
  {[ "ts" := VStr "200"; "thread_ts" := VStr "100"; "user" := VStr "U2";
     "text" := VStr "client liked her" ]}.

Definition lonely_store : DataStore := table_store [submission] no_names no_names.
Definition thread_store : DataStore :=
  table_store [submission; reply_late; reply_early] no_names no_names.

(** **** An anchor without replies *)

(** The second definition renders an anchor without replies as its five
    header lines and the delimiter. *)
Lemma candidate_block_without_replies (ds : @DataStore Z) messages msg c :
  replies_of messages msg = [] →
  candidate_block ds messages msg c =
  join nl ["Candidate: " +:+ name c +:+ " (" +:+ linkedin_url c +:+ ")";
           "Submission: " +:+ py_str (get_or msg "text" (VStr ""));
           "Channel: " +:+ py_str (channel_name_of ds msg);
           "Submitted by: " +:+ py_str (_get_user_name ds (get msg "user"));
           "Timestamp: " +:+ py_str (when_of msg)] +:+ nl +:+ "---".
Proof. intros H. unfold candidate_block. by rewrite H. Qed.

(** The first, shadowed definition has the fallback and the instruction. *)
Lemma first_candidate_block_without_replies (ds : @DataStore Z) messages msg c :
  replies_of messages msg = [] →
  first_candidate_block ds messages msg c =
  ("- " +:+ name c +:+ " - submitted " +:+ py_str (when_of msg)) +:+
  nl +:+ "  no feedback from client" +:+
  nl +:+ "  status: Follow up with client to see if they're interested.".
Proof. intros H. unfold first_candidate_block. by rewrite H. Qed.

(** C6, on the code. For a store that holds one submission and no reply,
    the call of the extractor as written raises; with an extractor that
    works on one text, the builder the class ends up with renders the
    block without the line "no feedback from client", which only the
    shadowed first definition writes. *)
Theorem by_candidate_has_no_fallback_line :
  by_candidate extract_call_as_written lonely_store None None VNone
    = Raise (TypeError
        "CandidateExtractor.extract_candidates() missing 1 required positional argument: 'channel_name'") ∧
  by_candidate extract_call_per_text lonely_store None None VNone
    = Ok (join nl ["Candidate: Jane Doe (https://linkedin.com/in/jdoe)";
                   "Submission: <https://linkedin.com/in/jdoe|Jane Doe>";
                   "Channel: acme";
                   "Submitted by: U1";
                   "Timestamp: 100";
                   "---"]) ∧
  contains "no feedback from client"
    (join nl ["Candidate: Jane Doe (https://linkedin.com/in/jdoe)";
              "Submission: <https://linkedin.com/in/jdoe|Jane Doe>";
              "Channel: acme";
              "Submitted by: U1";
              "Timestamp: 100";
              "---"]) = false ∧
  by_candidate_shadowed extract_call_per_text lonely_store None None VNone
    = Ok (join nl ["acme";
                   "";
                   "- Jane Doe - submitted 100";
                   "  no feedback from client";
                   "  status: Follow up with client to see if they're interested."]).
Proof. repeat split; vm_compute; reflexivity. Qed.

(** **** A thread whose root is outside the window *)

Definition opening : Message :=
  {[ "ts" := VStr "100"; "user" := VStr "U1"; "channel_id" := VStr "C1";
     "channel_name" := VStr "acme"; "text" := VStr "Role is open" ]}.
Definition reaction : Message :=
  {[ "ts" := VStr "200"; "thread_ts" := VStr "100"; "user" := VStr "U2";
     "channel_id" := VStr "C1"; "channel_name" := VStr "acme";
     "text" := VStr "client liked her" ]}.
Definition window_store : DataStore :=
  table_store [opening; reaction] no_names no_names.

(** C7, on the code. The root was posted at 100, the reply at 200; for the
    window from 150 to 250 the store returns the reply alone, and the
    builder renders nothing for its thread: no parent line, no reply.
    [get_recent_thread_replies_with_parent], which does look the parent
    up, is not called by the builder. With the root inside the window the
    thread is rendered. *)
Theorem thread_with_root_outside_window_is_dropped :
  get_messages_by_date_range window_store 150%Z (Some 250%Z) VNone = [reaction] ∧
  with_all_thread_replies quiet_search window_store (VStr "feedback")
                          (Some 150%Z) (Some 250%Z) 50 VNone
    = Ok (nl +:+ "=== Thread Replies ===") ∧
  recent_replies_with_parent window_store 150%Z 250%Z VNone
    = Ok [(reaction, Some opening)] ∧
  with_all_thread_replies quiet_search window_store (VStr "feedback")
                          (Some 50%Z) (Some 250%Z) 50 VNone
    = Ok (join nl [nl +:+ "=== Thread Replies ===";
                   nl +:+ "Thread started by: U1";
                   "Parent message: Role is open";
                   "Channel: acme";
                   "Timestamp: @100";
                   nl +:+ "Replies:";
                   "- U2: client liked her";
                   "  @200";
                   "---"]).
Proof. repeat split; vm_compute; reflexivity. Qed.

(** The channel-activity builder of the backend fragment does look the
    parent up: for the same rows and window it writes the parent line.
    The reply itself is skipped by its second loop and would be listed
    only under a root that is in the window. *)
Example channel_activity_renders_parent_line :
  Activity.build_claude_context
    (Activity.activity_store [opening; reaction]) (λ user_id, user_id)
    VNone (Some 150%Z) (Some 250%Z)
  = Ok (join nl ["Channel: C1"; "Parent Message: Role is open"]).
Proof. vm_compute. reflexivity. Qed.

(** *** What the full-context builder does with a thread *)

Section ThreadFacts.
Context {F : Type}.
Context (fzero : F) (fleb : F → F → bool).
Context (parse_float : string → option F) (strftime : F → string).

Implicit Types (l : list (F * Message)) (msgs : list Message).

Lemma insert_by_key_perm x l : insert_by_key fleb x l ≡ₚ x :: l.
Proof.
  induction l as [|y l IH]; simpl; [done|].
  destruct (fleb x.1 y.1); [done|]. rewrite IH. apply Permutation_swap.
Qed.

Lemma sort_keyed_perm l : sort_keyed fleb l ≡ₚ l.
Proof.
  induction l as [|x l IH]; simpl; [done|].
  rewrite insert_by_key_perm. by rewrite IH.
Qed.

(** The keys that [sort] computes are the parsed timestamps. *)
Definition keyed_ok (km : F * Message) : Prop :=
  float_field fzero parse_float km.2 "ts" = Ok km.1.

Lemma keyed_spec msgs keyed :
  map_res (λ m, and_then (float_field fzero parse_float m "ts") (λ k, Ok (k, m))) msgs
    = Ok keyed →
  keyed.*2 = msgs ∧ Forall keyed_ok keyed.
Proof.
  revert keyed. induction msgs as [|m msgs IH]; intros keyed; simpl.
  - intros [= <-]. by split.
  - destruct (float_field fzero parse_float m "ts") as [k|e] eqn:Hk; simpl; [|done].
    destruct (map_res _ msgs) as [keyed'|e] eqn:Hrest; simpl; [|done].
    intros [= <-]. destruct (IH _ eq_refl) as [Hsnd Hok]. split.
    + rewrite fmap_cons. simpl. by f_equal.
    + constructor; [exact Hk | done].
Qed.

Lemma sort_by_ts_perm msgs sorted :
  sort_by_ts fzero fleb parse_float msgs = Ok sorted → sorted ≡ₚ msgs.
Proof.
  unfold sort_by_ts.
  destruct (map_res _ msgs) as [keyed|e] eqn:Hk; simpl; [|done].
  intros [= <-]. destruct (keyed_spec _ _ Hk) as [<- _].
  apply fmap_Permutation, sort_keyed_perm.
Qed.

(** A thread none of whose messages in the window is its root
    contributes no line. *)
Lemma thread_without_root_dropped (ds : DataStore) thread_ts msgs sorted :
  sort_by_ts fzero fleb parse_float msgs = Ok sorted →
  (∀ m, m ∈ msgs → get m "ts" ≠ thread_ts) →
  thread_lines fzero fleb parse_float strftime ds thread_ts msgs = Ok [].
Proof.
  intros Hs Hroot. unfold thread_lines. rewrite Hs. simpl.
  destruct (find _ sorted) as [parent|] eqn:Hf; [|done].
  apply find_some in Hf as [Hin Heq]. exfalso.
  apply list_elem_of_In in Hin. rewrite (sort_by_ts_perm _ _ Hs) in Hin.
  apply (Hroot parent Hin). unfold py_eqb in Heq. by apply bool_decide_eq_true in Heq.
Qed.

(** With a total and transitive comparison, the thread is in ascending
    order of timestamps after the sort, and so are its replies. *)
Context (fleb_total : ∀ a b, fleb a b = true ∨ fleb b a = true).
Context (fleb_trans : ∀ a b c, fleb a b = true → fleb b c = true → fleb a c = true).

Definition key_le (x y : F * Message) : Prop := fleb x.1 y.1 = true.

Lemma insert_by_key_sorted x l :
  StronglySorted key_le l → StronglySorted key_le (insert_by_key fleb x l).
Proof.
  induction 1 as [|y l Hl IH Hy]; simpl.
  - repeat constructor.
  - destruct (fleb x.1 y.1) eqn:Hxy.
    + constructor; [by constructor|]. constructor; [done|].
      eapply Forall_impl; [exact Hy|]. intros z Hz. by eapply fleb_trans.
    + constructor; [done|]. rewrite insert_by_key_perm. constructor; [|done].
      destruct (fleb_total x.1 y.1) as [H|H]; [congruence | done].
Qed.

Lemma sort_keyed_sorted l : StronglySorted key_le (sort_keyed fleb l).
Proof.
  induction l as [|x l IH]; simpl; [constructor | by apply insert_by_key_sorted].
Qed.

(** [a] is not later than [b]. *)
Definition ts_le (a b : Message) : Prop :=
  ∃ ka kb, float_field fzero parse_float a "ts" = Ok ka ∧
           float_field fzero parse_float b "ts" = Ok kb ∧
           fleb ka kb = true.

Lemma sorted_with_keys l :
  Forall keyed_ok l → StronglySorted key_le l →
  StronglySorted (λ x y, keyed_ok x ∧ keyed_ok y ∧ key_le x y) l.
Proof.
  intros Hok. induction 1 as [|x l Hl IH Hx]; [constructor|].
  apply Forall_cons in Hok as [Hx_ok Hok]. constructor; [by apply IH|].
  rewrite Forall_forall in *. intros y Hy. split; [done|]. split; [by apply Hok | by apply Hx].
Qed.

Lemma sort_by_ts_sorted msgs sorted :
  sort_by_ts fzero fleb parse_float msgs = Ok sorted → StronglySorted ts_le sorted.
Proof.
  unfold sort_by_ts.
  destruct (map_res _ msgs) as [keyed|e] eqn:Hk; simpl; [|done].
  intros [= <-]. destruct (keyed_spec _ _ Hk) as [_ Hok].
  apply StronglySorted_fmap with
    (R1 := λ x y, keyed_ok x ∧ keyed_ok y ∧ key_le x y).
  - intros x y (Hx & Hy & Hle). by exists x.1, y.1.
  - apply sorted_with_keys; [|apply sort_keyed_sorted].
    by rewrite sort_keyed_perm.
Qed.

Lemma filter_sorted (R : relation Message) (P : Message → Prop)
    `{∀ m, Decision (P m)} (l : list Message) :
  StronglySorted R l → StronglySorted R (filter P l).
Proof.
  induction 1 as [|x l Hl IH Hx]; [constructor|].
  rewrite filter_cons. destruct (decide (P x)); [|done].
  constructor; [done|]. rewrite Forall_forall in *.
  intros y Hy. apply Hx. by apply list_elem_of_filter in Hy as [_ Hy].
Qed.

(** The replies that [thread_lines] renders are in ascending order of
    timestamps. *)
Lemma thread_replies_ascending thread_ts msgs sorted :
  sort_by_ts fzero fleb parse_float msgs = Ok sorted →
  StronglySorted ts_le (filter (λ msg, get msg "ts" ≠ thread_ts) sorted).
Proof. intros Hs. by apply filter_sorted, sort_by_ts_sorted with msgs. Qed.

End ThreadFacts.

(** *** The builders on any store *)

Lemma map_res_Ok {A B} (f : A → res B) (l : list A) :
  (∀ x, x ∈ l → ∃ y, f x = Ok y) → ∃ ys, map_res f l = Ok ys.
Proof.
  induction l as [|x l IH]; intros Hf; [by exists []|].
  destruct (Hf x) as [y Hy]; [left|].
  destruct IH as [ys Hys]; [intros z Hz; apply Hf; by right|].
  exists (y :: ys). simpl. by rewrite Hy, Hys.
Qed.

Lemma map_res_const {A B} (f : A → res B) (y : B) (l : list A) :
  (∀ x, x ∈ l → f x = Ok y) → map_res f l = Ok (map (λ _, y) l).
Proof.
  induction l as [|x l IH]; intros Hf; [done|].
  simpl. rewrite Hf by left. simpl. rewrite IH; [done|].
  intros z Hz. apply Hf. by right.
Qed.

Lemma concat_nils {A B} (l : list A) : concat (map (λ _, @nil B) l) = [].
Proof. induction l as [|x l IH]; [done|]. simpl. exact IH. Qed.

Section BuilderFacts.
Context {F : Type}.
Context (fzero : F) (fis_zero : F → bool) (fleb : F → F → bool).
Context (parse_float : string → option F) (strftime : F → string).

(** The [ts] of the message (or the default, when it has none) converts
    to a float. *)
Definition has_time (m : Message) : Prop :=
  ∃ k, float_field fzero parse_float m "ts" = Ok k.

Lemma sort_by_ts_returns msgs :
  (∀ m, m ∈ msgs → has_time m) →
  ∃ sorted, sort_by_ts fzero fleb parse_float msgs = Ok sorted.
Proof.
  intros Ht. unfold sort_by_ts.
  destruct (map_res_Ok
              (λ m, and_then (float_field fzero parse_float m "ts") (λ k, Ok (k, m)))
              msgs) as [keyed Hk].
  { intros m Hm. destruct (Ht m Hm) as [k Hk]. exists (k, m). by rewrite Hk. }
  rewrite Hk. simpl. by eexists.
Qed.

(** **** The sort is stable *)

Definition key_eq (k0 : F) (x : F * Message) : bool :=
  fleb x.1 k0 && fleb k0 x.1.

(** The timestamp of [m] is [k0], as far as the comparison can tell. *)
Definition same_ts (k0 : F) (m : Message) : bool :=
  match float_field fzero parse_float m "ts" with
  | Ok k => fleb k k0 && fleb k0 k
  | Raise _ => false
  end.

Section Stable.
Hypothesis fleb_trans :
  ∀ a b c, fleb a b = true → fleb b c = true → fleb a c = true.

Lemma insert_by_key_stable k0 x (l : list (F * Message)) :
  filter (λ y, key_eq k0 y) (insert_by_key fleb x l)
  = filter (λ y, key_eq k0 y) (x :: l).
Proof.
  induction l as [|y l IH]; simpl; [done|].
  destruct (fleb x.1 y.1) eqn:Hxy; [done|].
  rewrite (filter_cons _ y), IH, !(filter_cons _ x), (filter_cons _ y).
  destruct (decide (key_eq k0 x)) as [Hx|Hx], (decide (key_eq k0 y)) as [Hy|Hy];
    try done.
  exfalso. apply Is_true_true, andb_prop in Hx as [Hx _].
  apply Is_true_true, andb_prop in Hy as [_ Hy].
  rewrite (fleb_trans _ _ _ Hx Hy) in Hxy. done.
Qed.

Lemma sort_keyed_stable k0 (l : list (F * Message)) :
  filter (λ y, key_eq k0 y) (sort_keyed fleb l) = filter (λ y, key_eq k0 y) l.
Proof.
  induction l as [|x l IH]; simpl; [done|].
  rewrite insert_by_key_stable, !(filter_cons _ x), IH. done.
Qed.

Lemma filter_keyed k0 (l : list (F * Message)) :
  Forall (keyed_ok fzero parse_float) l →
  filter (λ m, same_ts k0 m) (l.*2) = (filter (λ y, key_eq k0 y) l).*2.
Proof.
  induction 1 as [|x l Hx Hl IH]; [done|].
  assert (Heq : same_ts k0 x.2 = key_eq k0 x).
  { unfold same_ts, key_eq. unfold keyed_ok in Hx. by rewrite Hx. }
  rewrite fmap_cons, !filter_cons, IH, Heq.
  by destruct (decide (key_eq k0 x)).
Qed.

End Stable.

(** X10. [sort], as the full-context builder uses it on the messages of
    a thread: when the timestamps convert and the comparison is a total
    preorder, it returns the same messages in ascending order of
    timestamp, and messages with the same timestamp keep the order they
    had. *)
Theorem sort_by_ts_stable_ascending msgs :
  (∀ a b, fleb a b = true ∨ fleb b a = true) →
  (∀ a b c, fleb a b = true → fleb b c = true → fleb a c = true) →
  (∀ m, m ∈ msgs → has_time m) →
  ∃ sorted,
    sort_by_ts fzero fleb parse_float msgs = Ok sorted ∧
    sorted ≡ₚ msgs ∧
    StronglySorted (ts_le fzero fleb parse_float) sorted ∧
    ∀ k0, filter (λ m, same_ts k0 m) sorted = filter (λ m, same_ts k0 m) msgs.
Proof.
  intros Htotal Htrans Htime.
  destruct (sort_by_ts_returns msgs Htime) as [sorted Hs].
  exists sorted. split; [done|].
  split; [by eapply sort_by_ts_perm|].
  split; [by eapply sort_by_ts_sorted|].
  intros k0. unfold sort_by_ts in Hs.
  destruct (map_res _ msgs) as [keyed|e] eqn:Hk; simpl in Hs; [|done].
  injection Hs as <-. destruct (keyed_spec _ _ _ _ Hk) as [<- Hok].
  rewrite !filter_keyed; [|done|].
  - by rewrite sort_keyed_stable.
  - by rewrite sort_keyed_perm.
Qed.

(** **** Threads whose root is not in the window *)

(** [msg.get('thread_ts', msg.get('ts'))], the key under which the
    builder groups. *)
Definition thread_key (m : Message) : pyval := get_or m "thread_ts" (get m "ts").

Lemma group_by_thread_snoc (l : list Message) m :
  group_by_thread (l ++ [m])
  = od_set (thread_key m)
           (default [] (od_get (thread_key m) (group_by_thread l)) ++ [m])
           (group_by_thread l).
Proof. unfold group_by_thread. by rewrite fold_left_app. Qed.

Lemma group_by_thread_NoDup (l : list Message) : NoDup (od_keys (group_by_thread l)).
Proof.
  induction l as [|m l IH] using rev_ind; [constructor|].
  rewrite group_by_thread_snoc. by apply od_keys_set_NoDup.
Qed.

Lemma group_by_thread_get (messages : list Message) k :
  od_get k (group_by_thread messages)
  = match filter (λ m, thread_key m = k) messages with
    | [] => None
    | g => Some g
    end.
Proof.
  induction messages as [|m l IH] using rev_ind; [done|].
  rewrite group_by_thread_snoc, filter_app, filter_cons, filter_nil.
  destruct (decide (thread_key m = k)) as [<-|Hne].
  - rewrite od_get_set_eq, IH.
    destruct (filter (λ m0, thread_key m0 = thread_key m) l); done.
  - rewrite od_get_set_ne, IH, app_nil_r by done. done.
Qed.

(** X11. The grouping loop of the full-context builder: the dict has
    each key once, and the group of a key is the list of the messages
    that have this [thread_ts] (or, having none, this [ts]), in the order
    of the input; a key that no message has is no key of the dict. So
    every message is in the group of its key and in no other, as often as
    it is in the input. *)
Theorem group_by_thread_lookup (messages : list Message) :
  NoDup (od_keys (group_by_thread messages)) ∧
  ∀ k, od_get k (group_by_thread messages)
       = match filter (λ m, thread_key m = k) messages with
         | [] => None
         | g => Some g
         end.
Proof.
  split; [apply group_by_thread_NoDup | apply group_by_thread_get].
Qed.

Lemma group_by_thread_elem (messages : list Message) k g :
  (k, g) ∈ group_by_thread messages →
  ∀ m, m ∈ g → m ∈ messages ∧ thread_key m = k.
Proof.
  intros Hin m Hm.
  apply (od_elem_get _ _ _ (group_by_thread_NoDup messages)) in Hin.
  rewrite group_by_thread_get in Hin.
  destruct (filter (λ m, thread_key m = k) messages) as [|x xs] eqn:Hf; [done|].
  injection Hin as <-. rewrite <- Hf in Hm.
  apply list_elem_of_filter in Hm as [Hk Hm]. done.
Qed.

(** X12. The full-context builder renders a thread only under its root:
    when the search finds no document and no message of the window is
    the root of its own thread (each has a [thread_ts] other than its
    [ts]), the context is the header of the thread section and nothing
    else, however many replies the window holds. *)
Theorem replies_without_root_render_nothing (c : Collaborators) (ds : @DataStore F)
    query start_ts end_ts limit channel_id :
  semantic_search c query limit VNone VNone VNone = Ok [] →
  (∀ m, m ∈ get_messages_by_date_range ds (or_zero fzero start_ts)
                (or_inf fis_zero end_ts) channel_id →
        has_time m ∧ get m "ts" ≠ thread_key m) →
  build_claude_context_with_all_thread_replies
    fzero fis_zero fleb parse_float strftime c ds query start_ts end_ts limit channel_id
  = Ok (nl +:+ "=== Thread Replies ===").
Proof.
  intros Hsearch Hmsgs. unfold build_claude_context_with_all_thread_replies.
  rewrite Hsearch. simpl.
  rewrite (map_res_const _ []).
  - simpl. by rewrite concat_nils.
  - intros [k g] Hin. simpl.
    pose proof (group_by_thread_elem _ _ _ Hin) as Hg.
    destruct (sort_by_ts_returns g) as [sorted Hs].
    { intros m Hm. apply Hmsgs. by apply Hg. }
    eapply thread_without_root_dropped; [exact Hs|].
    intros m Hm. destruct (Hg m Hm) as [Hin' <-]. by apply Hmsgs.
Qed.

(** X13. The documents of the collection are strings, and the full-context
    builder calls [result.get] on each: whenever the search finds a
    document, the builder raises [AttributeError], whatever the store
    holds. *)
Theorem any_document_raises (c : Collaborators) (ds : @DataStore F)
    query start_ts end_ts limit channel_id doc docs :
  semantic_search c query limit VNone VNone VNone = Ok (doc :: docs) →
  build_claude_context_with_all_thread_replies
    fzero fis_zero fleb parse_float strftime c ds query start_ts end_ts limit channel_id
  = Raise (AttributeError "'str' object has no attribute 'get'").
Proof.
  intros Hsearch. unfold build_claude_context_with_all_thread_replies.
  by rewrite Hsearch.
Qed.

(** **** The candidate-pipeline builders as written *)

(** X14. With the call of the extractor as the source has it, one
    argument short, both definitions of
    [build_claude_context_by_candidate] return the empty string for an
    empty window and raise [TypeError] for every other window. *)
Theorem by_candidate_as_written (ds : @DataStore F) start_ts end_ts channel_id :
  let messages :=
    get_messages_by_date_range ds (or_zero fzero start_ts)
                               (or_inf fis_zero end_ts) channel_id in
  let outcome :=
    match messages with
    | [] => Ok ""
    | _ :: _ =>
        Raise (TypeError
          "CandidateExtractor.extract_candidates() missing 1 required positional argument: 'channel_name'")
    end in
  build_claude_context_by_candidate fzero fis_zero extract_call_as_written
    ds start_ts end_ts channel_id = outcome ∧
  build_claude_context_by_candidate_shadowed fzero fis_zero extract_call_as_written
    ds start_ts end_ts channel_id = outcome.
Proof.
  intros messages outcome. subst outcome.
  unfold build_claude_context_by_candidate, build_claude_context_by_candidate_shadowed.
  fold messages. by destruct messages.
Qed.

(** **** Replies with their parents *)

Lemma parent_lookup_last (all_msgs : list Message) k :
  od_get k (parent_lookup_of all_msgs)
  = last (filter (λ m, (truthy (get m "ts") || truthy (get m "timestamp"))
                       ∧ get_or m "ts" (get m "timestamp") = k) all_msgs).
Proof.
  unfold parent_lookup_of.
  induction all_msgs as [|m l IH] using rev_ind; [done|].
  rewrite fold_left_app, filter_app, filter_cons, filter_nil. simpl.
  destruct (truthy (get m "ts") || truthy (get m "timestamp")) eqn:Ht.
  - destruct (decide (get_or m "ts" (get m "timestamp") = k)) as [<-|Hne].
    + rewrite decide_True by done. by rewrite last_snoc, od_get_set_eq.
    + rewrite decide_False by (by intros [_ ?]).
      by rewrite app_nil_r, od_get_set_ne.
  - rewrite decide_False by (by intros [[] _]). by rewrite app_nil_r.
Qed.

(** The test of the list comprehension [recent_replies]. *)
Definition is_recent_reply (start_ts end_ts : F) (msg : Message) : bool :=
  truthy (get msg "thread_ts")
  && negb (py_eqb (get msg "ts") (get msg "thread_ts"))
  && match reply_time fzero parse_float msg with
     | Ok t => fleb start_ts t && fleb t end_ts
     | Raise _ => false
     end.

Lemma recent_replies_picked start_ts end_ts (l : list Message) :
  (∀ m, m ∈ l →
        truthy (get m "thread_ts") = true →
        get m "ts" ≠ get m "thread_ts" →
        ∃ t, reply_time fzero parse_float m = Ok t) →
  ∃ picked,
    map_res (λ msg,
               if truthy (get msg "thread_ts")
                  && negb (py_eqb (get msg "ts") (get msg "thread_ts"))
               then and_then (reply_time fzero parse_float msg) (λ t,
                      Ok (if fleb start_ts t && fleb t end_ts then [msg] else []))
               else Ok []) l = Ok picked ∧
    concat picked = filter (λ m, is_recent_reply start_ts end_ts m) l.
Proof.
  induction l as [|m l IH]; intros Ht; [by exists []|].
  destruct IH as (picked & Hp & Hc); [intros z Hz; apply Ht; by right|].
  assert (Hhead :
    (if truthy (get m "thread_ts") && negb (py_eqb (get m "ts") (get m "thread_ts"))
     then and_then (reply_time fzero parse_float m) (λ t,
            Ok (if fleb start_ts t && fleb t end_ts then [m] else []))
     else Ok [])
    = Ok (if is_recent_reply start_ts end_ts m then [m] else [])).
  { unfold is_recent_reply.
    destruct (truthy (get m "thread_ts")) eqn:Hth; simpl; [|done].
    destruct (py_eqb (get m "ts") (get m "thread_ts")) eqn:Heq; simpl; [done|].
    destruct (Ht m) as [t Htm]; [left | done | |].
    { unfold py_eqb in Heq. by apply bool_decide_eq_false in Heq. }
    rewrite Htm. done. }
  cbn [map_res]. rewrite Hp, Hhead, filter_cons. simpl.
  eexists. split; [done|]. simpl. rewrite Hc.
  by destruct (is_recent_reply start_ts end_ts m).
Qed.

(** X15. [get_recent_thread_replies_with_parent] returns, in the order of
    the store, the messages up to [end_ts] that have a [thread_ts] other
    than their [ts] and a time inside the window; with each comes the
    last message up to [end_ts], however old, whose [ts] is that
    [thread_ts], and [None] when the store has none. *)
Theorem recent_replies_with_their_parents (ds : @DataStore F) start_ts end_ts
    channel_id :
  let all_msgs := get_messages_by_date_range ds fzero (Some end_ts) channel_id in
  (∀ m, m ∈ all_msgs →
        truthy (get m "thread_ts") = true →
        get m "ts" ≠ get m "thread_ts" →
        ∃ t, reply_time fzero parse_float m = Ok t) →
  get_recent_thread_replies_with_parent fzero fleb parse_float ds start_ts end_ts
                                        channel_id
  = Ok (map (λ reply,
               (reply,
                last (filter (λ m, (truthy (get m "ts") || truthy (get m "timestamp"))
                                   ∧ get_or m "ts" (get m "timestamp")
                                     = get reply "thread_ts") all_msgs)))
            (filter (λ m, is_recent_reply start_ts end_ts m) all_msgs)).
Proof.
  intros all_msgs Ht. unfold get_recent_thread_replies_with_parent. fold all_msgs.
  destruct (recent_replies_picked start_ts end_ts all_msgs Ht) as (picked & Hp & Hc).
  rewrite Hp. simpl. rewrite Hc. f_equal. apply map_ext. intros reply.
  by rewrite parent_lookup_last.
Qed.

End BuilderFacts.

Lemma Zleb_total (a b : Z) : (a <=? b)%Z = true ∨ (b <=? a)%Z = true.
Proof. lia. Qed.
Lemma Zleb_trans (a b c : Z) :
  (a <=? b)%Z = true → (b <=? c)%Z = true → (a <=? c)%Z = true.
Proof. lia. Qed.

Lemma thread_store_has_time m :
  m ∈ [submission; reply_late; reply_early] → has_time 0%Z parse_seconds m.
Proof.
  rewrite !elem_of_cons, elem_of_nil.
  intros [->|[->|[->|[]]]]; eexists; vm_compute; reflexivity.
Qed.

Lemma sort_by_ts_stable_ascending_witness :
  (∀ m, m ∈ [submission; reply_late; reply_early] → has_time 0%Z parse_seconds m) ∧
  ∃ sorted,
    sort_by_ts 0%Z Z.leb parse_seconds [submission; reply_late; reply_early]
      = Ok sorted ∧
    sorted ≡ₚ [submission; reply_late; reply_early] ∧
    StronglySorted (ts_le 0%Z Z.leb parse_seconds) sorted ∧
    ∀ k0, filter (λ m, same_ts 0%Z Z.leb parse_seconds k0 m) sorted
          = filter (λ m, same_ts 0%Z Z.leb parse_seconds k0 m)
                   [submission; reply_late; reply_early].
Proof.
  split; [exact thread_store_has_time|].
  exact (sort_by_ts_stable_ascending 0%Z Z.leb parse_seconds
           [submission; reply_late; reply_early]
           Zleb_total Zleb_trans thread_store_has_time).
Defined.

Lemma window_has_orphans m :
  m ∈ get_messages_by_date_range window_store (or_zero 0%Z (Some 150%Z))
        (or_inf (Z.eqb 0) (Some 250%Z)) VNone →
  has_time 0%Z parse_seconds m ∧ get m "ts" ≠ thread_key m.
Proof.
  replace (get_messages_by_date_range window_store (or_zero 0%Z (Some 150%Z))
             (or_inf (Z.eqb 0) (Some 250%Z)) VNone)
    with [reaction] by (vm_compute; reflexivity).
  intros ->%list_elem_of_singleton. split.
  - eexists. vm_compute. reflexivity.
  - vm_compute. discriminate.
Qed.

Lemma replies_without_root_render_nothing_witness :
  semantic_search quiet_search (VStr "feedback") 50 VNone VNone VNone = Ok [] ∧
  with_all_thread_replies quiet_search window_store (VStr "feedback")
                          (Some 150%Z) (Some 250%Z) 50 VNone
  = Ok (nl +:+ "=== Thread Replies ===").
Proof.
  split; [reflexivity|].
  exact (replies_without_root_render_nothing 0%Z (Z.eqb 0) Z.leb parse_seconds
           show_seconds quiet_search window_store (VStr "feedback")
           (Some 150%Z) (Some 250%Z) 50 VNone eq_refl window_has_orphans).
Defined.

(** A search that finds the document it is asked for. *)
Definition echo_search : Collaborators :=
  {| anthropic_client := Ok tt;
     messages_create := λ _ _, Ok "candidate feedback";
     collection_query := λ query_texts _ _, Ok [query_texts] |}.

Lemma any_document_raises_witness :
  semantic_search echo_search (VStr "feedback") 50 VNone VNone VNone
    = Ok ["candidate feedback"] ∧
  with_all_thread_replies echo_search window_store (VStr "feedback")
                          None None 50 VNone
  = Raise (AttributeError "'str' object has no attribute 'get'").
Proof.
  split; [reflexivity|].
  exact (any_document_raises 0%Z (Z.eqb 0) Z.leb parse_seconds show_seconds
           echo_search window_store (VStr "feedback") None None 50 VNone
           "candidate feedback" [] eq_refl).
Defined.

Lemma window_replies_have_time m :
  m ∈ get_messages_by_date_range window_store 0%Z (Some 250%Z) VNone →
  truthy (get m "thread_ts") = true →
  get m "ts" ≠ get m "thread_ts" →
  ∃ t, reply_time 0%Z parse_seconds m = Ok t.
Proof.
  replace (get_messages_by_date_range window_store 0%Z (Some 250%Z) VNone)
    with [opening; reaction] by (vm_compute; reflexivity).
  rewrite !elem_of_cons, elem_of_nil.
  intros [->|[->|[]]] _ _; eexists; vm_compute; reflexivity.
Qed.

Lemma recent_replies_with_their_parents_witness :
  let all_msgs := get_messages_by_date_range window_store 0%Z (Some 250%Z) VNone in
  (∀ m, m ∈ all_msgs →
        truthy (get m "thread_ts") = true →
        get m "ts" ≠ get m "thread_ts" →
        ∃ t, reply_time 0%Z parse_seconds m = Ok t) ∧
  recent_replies_with_parent window_store 150%Z 250%Z VNone
  = Ok (map (λ reply,
               (reply,
                last (filter (λ m, (truthy (get m "ts") || truthy (get m "timestamp"))
                                   ∧ get_or m "ts" (get m "timestamp")
                                     = get reply "thread_ts") all_msgs)))
            (filter (λ m, is_recent_reply 0%Z Z.leb parse_seconds 150%Z 250%Z m)
                    all_msgs)).
Proof.
  intros all_msgs. split; [exact window_replies_have_time|].
  exact (recent_replies_with_their_parents 0%Z Z.leb parse_seconds window_store
           150%Z 250%Z VNone window_replies_have_time).
Defined.

(** *** Retrying *)

(** The outcome is an [IncompleteRead], which the loop retries. *)
Definition retried {A} (r : res A) : bool :=
  match r with
  | Ok _ => false
  | Raise e => is_incomplete_read e
  end.

(** X19. [safe_slack_api_call] makes at most three calls: its outcome is
    the first of the three that is not an [IncompleteRead] (a result, or
    an exception of another class, which is not retried), and a
    [RuntimeError] when all three are. A fourth call is never made, and
    the wrapper never ends with an [IncompleteRead]. *)
Theorem safe_slack_api_call_outcome {A} (api_func : nat → res A) :
  safe_slack_api_call api_func
  = default (Raise (Exn "RuntimeError" "Failed after retries due to IncompleteRead"))
            (find (λ r, negb (retried r)) [api_func 0; api_func 1; api_func 2]) ∧
  retried (safe_slack_api_call api_func) = false.
Proof.
  unfold safe_slack_api_call. cbn [retry_from find].
  destruct (api_func 0) as [r0|e0]; [done|]. cbn [retried].
  destruct (is_incomplete_read e0) eqn:H0; cbn [negb]; [|done].
  destruct (api_func 1) as [r1|e1]; [done|]. cbn [retried].
  destruct (is_incomplete_read e1) eqn:H1; cbn [negb]; [|done].
  destruct (api_func 2) as [r2|e2]; [done|]. cbn [retried].
  destruct (is_incomplete_read e2) eqn:H2; cbn [negb]; [|done].
  done.
Qed.

(** *** The order of the replies in what is rendered *)

Lemma map_res_Forall2 {A B} (f : A → res B) (l : list A) (ys : list B) :
  map_res f l = Ok ys → Forall2 (λ x y, f x = Ok y) l ys.
Proof.
  revert ys. induction l as [|x l IH]; intros ys; simpl.
  - intros [= <-]. constructor.
  - destruct (f x) as [y|e] eqn:Hy; simpl; [|done].
    destruct (map_res f l) as [ys'|e]; simpl; [|done].
    intros [= <-]. constructor; [done | by apply IH].
Qed.

Section RenderedOrder.
Context {F : Type}.
Context (fzero : F) (fis_zero : F → bool) (fleb : F → F → bool).
Context (parse_float : string → option F) (strftime : F → string).

(** [lines] is what the full-context builder writes for the thread [k]
    with the messages [msgs] of the window: nothing, or the four lines
    of the parent, then the replies, each with its two lines, in an
    order [replies] that is ascending in the timestamp, then the
    delimiter. *)
Definition thread_block (ds : @DataStore F) (k : pyval) (msgs : list Message)
    (lines : list string) : Prop :=
  lines = [] ∨
  ∃ parent t0 replies rl,
    parent ∈ msgs ∧ get parent "ts" = k ∧
    float_of parse_float k = Ok t0 ∧
    replies ≡ₚ filter (λ m, get m "ts" ≠ k) msgs ∧
    StronglySorted (ts_le fzero fleb parse_float) replies ∧
    Forall2 (λ reply l, reply_lines fzero parse_float strftime ds reply = Ok l)
            replies rl ∧
    lines
    = [nl +:+ "Thread started by: "
          +:+ py_str (_get_user_name ds (get parent "user"));
       "Parent message: " +:+ py_str (get_or parent "text" (VStr ""));
       "Channel: " +:+ py_str (channel_name_of ds parent);
       "Timestamp: " +:+ strftime t0]
      ++ match replies with
         | [] => []
         | _ :: _ => (nl +:+ "Replies:") :: concat rl
         end
      ++ ["---"].

Hypothesis fleb_total : ∀ a b, fleb a b = true ∨ fleb b a = true.
Hypothesis fleb_trans :
  ∀ a b c, fleb a b = true → fleb b c = true → fleb a c = true.

Lemma thread_lines_block (ds : @DataStore F) k msgs lines :
  thread_lines fzero fleb parse_float strftime ds k msgs = Ok lines →
  thread_block ds k msgs lines.
Proof.
  unfold thread_lines, thread_block.
  destruct (sort_by_ts fzero fleb parse_float msgs) as [sorted|e] eqn:Hs;
    simpl; [|done].
  destruct (find _ sorted) as [parent|] eqn:Hf; [|intros [= <-]; by left].
  destruct (bool_decide (parent = ∅)); [intros [= <-]; by left|].
  destruct (float_of parse_float k) as [t0|e] eqn:Ht0; simpl; [|done].
  destruct (map_res _ (filter _ sorted)) as [rl|e] eqn:Hrl; simpl; [|done].
  intros [= <-]. right.
  exists parent, t0, (filter (λ msg, get msg "ts" ≠ k) sorted), rl.
  apply find_some in Hf as [Hin Hts]. apply list_elem_of_In in Hin.
  unfold py_eqb in Hts. apply bool_decide_eq_true in Hts.
  split; [by rewrite <- (sort_by_ts_perm _ _ _ _ _ Hs)|]. split; [done|].
  split; [done|].
  split; [by rewrite (sort_by_ts_perm _ _ _ _ _ Hs)|].
  split; [by eapply thread_replies_ascending|].
  split; [by apply map_res_Forall2|]. done.
Qed.

End RenderedOrder.

(** C8, on the code. Of the two builders the claim names, the
    full-context builder is the one that renders replies, and it sorts
    every thread by [float(ts)] before it renders it: in each context it
    returns, the block of every thread lists the replies in ascending
    order of their timestamps (the comparison of the timestamps being a
    total preorder, as the one of floats is but for NaN). The candidate
    builder, in the definition the class ends up with, calls the
    extractor one argument short: it returns the empty context for an
    empty window and raises for any other, and so renders no reply at
    all. (A timestamp outside the range of [datetime.fromtimestamp]
    makes the code raise where [strftime] here gives a string: the code
    then returns no context, and every context it does return is one
    that is returned here.) *)
Theorem rendered_replies_ascending {F : Type} (fzero : F) (fis_zero : F → bool)
    (fleb : F → F → bool) (parse_float : string → option F) (strftime : F → string)
    (c : Collaborators) (ds : @DataStore F) query start_ts end_ts limit channel_id
    context :
  (∀ a b, fleb a b = true ∨ fleb b a = true) →
  (∀ a b c, fleb a b = true → fleb b c = true → fleb a c = true) →
  build_claude_context_with_all_thread_replies
    fzero fis_zero fleb parse_float strftime c ds query start_ts end_ts limit channel_id
    = Ok context →
  (∃ blocks,
     context = join nl ((nl +:+ "=== Thread Replies ===") :: concat blocks) ∧
     Forall2 (λ kv lines,
                thread_block fzero fleb parse_float strftime ds kv.1 kv.2 lines)
             (group_by_thread
                (get_messages_by_date_range ds (or_zero fzero start_ts)
                                            (or_inf fis_zero end_ts) channel_id))
             blocks) ∧
  (build_claude_context_by_candidate fzero fis_zero extract_call_as_written
     ds start_ts end_ts channel_id = Ok ""
   ∨ ∃ e, build_claude_context_by_candidate fzero fis_zero extract_call_as_written
            ds start_ts end_ts channel_id = Raise e).
Proof.
  intros Htotal Htrans Hctx. split.
  - unfold build_claude_context_with_all_thread_replies in Hctx.
    destruct (semantic_search c query limit VNone VNone VNone) as [docs|e];
      simpl in Hctx; [|done].
    destruct docs as [|doc docs]; simpl in Hctx; [|done].
    destruct (map_res _ (group_by_thread _)) as [tl|e] eqn:Htl; simpl in Hctx; [|done].
    injection Hctx as <-. exists tl. split; [done|].
    apply map_res_Forall2 in Htl.
    eapply Forall2_impl; [exact Htl|].
    intros kv lines Hl. by eapply thread_lines_block.
  - unfold build_claude_context_by_candidate.
    destruct (get_messages_by_date_range ds (or_zero fzero start_ts)
                (or_inf fis_zero end_ts) channel_id) as [|m ms].
    + by left.
    + right. by eexists.
Qed.

Lemma rendered_replies_ascending_witness :
  with_all_thread_replies quiet_search thread_store (VStr "feedback")
                          None None 50 VNone
    = Ok (join nl [nl +:+ "=== Thread Replies ===";
                   nl +:+ "Thread started by: U1";
                   "Parent message: <https://linkedin.com/in/jdoe|Jane Doe>";
                   "Channel: acme";
                   "Timestamp: @100";
                   nl +:+ "Replies:";
                   "- U2: client liked her";
                   "  @200";
                   "- U2: second round booked";
                   "  @300";
                   "---"]) ∧
  (∃ blocks,
     join nl [nl +:+ "=== Thread Replies ===";
              nl +:+ "Thread started by: U1";
              "Parent message: <https://linkedin.com/in/jdoe|Jane Doe>";
              "Channel: acme";
              "Timestamp: @100";
              nl +:+ "Replies:";
              "- U2: client liked her";
              "  @200";
              "- U2: second round booked";
              "  @300";
              "---"]
     = join nl ((nl +:+ "=== Thread Replies ===") :: concat blocks) ∧
     Forall2 (λ kv lines,
                thread_block 0%Z Z.leb parse_seconds show_seconds thread_store
                             kv.1 kv.2 lines)
             (group_by_thread
                (get_messages_by_date_range thread_store (or_zero 0%Z None)
                                            (or_inf (Z.eqb 0) None) VNone))
             blocks) ∧
  (by_candidate extract_call_as_written thread_store None None VNone = Ok ""
   ∨ ∃ e, by_candidate extract_call_as_written thread_store None None VNone
          = Raise e).
Proof.
  assert (H : with_all_thread_replies quiet_search thread_store (VStr "feedback")
                          None None 50 VNone
    = Ok (join nl [nl +:+ "=== Thread Replies ===";
                   nl +:+ "Thread started by: U1";
                   "Parent message: <https://linkedin.com/in/jdoe|Jane Doe>";
                   "Channel: acme";
                   "Timestamp: @100";
                   nl +:+ "Replies:";
                   "- U2: client liked her";
                   "  @200";
                   "- U2: second round booked";
                   "  @300";
                   "---"])) by (vm_compute; reflexivity).
  split; [exact H|].
  exact (rendered_replies_ascending 0%Z (Z.eqb 0) Z.leb parse_seconds show_seconds
           quiet_search thread_store (VStr "feedback") None None 50 VNone _
           Zleb_total Zleb_trans H).
Defined.

End RagFacts.

(** ** Profile links and date ranges *)

Module DigestFacts.
Import Py Re Eff Extractor Rag Digest PyFacts ReFacts ExtractorFacts.

(** *** Bare profile urls *)

(** [LINKEDIN_REGEX] matches nowhere in a text without ['<']. *)
Lemma linkedin_regex_needs_bracket s skip :
  "<"%char ∉ s → finditer_from LINKEDIN_REGEX s skip = [].
Proof.
  revert skip. induction s as [|c s IH]; intros skip Hs; [done|].
  apply not_elem_of_cons in Hs as [Hc Hs]. simpl.
  destruct skip as [|k]; [|by apply IH].
  assert (Hm : match_here LINKEDIN_REGEX (c :: s) = None).
  { unfold match_here, LINKEDIN_REGEX. cbn [run].
    change (strip_prefix (la "<") (c :: s))
      with (if ascii_eqb "<" c then Some s else None).
    destruct (ascii_eqb "<" c) eqn:Heq; [|done].
    apply ascii_eqb_eq in Heq. congruence. }
  rewrite Hm. by apply IH.
Qed.

(** Messages without ['<'] in their text, bare profile urls among them,
    give no candidate. *)
Lemma unbracketed_messages_give_no_candidate messages channel_name :
  (∀ m, m ∈ messages →
        ∃ t, get_or m "text" (VStr "") = VStr t ∧ "<"%char ∉ la t) →
  extract_candidates messages channel_name init = (init, Ok []).
Proof.
  intros Hm.
  rewrite extract_candidates_spec.
  - assert (Hnone : flat_map (message_candidates channel_name) messages = []).
    { induction messages as [|m messages IH]; [done|]. simpl.
      destruct (Hm m) as (t & Ht & Hb); [left|].
      unfold message_candidates at 1. rewrite Ht. unfold finditer.
      rewrite linkedin_regex_needs_bracket by done. simpl.
      apply IH. intros m' Hm'. apply Hm. by right. }
    by rewrite Hnone.
  - intros m Hin. destruct (Hm m Hin) as (t & Ht & _). by exists t.
Qed.

Definition bare_link : Message :=
  {[ "ts" := VStr "1"; "text" := VStr "https://linkedin.com/in/jdoe2" ]}.
Definition labelled_link : Message :=
  {[ "ts" := VStr "2"; "text" := VStr "<https://linkedin.com/in/jdoe|Jane Doe>" ]}.

(** C5, on the code. [extract_candidates] recognises the bracketed,
    labelled link and gives one candidate for it, but gives no candidate
    for a bare profile url; the pattern of [enrich_message] recognises
    both and names the bare profile by its slug. *)
Theorem bare_profile_url_gives_no_candidate :
  extract_candidates [bare_link] "chan" init = (init, Ok []) ∧
  snd (extract_candidates [bare_link; labelled_link] "chan" init)
    = Ok [mkCandidate "Jane Doe" "https://linkedin.com/in/jdoe" (VStr "2") (VStr "2")
                      "chan" (VStr "") "<https://linkedin.com/in/jdoe|Jane Doe>"] ∧
  linkedin_profiles "https://linkedin.com/in/jdoe2"
    = [mkProfile "jdoe2" "https://linkedin.com/in/jdoe2"] ∧
  linkedin_profiles "<https://linkedin.com/in/jdoe|Jane Doe>"
    = [mkProfile "Jane Doe" "https://linkedin.com/in/jdoe"].
Proof. repeat split; vm_compute; reflexivity. Qed.

(** *** What [enrich_message] does with a bare url *)

(** The class [[^>\s|]] of the slug. *)
Definition slug_class : cclass := CClass true [">"; "|"]%char true.

Lemma plus_rests_all cl s :
  s ≠ [] → Forall (λ c, cc_matches cl c = true) s →
  ∃ others, plus_rests cl s = [] :: others.
Proof.
  induction s as [|c s IH]; intros Hne Hall; [done|].
  apply Forall_cons in Hall as [Hc Hall]. simpl. rewrite Hc.
  destruct s as [|c' s]; [by exists []|].
  destruct IH as [others ->]; [done|done|]. by eexists.
Qed.

Lemma finditer_from_skip_all (r : re) (s : list ascii) (k : nat) :
  (length s ≤ k)%nat → finditer_from r s k = [].
Proof.
  revert k. induction s as [|c s IH]; intros k Hk; [done|].
  simpl in *. destruct k as [|k]; [lia|]. apply IH. lia.
Qed.

(** The first alternative of a concatenation. *)
Lemma head_run_cat r1 r2 s cp x others y :
  run r1 s cp = x :: others →
  head (run r2 x.1 x.2) = Some y →
  head (run (Cat r1 r2) s cp) = Some y.
Proof.
  intros H1 H2. cbn [run]. rewrite H1. cbn [flat_map].
  destruct (run r2 x.1 x.2) as [|z zs]; [done|]. simpl in *. done.
Qed.

(** At a bare url the pattern takes the optional scheme, then the whole
    slug as group 1, and no label. *)
Lemma bare_url_match slug :
  slug ≠ [] → Forall (λ c, cc_matches slug_class c = true) slug →
  match_here linkedin_pattern (la "https://linkedin.com/in/" ++ slug)
  = Some ([], [(1, slug)]).
Proof.
  intros Hne Hall. destruct (plus_rests_all _ _ Hne Hall) as [others Hp].
  unfold match_here, linkedin_pattern.
  eapply head_run_cat; [reflexivity|]. 
  eapply head_run_cat; [reflexivity|].
  eapply head_run_cat; [reflexivity|].
  eapply head_run_cat.
  - cbn [run fst snd]. unfold slug_class in Hp. rewrite Hp. cbn [map fst snd length].
    rewrite Nat.sub_0_r, firstn_all. reflexivity.
  - reflexivity.
Qed.

Lemma finditer_from_whole (r : re) (s : list ascii) (cp : caps) :
  s ≠ [] → match_here r s = Some ([], cp) → finditer_from r s 0 = [cp].
Proof.
  intros Hne Hm. destruct s as [|c s]; [done|].
  cbn [finditer_from]. rewrite Hm. f_equal.
  apply finditer_from_skip_all. simpl. lia.
Qed.

(** For a bare profile url whose slug has no blank, ['>'] or ['|'],
    [enrich_message] records one profile, named by the slug. *)
Lemma bare_url_profile slug :
  slug ≠ [] → Forall (λ c, cc_matches slug_class c = true) slug →
  linkedin_profiles (of_la (la "https://linkedin.com/in/" ++ slug))
  = [mkProfile (of_la slug) ("https://linkedin.com/in/" +:+ of_la slug)].
Proof.
  intros Hne Hall. unfold linkedin_profiles, finditer. rewrite la_of_la.
  rewrite (finditer_from_whole _ _ [(1, slug)]).
  - reflexivity.
  - intros H. apply app_eq_nil in H as [_ H]. done.
  - by apply bare_url_match.
Qed.

(** *** The default date range *)

(** The start that the default branch computes is a Monday, one to two
    weeks back, and still carries the microseconds and the [tzinfo] of
    [now]. *)
Lemma default_start_is_aware_monday tz wall :
  let now := datetime_now tz wall in
  let start_date := replace_hms (add_days now (- (weekday now + 7))) 0 0 0 in
  weekday start_date = 0%Z ∧
  (dt_day wall - 13 ≤ dt_day start_date ≤ dt_day wall - 7)%Z ∧
  dt_microsecond start_date = dt_microsecond wall ∧
  dt_tzinfo start_date = Some (tz wall).
Proof.
  unfold weekday. simpl.
  pose proof (Z.mod_pos_bound (dt_day wall + 3) 7) as Hb.
  repeat split; try lia.
  replace (dt_day wall + - ((dt_day wall + 3) mod 7 + 7) + 3)%Z
    with ((dt_day wall + 3) - (dt_day wall + 3) mod 7 + (-1) * 7)%Z by lia.
  rewrite Z.mod_add by lia. rewrite Zminus_mod_idemp_r.
  replace (dt_day wall + 3 - (dt_day wall + 3))%Z with 0%Z by lia. done.
Qed.

(** C9, on the code. Without an explicit start date [get_date_range]
    raises, whatever the time, the timezone and the end date: the start it
    computes from [datetime.now(tz)] is aware, and [tz.localize] refuses
    it. *)
Theorem get_date_range_default_raises
    (strptime : string → res datetime) (tz : Timezone) (wall_clock : datetime)
    (end_date_str : pyval) :
  get_date_range strptime tz wall_clock VNone end_date_str
    = Raise (ValueError "Not naive datetime (tzinfo is already set)").
Proof. reflexivity. Qed.

(** With an explicit start date the range is the one asked for: for
    2024-01-01 (day 19723, a Monday) in a zone six hours behind UTC, from
    that day 00:00:00 to the Sunday after, 23:59:59. *)
Example get_date_range_explicit_start :
  get_date_range
    (λ _, Ok (mkDatetime 19723 0 0 0 0 None)) (λ _, (-21600)%Z)
    (mkDatetime 19732 15 30 0 250000 None) (VStr "2024-01-01") VNone
  = Ok (((19723 * 86400 + 21600) * 1000000)%Z,
        ((19729 * 86400 + 23 * 3600 + 59 * 60 + 59 + 21600) * 1000000)%Z).
Proof. reflexivity. Qed.

(** *** What the profile pattern accepts *)

Lemma run_plain r s cp s' cp' :
  no_groups r = true → (s', cp') ∈ run r s cp → cp' = cp ∧ ∃ taken, s = taken ++ s'.
Proof.
  intros Hng H. split; [by eapply run_no_groups | by eapply run_suffix].
Qed.

Lemma run_opt r s cp s' cp' :
  (s', cp') ∈ run (Opt r) s cp → (s', cp') ∈ run r s cp ∨ (s' = s ∧ cp' = cp).
Proof.
  cbn [run]. intros H. apply elem_of_app in H as [H|H]; [by left|].
  apply list_elem_of_singleton in H. injection H as -> ->. by right.
Qed.

Lemma plus_rests_class cl s s' :
  s' ∈ plus_rests cl s →
  ∃ taken, taken ≠ [] ∧ s = taken ++ s' ∧ Forall (λ c, cc_matches cl c = true) taken.
Proof.
  revert s'. induction s as [|c s IH]; intros s'; simpl.
  - intros H. by apply elem_of_nil in H.
  - destruct (cc_matches cl c) eqn:Hc; [|intros H; by apply elem_of_nil in H].
    intros H. apply elem_of_app in H as [H|H].
    + destruct (IH _ H) as (taken & _ & -> & Hall). exists (c :: taken).
      split; [done|]. split; [done|]. by constructor.
    + apply list_elem_of_singleton in H as ->. exists [c].
      split; [done|]. split; [done|]. by repeat constructor.
Qed.

Lemma run_grp_plus n cl s cp s' cp' :
  (s', cp') ∈ run (Grp n (Plus cl)) s cp →
  ∃ g, cp' = (n, g) :: cp ∧ s = g ++ s' ∧ g ≠ [] ∧
       Forall (λ c, cc_matches cl c = true) g.
Proof.
  intros H. destruct (run_grp n (Plus cl) s cp s' cp' eq_refl H) as (g & -> & ->).
  exists g. split; [done|]. split; [done|].
  cbn [run] in H. apply list_elem_of_fmap in H as ([s1 cp1] & Heq & H).
  apply list_elem_of_fmap in H as (s0 & Heq0 & H).
  injection Heq0 as -> ->. simpl in Heq. injection Heq as -> _.
  destruct (plus_rests_class _ _ _ H) as (taken & Hne & Hs & Hall).
  apply app_inv_tail in Hs as ->. done.
Qed.

Lemma slug_class_spec c :
  cc_matches slug_class c = true ↔
  c ≠ ">"%char ∧ c ≠ "|"%char ∧ is_space c = false.
Proof.
  unfold cc_matches, slug_class. simpl. rewrite orb_false_r.
  destruct (ascii_eqb c ">") eqn:H1.
  { apply ascii_eqb_eq in H1. split; [done | by intros [? _]]. }
  destruct (ascii_eqb c "|") eqn:H2.
  { apply ascii_eqb_eq in H2. split; [done | by intros (_ & ? & _)]. }
  assert (Hn1 : c ≠ ">"%char) by (intros ->; vm_compute in H1; discriminate).
  assert (Hn2 : c ≠ "|"%char) by (intros ->; vm_compute in H2; discriminate).
  simpl. destruct (is_space c); simpl; split; try done. by intros (_ & _ & ?).
Qed.

Lemma linkedin_pattern_run s rest cp :
  (rest, cp) ∈ run linkedin_pattern s [] →
  ∃ slug, slug ≠ [] ∧ Forall (λ c, cc_matches slug_class c = true) slug ∧
          infix slug s ∧
          (cp = [(1, slug)] ∨
           ∃ label, label ≠ [] ∧ infix label s ∧ cp = [(2, label); (1, slug)]).
Proof.
  unfold linkedin_pattern. intros H.
  apply run_cat in H as (s1 & cp1 & H1 & H).
  apply run_plain in H1 as [-> [t1 ->]]; [|reflexivity].
  apply run_cat in H as (s2 & cp2 & H2 & H).
  apply run_plain in H2 as [-> [t2 ->]]; [|reflexivity].
  apply run_cat in H as (s3 & cp3 & H3 & H).
  apply run_lit in H3 as [-> ->].
  apply run_cat in H as (s4 & cp4 & H4 & H).
  apply run_grp_plus in H4 as (slug & -> & -> & Hne & Hall).
  exists slug. split; [done|]. split; [done|]. split.
  { exists (t1 ++ t2 ++ la "linkedin.com/in/"), s4. by rewrite <- !app_assoc. }
  apply run_opt in H as [H|[-> ->]]; [|by left].
  right. apply run_cat in H as (s5 & cp5 & H5 & H).
  apply run_lit in H5 as [-> ->].
  apply run_grp_plus in H as (label & -> & -> & Hne' & _).
  exists label. split; [done|]. split; [|done].
  exists (t1 ++ t2 ++ la "linkedin.com/in/" ++ slug ++ la "|"), rest.
  by rewrite <- !app_assoc.
Qed.

(** X16. Every profile that [enrich_message] records has the canonical
    url [https://linkedin.com/in/] followed by a slug that stands in the
    text, is not empty and has no blank, ['>'] or ['|']; its name is the
    slug, or a label of the text that is not empty. The scheme and the
    [www.] of the link as written are dropped. *)
Theorem linkedin_profiles_canonical text p :
  p ∈ linkedin_profiles text →
  ∃ slug,
    slug ≠ [] ∧
    Forall (λ c, c ≠ ">"%char ∧ c ≠ "|"%char ∧ is_space c = false) slug ∧
    infix slug (la text) ∧
    profile_url p = "https://linkedin.com/in/" +:+ of_la slug ∧
    (profile_name p = of_la slug ∨
     ∃ label, label ≠ [] ∧ infix label (la text) ∧ profile_name p = of_la label).
Proof.
  unfold linkedin_profiles, finditer. intros H.
  apply list_elem_of_fmap in H as (mt & -> & H).
  apply finditer_from_elem in H as (before & s' & rest & Ht & Hm).
  apply match_here_run, linkedin_pattern_run in Hm
    as (slug & Hne & Hall & Hin & Hcp).
  assert (Hsub : ∀ x, infix x s' → infix x (la text)).
  { intros x Hx. rewrite Ht. eapply infix_trans; [exact Hx|].
    exists before, []. by rewrite app_nil_r. }
  exists slug. split; [done|]. split.
  { eapply Forall_impl; [exact Hall|]. intros c. apply slug_class_spec. }
  split; [by apply Hsub|].
  destruct Hcp as [->|(label & Hl & Hlin & ->)].
  - split; [reflexivity|]. by left.
  - split; [reflexivity|]. right. exists label. split; [done|]. split; [by apply Hsub|].
    unfold profile_of_match. simpl. destruct label; done.
Qed.

Lemma linkedin_profiles_canonical_witness :
  mkProfile "Jane" "https://linkedin.com/in/jdoe"
    ∈ linkedin_profiles "see <http://www.linkedin.com/in/jdoe|Jane>" ∧
  ∃ slug,
    slug ≠ [] ∧
    Forall (λ c, c ≠ ">"%char ∧ c ≠ "|"%char ∧ is_space c = false) slug ∧
    infix slug (la "see <http://www.linkedin.com/in/jdoe|Jane>") ∧
    profile_url (mkProfile "Jane" "https://linkedin.com/in/jdoe")
      = "https://linkedin.com/in/" +:+ of_la slug ∧
    (profile_name (mkProfile "Jane" "https://linkedin.com/in/jdoe") = of_la slug ∨
     ∃ label, label ≠ [] ∧
              infix label (la "see <http://www.linkedin.com/in/jdoe|Jane>") ∧
              profile_name (mkProfile "Jane" "https://linkedin.com/in/jdoe")
                = of_la label).
Proof.
  assert (H : mkProfile "Jane" "https://linkedin.com/in/jdoe"
                ∈ linkedin_profiles "see <http://www.linkedin.com/in/jdoe|Jane>").
  { replace (linkedin_profiles "see <http://www.linkedin.com/in/jdoe|Jane>")
      with [mkProfile "Jane" "https://linkedin.com/in/jdoe"]
      by (vm_compute; reflexivity).
    left. }
  split; [exact H|].
  exact (linkedin_profiles_canonical _ _ H).
Defined.

(** *** An explicit start date *)

(** X17. With a start date and no end date, [get_date_range] ends the
    range seven days less one second after its start, counted in elapsed
    time: the end is the wall-clock time 23:59:59 six days later at the
    UTC offset of the start, whether or not the zone changes its offset
    in between. *)
Theorem explicit_start_spans_a_week (strptime : string → res datetime)
    (tz : Timezone) (wall_clock : datetime) start_date_str end_date_str d :
  truthy start_date_str = true →
  truthy end_date_str = false →
  strptime (py_str start_date_str) = Ok d →
  dt_tzinfo d = None →
  let start_ts :=
    ((dt_day d * 86400 - tz (replace_hms d 0 0 0)) * 1000000 + dt_microsecond d)%Z in
  get_date_range strptime tz wall_clock start_date_str end_date_str
  = Ok (start_ts, (start_ts + 604799 * 1000000)%Z).
Proof.
  intros Hs He Hd Hnaive start_ts. unfold get_date_range.
  rewrite Hs, He, Hd. simpl. unfold localize. simpl. rewrite Hnaive. simpl.
  unfold timestamp. simpl. subst start_ts. do 2 f_equal; lia.
Qed.

Lemma explicit_start_spans_a_week_witness :
  get_date_range
    (λ _, Ok (mkDatetime 19723 0 0 0 0 None)) (λ _, (-21600)%Z)
    (mkDatetime 19732 15 30 0 250000 None) (VStr "2024-01-01") VNone
  = Ok (((19723 * 86400 - -21600) * 1000000 + 0)%Z,
        ((19723 * 86400 - -21600) * 1000000 + 0 + 604799 * 1000000)%Z).
Proof.
  exact (explicit_start_spans_a_week
           (λ _, Ok (mkDatetime 19723 0 0 0 0 None)) (λ _, (-21600)%Z)
           (mkDatetime 19732 15 30 0 250000 None) (VStr "2024-01-01") VNone
           (mkDatetime 19723 0 0 0 0 None) eq_refl eq_refl eq_refl eq_refl).
Defined.

(** *** Paging *)

(** The pages that the calls return along the chain of cursors from
    [cursor], and how the chain ends: with a page that has no next cursor
    ([None]), or with a call that raises. *)
Inductive chain (call : pyval → res Page) : pyval → list Page → option exn → Prop :=
| chain_last cursor p :
    call cursor = Ok p → truthy (next_cursor p) = false →
    chain call cursor [p] None
| chain_raise cursor e :
    call cursor = Raise e → chain call cursor [] (Some e)
| chain_more cursor p ps o :
    call cursor = Ok p → truthy (next_cursor p) = true →
    chain call (next_cursor p) ps o →
    chain call cursor (p :: ps) o.

Lemma paginate_chain call cursor pages o :
  chain call cursor pages o →
  ∀ fuel acc, (length pages < fuel)%nat →
    paginate fuel call cursor acc
    = Some (match o with
            | Some e =>
                if is_slack_api_error e
                then Ok (acc ++ flat_map page_messages pages)
                else Raise e
            | None => Ok (acc ++ flat_map page_messages pages)
            end).
Proof.
  induction 1 as [cursor p Hc Hn|cursor e Hc|cursor p ps o Hc Hn Hch IH];
    intros fuel acc Hfuel; (destruct fuel as [|fuel]; [simpl in Hfuel; lia|]);
    cbn [paginate]; rewrite Hc.
  - rewrite Hn. simpl. by rewrite app_nil_r.
  - simpl. rewrite app_nil_r. by destruct (is_slack_api_error e).
  - rewrite Hn, IH by (simpl in Hfuel; lia). simpl.
    rewrite <- !app_assoc. done.
Qed.

(** X18. [get_conversation_history] and [get_thread_messages] follow the
    cursors: when the pages end after finitely many calls, the loop
    stops and returns the messages of all pages in the order received.
    When a call raises [SlackApiError], the messages of the pages before
    are returned as if they were all; any other exception leaves the
    loop. *)
Theorem paging_returns_pages_fetched (call : pyval → res Page) pages o fuel :
  chain call VNone pages o →
  (length pages < fuel)%nat →
  let outcome :=
    Some (match o with
          | Some e =>
              if is_slack_api_error e
              then Ok (flat_map page_messages pages)
              else Raise e
          | None => Ok (flat_map page_messages pages)
          end) in
  get_conversation_history fuel call = outcome ∧
  get_thread_messages fuel call = outcome.
Proof.
  intros Hch Hfuel. unfold get_conversation_history, get_thread_messages.
  by rewrite (paginate_chain _ _ _ _ Hch fuel [] Hfuel).
Qed.

Definition two_pages : pyval → res Page :=
  λ cursor,
    match cursor with
    | VNone => Ok (mkPage [bare_link] (VStr "next"))
    | VStr "next" => Ok (mkPage [labelled_link] (VStr "more"))
    | VStr _ => Raise (Exn "SlackApiError" "ratelimited")
    end.

Lemma paging_returns_pages_fetched_witness :
  chain two_pages VNone
        [mkPage [bare_link] (VStr "next"); mkPage [labelled_link] (VStr "more")]
        (Some (Exn "SlackApiError" "ratelimited")) ∧
  get_conversation_history 5 two_pages = Some (Ok [bare_link; labelled_link]) ∧
  get_thread_messages 5 two_pages = Some (Ok [bare_link; labelled_link]).
Proof.
  assert (H : chain two_pages VNone
        [mkPage [bare_link] (VStr "next"); mkPage [labelled_link] (VStr "more")]
        (Some (Exn "SlackApiError" "ratelimited"))).
  { apply chain_more; [reflexivity | reflexivity |].
    apply chain_more; [reflexivity | reflexivity |].
    apply chain_raise. reflexivity. }
  split; [exact H|].
  exact (paging_returns_pages_fetched two_pages _ _ 5 H ltac:(simpl; lia)).
Defined.

(** *** The forms of a profile link *)

Lemma linkedin_pattern_whole prefix slug :
  prefix ∈ [""; "www."; "http://"; "https://"; "http://www."; "https://www."] →
  slug ≠ [] → Forall (λ c, cc_matches slug_class c = true) slug →
  match_here linkedin_pattern (la prefix ++ la "linkedin.com/in/" ++ slug)
  = Some ([], [(1, slug)]).
Proof.
  intros Hp Hne Hall. destruct (plus_rests_all _ _ Hne Hall) as [others Hpl].
  unfold match_here, linkedin_pattern.
  rewrite !elem_of_cons, elem_of_nil in Hp.
  destruct Hp as [->|[->|[->|[->|[->|[->|[]]]]]]];
    (eapply head_run_cat; [reflexivity|];
     eapply head_run_cat; [reflexivity|];
     eapply head_run_cat; [reflexivity|];
     eapply head_run_cat;
       [cbn [run fst snd]; unfold slug_class in Hpl; rewrite Hpl;
        cbn [map fst snd length]; rewrite Nat.sub_0_r, firstn_all; reflexivity
       | reflexivity]).
Qed.

(** X23. [enrich_message] takes a profile link with or without scheme
    and with or without [www.]: for each of the six forms, a text that is
    just the link, with a slug free of blanks, ['>'] and ['|'], gives one
    profile, named by the slug, with the same canonical url. *)
Theorem profile_link_forms prefix slug :
  prefix ∈ [""; "www."; "http://"; "https://"; "http://www."; "https://www."] →
  slug ≠ [] →
  Forall (λ c, c ≠ ">"%char ∧ c ≠ "|"%char ∧ is_space c = false) slug →
  linkedin_profiles (prefix +:+ "linkedin.com/in/" +:+ of_la slug)
  = [mkProfile (of_la slug) ("https://linkedin.com/in/" +:+ of_la slug)].
Proof.
  intros Hp Hne Hall.
  assert (Hall' : Forall (λ c, cc_matches slug_class c = true) slug).
  { eapply Forall_impl; [exact Hall|]. intros c. apply slug_class_spec. }
  unfold linkedin_profiles, finditer.
  replace (la (prefix +:+ "linkedin.com/in/" +:+ of_la slug))
    with (la prefix ++ la "linkedin.com/in/" ++ slug).
  2:{ rewrite !la_app, la_of_la. done. }
  rewrite (finditer_from_whole _ _ [(1, slug)]).
  - reflexivity.
  - intros H. apply app_eq_nil in H as [_ H]. done.
  - by apply linkedin_pattern_whole.
Qed.

Lemma profile_link_forms_witness :
  "www." ∈ [""; "www."; "http://"; "https://"; "http://www."; "https://www."] ∧
  linkedin_profiles ("www." +:+ "linkedin.com/in/" +:+ of_la (la "jdoe"))
  = [mkProfile (of_la (la "jdoe")) ("https://linkedin.com/in/" +:+ of_la (la "jdoe"))].
Proof.
  assert (Hp : "www." ∈ [""; "www."; "http://"; "https://"; "http://www."; "https://www."])
    by (right; left).
  assert (Hne : la "jdoe" ≠ []) by discriminate.
  assert (Hall : Forall (λ c, c ≠ ">"%char ∧ c ≠ "|"%char ∧ is_space c = false)
                        (la "jdoe")).
  { repeat constructor; discriminate. }
  split; [exact Hp|].
  exact (profile_link_forms "www." (la "jdoe") Hp Hne Hall).
Defined.

End DigestFacts.

(** ** Indexing *)

Module IndexFacts.
Import Py Re Eff Extractor Rag PyFacts EffFacts ReFacts ExtractorFacts RagFacts.

(** The message names the candidate entry: its text has the name or the
    url, letter for letter. *)
Definition named_by (c : Candidate) (msg : Message) : bool :=
  match get_or msg "text" (VStr "") with
  | VStr t => contains (name c) t || contains (linkedin_url c) t
  | VNone => false
  end.

(** One copy of the message for every entry of [candidates] with this
    url that the message names. *)
Definition copies (candidates : list Candidate) (url : string) (msg : Message)
    : list Message :=
  flat_map (λ c, if bool_decide (linkedin_url c = url) && named_by c msg
                 then [msg] else [])
           candidates.

Definition group_of (candidates : list Candidate) (url : string)
    (messages : list Message) : list Message :=
  flat_map (copies candidates url) messages.

Lemma od_keys_set_mem {V} (k : string) (v : V) (d : odict string V) :
  od_mem k d = true → od_keys (od_set k v d) = od_keys d.
Proof. intros H. by rewrite od_keys_set, H. Qed.

Lemma od_mem_keys {V} (k : string) (d d' : odict string V) :
  od_keys d' = od_keys d → od_mem k d' = od_mem k d.
Proof.
  intros Hk. unfold od_mem.
  destruct (od_get k d') eqn:H1, (od_get k d) eqn:H2; try done.
  - apply od_get_None in H2. rewrite <- Hk in H2. apply od_get_None in H2. congruence.
  - apply od_get_None in H1. rewrite Hk in H1. apply od_get_None in H1. congruence.
Qed.

Lemma group_inner msg (cs : list Candidate) :
  has_text msg →
  ∀ d : odict string (list Message),
    (∀ c, c ∈ cs → od_mem (linkedin_url c) d = true) →
    ∃ d',
      fold_res (λ d c,
                  and_then (names_candidate c (get_or msg "text" (VStr ""))) (λ named,
                    if named : bool then
                      and_then (od_index (linkedin_url c) d) (λ l,
                        Ok (od_set (linkedin_url c) (l ++ [msg]) d))
                    else Ok d))
               cs d = Ok d' ∧
      od_keys d' = od_keys d ∧
      ∀ url, od_get url d' = (λ l, l ++ copies cs url msg) <$> od_get url d.
Proof.
  intros [t Ht].
  match goal with |- context [fold_res ?f _ _] => set (body := f) end.
  assert (Hbody : ∀ d c l,
            od_get (linkedin_url c) d = Some l →
            body d c = Ok (if named_by c msg
                           then od_set (linkedin_url c) (l ++ [msg]) d else d)).
  { intros d c l Hl. unfold body, names_candidate, named_by, od_index.
    rewrite Ht, Hl. simpl.
    by destruct (contains (name c) t || contains (linkedin_url c) t). }
  clearbody body.
  induction cs as [|c cs IH]; intros d Hmem.
  - exists d. split; [done|]. split; [done|]. intros url. unfold copies. simpl.
    destruct (od_get url d); simpl; [by rewrite app_nil_r | done].
  - cbn [fold_res].
    pose proof (Hmem c ltac:(left)) as Hc. unfold od_mem in Hc.
    destruct (od_get (linkedin_url c) d) as [l|] eqn:Hl; [|done].
    rewrite (Hbody d c l Hl). cbn [and_then].
    destruct (named_by c msg) eqn:Hn.
    + destruct (IH (od_set (linkedin_url c) (l ++ [msg]) d)) as (d' & Hrun & Hk & Hget).
      { intros c' Hc'. erewrite od_mem_keys; [apply Hmem; by right|].
        apply od_keys_set_mem. unfold od_mem. by rewrite Hl. }
      exists d'. split; [done|]. split.
      { rewrite Hk. apply od_keys_set_mem. unfold od_mem. by rewrite Hl. }
      intros url. rewrite Hget. unfold copies. cbn [flat_map]. rewrite Hn.
      destruct (decide (linkedin_url c = url)) as [<-|Hne].
      * rewrite od_get_set_eq, Hl. simpl. rewrite bool_decide_eq_true_2 by done.
        simpl. by rewrite <- app_assoc.
      * rewrite od_get_set_ne by done. rewrite bool_decide_eq_false_2 by done. done.
    + destruct (IH d) as (d' & Hrun & Hk & Hget).
      { intros c' Hc'. apply Hmem. by right. }
      exists d'. split; [done|]. split; [done|].
      intros url. rewrite Hget. unfold copies. cbn [flat_map]. rewrite Hn.
      by rewrite andb_false_r.
Qed.

Lemma group_outer (cs : list Candidate) (messages : list Message) :
  (∀ m, m ∈ messages → has_text m) →
  ∀ d : odict string (list Message),
    (∀ c, c ∈ cs → od_mem (linkedin_url c) d = true) →
    ∃ d',
      fold_res (λ d msg,
                  fold_res (λ d c,
                              and_then (names_candidate c (get_or msg "text" (VStr "")))
                                (λ named,
                                   if named : bool then
                                     and_then (od_index (linkedin_url c) d) (λ l,
                                       Ok (od_set (linkedin_url c) (l ++ [msg]) d))
                                   else Ok d))
                           cs d)
               messages d = Ok d' ∧
      od_keys d' = od_keys d ∧
      ∀ url, od_get url d' = (λ l, l ++ group_of cs url messages) <$> od_get url d.
Proof.
  induction messages as [|msg messages IH]; intros Htext d Hmem.
  - exists d. split; [done|]. split; [done|]. intros url. unfold group_of. simpl.
    destruct (od_get url d); simpl; [by rewrite app_nil_r | done].
  - cbn [fold_res].
    destruct (group_inner msg cs (Htext msg ltac:(left)) d Hmem)
      as (d1 & Hrun1 & Hk1 & Hget1).
    rewrite Hrun1. cbn [and_then].
    destruct (IH (λ m Hm, Htext m ltac:(by right)) d1) as (d' & Hrun & Hk & Hget).
    { intros c Hc. erewrite od_mem_keys; [by apply Hmem | done]. }
    exists d'. split; [done|]. split; [congruence|].
    intros url. rewrite Hget, Hget1. unfold group_of. cbn [flat_map].
    destruct (od_get url d); simpl; [by rewrite <- app_assoc | done].
Qed.

Lemma empty_groups_spec (cs : list Candidate) :
  NoDup (od_keys (empty_groups cs)) ∧
  (∀ c, c ∈ cs → od_mem (linkedin_url c) (empty_groups cs) = true) ∧
  (∀ url l, od_get url (empty_groups cs) = Some l → l = []).
Proof.
  unfold empty_groups. induction cs as [|c cs IH] using rev_ind.
  - split; [constructor|]. split; [|done]. intros c Hc. by apply elem_of_nil in Hc.
  - rewrite fold_left_app. simpl. destruct IH as (Hnd & Hmem & Hnil).
    split; [by apply od_keys_set_NoDup|]. split.
    + intros c' Hc'. unfold od_mem.
      destruct (decide (linkedin_url c = linkedin_url c')) as [Heq|Hne].
      * by rewrite <- Heq, od_get_set_eq.
      * rewrite od_get_set_ne by done. apply elem_of_app in Hc' as [Hc'|Hc'].
        -- by apply Hmem.
        -- apply list_elem_of_singleton in Hc'. congruence.
    + intros url l. destruct (decide (linkedin_url c = url)) as [<-|Hne].
      * rewrite od_get_set_eq. by intros [= <-].
      * rewrite od_get_set_ne by done. apply Hnil.
Qed.

(** The dict is determined by its keys and its look-ups. *)
Lemma od_tabulate {V} (d : odict string V) (g : string → V) :
  NoDup (od_keys d) →
  (∀ k v, od_get k d = Some v → v = g k) →
  d = map (λ k, (k, g k)) (od_keys d).
Proof.
  induction d as [|[k v] d IH]; intros Hnd Hg; [done|].
  simpl in Hnd. apply NoDup_cons in Hnd as [Hk Hnd]. simpl. f_equal.
  - f_equal. apply Hg. simpl. by rewrite decide_True.
  - apply IH; [done|]. intros k' v' Hk'. apply Hg. simpl.
    rewrite decide_False; [done|]. intros ->. apply Hk.
    apply od_get_elem in Hk'. apply list_elem_of_fmap. by exists (k, v').
Qed.

(** The grouping of [index_slack_messages]: under each url of the
    candidates, the messages that name an entry with this url, a copy for
    each such entry. *)
Lemma candidate_messages_of_spec (cs : list Candidate) (messages : list Message) :
  (∀ m, m ∈ messages → has_text m) →
  candidate_messages_of cs messages
  = Ok (map (λ url, (url, group_of cs url messages)) (od_keys (empty_groups cs))).
Proof.
  intros Htext. unfold candidate_messages_of.
  destruct (empty_groups_spec cs) as (Hnd & Hmem & Hnil).
  destruct (group_outer cs messages Htext (empty_groups cs) Hmem)
    as (d' & Hrun & Hk & Hget).
  rewrite Hrun. f_equal. rewrite <- Hk. apply od_tabulate; [by rewrite Hk|].
  intros k v Hv. rewrite Hget in Hv.
  destruct (od_get k (empty_groups cs)) as [l|] eqn:Hl; [|done].
  apply Hnil in Hl as ->. simpl in Hv. by injection Hv as <-.
Qed.

Lemma group_of_elem cs url messages m :
  m ∈ group_of cs url messages → m ∈ messages.
Proof.
  unfold group_of, copies. intros H.
  apply list_elem_of_In, in_flat_map in H as (msg & Hmsg & H).
  apply in_flat_map in H as (c & _ & H).
  destruct (bool_decide (linkedin_url c = url) && named_by c msg); [|done].
  destruct H as [<-|[]]. by apply list_elem_of_In.
Qed.

(** **** The main parent of a reply *)

Lemma get_main_parent_text_reply depth msg (all_msgs : list Message) :
  (2 ≤ depth)%nat →
  is_thread_reply msg = true →
  (∀ p, p ∈ all_msgs → get p "ts" = get msg "thread_ts" → is_thread_reply p = false) →
  get_main_parent_text depth msg all_msgs
  = Ok (match find (λ m, py_eqb (get m "ts") (get msg "thread_ts")) all_msgs with
        | Some parent =>
            if bool_decide (parent = ∅) then VStr "[Parent: unknown]"
            else get_or parent "text" (VStr "")
        | None => VStr "[Parent: unknown]"
        end).
Proof.
  intros Hd Hr Hflat. destruct depth as [|[|depth]]; [lia | lia |].
  unfold is_thread_reply in Hr. apply andb_prop in Hr as [Ht Hne].
  cbn [get_main_parent_text]. rewrite Ht. cbn [negb orb].
  assert (Hne' : py_eqb (get msg "ts") (get msg "thread_ts") = false).
  { unfold py_eqb in *. apply negb_true_iff, bool_decide_eq_false in Hne.
    apply bool_decide_eq_false. congruence. }
  rewrite Hne'.
  destruct (find _ all_msgs) as [parent|] eqn:Hf; [|done].
  destruct (bool_decide (parent = ∅)); [done|].
  apply find_some in Hf as [Hin Hts]. apply list_elem_of_In in Hin.
  unfold py_eqb in Hts. apply bool_decide_eq_true in Hts.
  specialize (Hflat parent Hin Hts). unfold is_thread_reply in Hflat.
  destruct (truthy (get parent "thread_ts")) eqn:Hpt; [|done].
  simpl in Hflat. apply negb_false_iff in Hflat.
  unfold py_eqb in *. apply bool_decide_eq_true in Hflat.
  rewrite bool_decide_eq_true_2 by done. done.
Qed.

(** X20. In a thread that is flat (the message a reply points to is not
    itself a reply), [get_main_parent_text] gives for a message that is no
    reply its own text, and for a reply the text of the first message
    with the reply's [thread_ts] among the messages it is handed (those
    grouped under the candidate, not the channel's), or
    "[Parent: unknown]" when there is none among them. Two calls deep, it
    does not reach the recursion limit. *)
Theorem main_parent_of_flat_thread depth msg (all_msgs : list Message) :
  (2 ≤ depth)%nat →
  (∀ p, p ∈ all_msgs → is_thread_reply msg = true →
        get p "ts" = get msg "thread_ts" → is_thread_reply p = false) →
  get_main_parent_text depth msg all_msgs
  = Ok (if is_thread_reply msg then
          match find (λ m, py_eqb (get m "ts") (get msg "thread_ts")) all_msgs with
          | Some parent =>
              if bool_decide (parent = ∅) then VStr "[Parent: unknown]"
              else get_or parent "text" (VStr "")
          | None => VStr "[Parent: unknown]"
          end
        else get_or msg "text" (VStr "")).
Proof.
  intros Hd Hflat. destruct (is_thread_reply msg) eqn:Hr.
  - apply get_main_parent_text_reply; [done | done | by auto].
  - destruct depth as [|depth]; [lia|]. cbn [get_main_parent_text].
    unfold is_thread_reply in Hr.
    destruct (truthy (get msg "thread_ts")); [|done].
    simpl in Hr. apply negb_false_iff in Hr. unfold py_eqb in *.
    apply bool_decide_eq_true in Hr. by rewrite bool_decide_eq_true_2.
Qed.

Lemma main_parent_of_flat_thread_witness :
  (∀ p, p ∈ [demo_reply; demo_mention] → is_thread_reply demo_reply = true →
        get p "ts" = get demo_reply "thread_ts" → is_thread_reply p = false) ∧
  get_main_parent_text 2 demo_reply [demo_reply; demo_mention]
  = Ok (if is_thread_reply demo_reply then
          match find (λ m, py_eqb (get m "ts") (get demo_reply "thread_ts"))
                     [demo_reply; demo_mention] with
          | Some parent =>
              if bool_decide (parent = ∅) then VStr "[Parent: unknown]"
              else get_or parent "text" (VStr "")
          | None => VStr "[Parent: unknown]"
          end
        else get_or demo_reply "text" (VStr "")).
Proof.
  assert (Hflat : ∀ p, p ∈ [demo_reply; demo_mention] →
            is_thread_reply demo_reply = true →
            get p "ts" = get demo_reply "thread_ts" → is_thread_reply p = false).
  { intros p. rewrite !elem_of_cons, elem_of_nil.
    intros [->|[->|[]]] _; vm_compute; congruence. }
  split; [exact Hflat|].
  exact (main_parent_of_flat_thread 2 demo_reply [demo_reply; demo_mention]
           (le_n 2) Hflat).
Defined.

(** **** The calls of [collection.add] *)

Section IndexCalls.
Context {F : Type}.
Context (parse_float : string → option F) (format_ts : F → res string).
Context (collection_add : Batch → res unit).

(** The message can be indexed: its text is a string, and it has a [ts]
    that converts to a float which is a time of the platform. *)
Definition indexable (m : Message) : Prop :=
  has_text m ∧
  ∃ ts t dt, m !! "ts" = Some (VStr ts) ∧ parse_float ts = Some t ∧
             format_ts t = Ok dt.

(** The message a reply points to is not itself a reply. *)
Definition flat_threads (messages : list Message) : Prop :=
  ∀ m p, m ∈ messages → p ∈ messages →
    is_thread_reply m = true → get p "ts" = get m "thread_ts" →
    is_thread_reply p = false.

Definition entry_id (channel_name url : string) (m : Message) : string :=
  channel_name +:+ "_" +:+ py_str (get m "ts") +:+ "_" +:+ url.

Lemma index_entry_id depth channel_name cs url msgs m :
  (2 ≤ depth)%nat →
  indexable m →
  (∀ p, p ∈ msgs → is_thread_reply m = true →
        get p "ts" = get m "thread_ts" → is_thread_reply p = false) →
  ∃ e, index_entry parse_float format_ts depth channel_name cs url msgs m = Ok e ∧
       e.2 = entry_id channel_name url m.
Proof.
  intros Hd (_ & ts & t & dt & Hts & Ht & Hdt) Hflat. unfold index_entry, entry_id, get.
  rewrite Hts. simpl. rewrite Ht. cbn [and_then]. rewrite Hdt. cbn [and_then].
  destruct (is_thread_reply m) eqn:Hr.
  - rewrite (get_main_parent_text_reply depth m msgs Hd Hr); [|by auto].
    cbn [and_then]. by eexists.
  - cbn [and_then]. by eexists.
Qed.

(** A [ts] that [datetime.fromtimestamp] refuses ends the entry with
    its error, before any text is built. *)
Lemma index_entry_out_of_range depth channel_name cs url msgs m ts t e :
  m !! "ts" = Some (VStr ts) → parse_float ts = Some t → format_ts t = Raise e →
  index_entry parse_float format_ts depth channel_name cs url msgs m = Raise e.
Proof.
  intros Hts Ht He. unfold index_entry. rewrite Hts. simpl. rewrite Ht.
  cbn [and_then]. by rewrite He.
Qed.

Lemma map_res_entries {A B} (f : A → res B) (g : B → string) (h : A → string)
    (l : list A) :
  (∀ x, x ∈ l → ∃ y, f x = Ok y ∧ g y = h x) →
  ∃ ys, map_res f l = Ok ys ∧ map g ys = map h l.
Proof.
  induction l as [|x l IH]; intros Hf; [by exists []|].
  destruct (Hf x) as (y & Hy & Hg); [left|].
  destruct IH as (ys & Hys & Hm); [intros z Hz; apply Hf; by right|].
  exists (y :: ys). simpl. rewrite Hy, Hys. split; [done|]. simpl. by rewrite Hg, Hm.
Qed.

(** The loop over the groups makes one call for each group that is not
    empty, and does nothing else that could raise. *)
Lemma index_groups_calls depth channel_name cs (messages : list Message)
    (G : string → list Message) (urls : list string) :
  (2 ≤ depth)%nat →
  (∀ url m, m ∈ G url → m ∈ messages) →
  (∀ m, m ∈ messages → indexable m) →
  flat_threads messages →
  ∃ batches,
    (∀ handed,
       for_each (map (λ url, (url, G url)) urls)
         (λ um : string * list Message,
            match um.2 with
            | [] => ret tt
            | _ :: _ =>
                bind (lift (map_res (index_entry parse_float format_ts depth
                                                 channel_name cs um.1 um.2) um.2))
                     (λ entries,
                        add_call collection_add
                          (mkBatch (map (λ e, e.1.1) entries)
                                   (map (λ e, e.1.2) entries)
                                   (map snd entries)))
            end) handed
       = for_each batches (add_call collection_add) handed) ∧
    map ids batches
    = filter (λ l, l ≠ []) (map (λ url, map (entry_id channel_name url) (G url)) urls).
Proof.
  intros Hd HG Hidx Hflat.
  match goal with |- context [for_each (map _ urls) ?f] => set (body := f) end.
  assert (Hbody : ∀ url,
            body (url, G url)
            = match G url with
              | [] => ret tt
              | _ :: _ =>
                  bind (lift (map_res (index_entry parse_float format_ts depth
                                                   channel_name cs url (G url)) (G url)))
                       (λ entries,
                          add_call collection_add
                            (mkBatch (map (λ e, e.1.1) entries)
                                     (map (λ e, e.1.2) entries)
                                     (map snd entries)))
              end) by reflexivity.
  clearbody body.
  induction urls as [|url urls IH]; [by exists []|].
  destruct IH as (batches & Hrun & Hids).
  destruct (map_res_entries
              (index_entry parse_float format_ts depth channel_name cs url (G url))
              snd (entry_id channel_name url) (G url)) as (entries & He & Hm).
  { intros x Hx. apply index_entry_id; [done| |].
    - by apply Hidx, (HG url).
    - intros p Hp Hr Hts. apply (Hflat x p); try done; by apply (HG url). }
  cbn [map for_each]. rewrite filter_cons.
  pose proof (Hbody url) as Hb. revert Hb.
  destruct (G url) as [|m0 ms] eqn:HGu; intros Hb.
  - exists batches. split.
    + intros handed. unfold bind. rewrite Hb. simpl. apply Hrun.
    + simpl. exact Hids.
  - exists (mkBatch (map (λ e, e.1.1) entries) (map (λ e, e.1.2) entries)
                    (map snd entries) :: batches). split.
    + intros handed. unfold bind at 1. rewrite Hb.
      unfold bind at 1, lift at 1. rewrite He. cbn [for_each].
      unfold bind.
      destruct (add_call collection_add _ handed) as [handed' [[]|e]]; [|done].
      apply Hrun.
    + cbn [map ids]. rewrite Hm, Hids, decide_True; [done|].
      done.
Qed.

(** X21. What [index_slack_messages] hands to the collection. When every
    message has a string text and a [ts] that converts to a time, and
    threads are flat, nothing raises but a call of [collection.add]: the
    run is a sequence of such calls, ended by the first that raises. It
    is one call for each profile url, in the order the urls were first
    extracted, that has at least one message naming it; the ids of the
    call are [channel_ts_url] for the messages whose text has the name or
    the url of a candidate entry with this url, letter for letter, in
    message order, and once for every such entry. A message that names no
    candidate is not indexed. *)
Theorem index_slack_messages_ids depth (messages : list Message) channel_name :
  (2 ≤ depth)%nat →
  (∀ m, m ∈ messages → indexable m) →
  flat_threads messages →
  let extracted := flat_map (message_candidates channel_name) messages in
  ∃ batches,
    (∀ handed,
       index_slack_messages parse_float format_ts collection_add depth messages
                            channel_name handed
       = for_each batches (add_call collection_add) handed) ∧
    map ids batches
    = filter (λ l, l ≠ [])
        (map (λ url, map (entry_id channel_name url) (group_of extracted url messages))
             (od_keys (empty_groups extracted))).
Proof.
  intros Hd Hidx Hflat extracted.
  assert (Htext : ∀ m, m ∈ messages → has_text m) by (intros m Hm; by apply Hidx).
  destruct (index_groups_calls depth channel_name extracted messages
              (λ url, group_of extracted url messages)
              (od_keys (empty_groups extracted)) Hd) as (batches & Hrun & Hids);
    [by intros url m; apply group_of_elem | done | done |].
  exists batches. split; [|done]. intros handed.
  unfold index_slack_messages.
  pose proof (extract_candidates_spec messages channel_name init Htext) as Hex.
  cbv zeta in Hex. rewrite Hex. clear Hex.
  cbn [snd]. rewrite record_all_candidates. cbn [candidates init app].
  fold extracted. unfold bind at 1, lift at 1.
  rewrite (candidate_messages_of_spec extracted messages Htext).
  unfold bind at 1, lift at 1. apply Hrun.
Qed.

Lemma not_NoDup_twice {A} (x : A) (l1 l2 l3 : list A) :
  ¬ NoDup (l1 ++ x :: l2 ++ x :: l3).
Proof.
  intros H. apply NoDup_app in H as (_ & _ & H). apply NoDup_cons in H as [Hx _].
  apply Hx. apply elem_of_app. right. left.
Qed.

Lemma map_twice {A B} (f : A → B) (X a b c Y : list A) (m : A) :
  map f (X ++ (a ++ m :: b ++ m :: c) ++ Y)
  = (map f X ++ map f a) ++ f m :: map f b ++ f m :: (map f c ++ map f Y).
Proof.
  rewrite !map_app. cbn [map]. rewrite !map_app. cbn [map].
  rewrite <- !app_assoc. cbn [app]. rewrite <- !app_assoc. reflexivity.
Qed.

Lemma copies_twice l1 c1 l2 c2 l3 url m :
  linkedin_url c1 = url → linkedin_url c2 = url →
  named_by c1 m = true → named_by c2 m = true →
  ∃ a b c, copies (l1 ++ c1 :: l2 ++ c2 :: l3) url m = a ++ m :: b ++ m :: c.
Proof.
  intros H1 H2 Hn1 Hn2. unfold copies.
  rewrite flat_map_app. cbn [flat_map]. rewrite flat_map_app. cbn [flat_map].
  rewrite H1, H2, Hn1, Hn2, !bool_decide_eq_true_2 by done. simpl.
  by eexists _, _, _.
Qed.

(** The calls made are recorded, whatever their outcome. *)
Lemma add_calls_handed (batches : list Batch) handed :
  ∃ more, fst (for_each batches (add_call collection_add) handed) = handed ++ more.
Proof.
  revert handed. induction batches as [|b bs IH]; intros handed.
  - exists []. simpl. by rewrite app_nil_r.
  - cbn [for_each]. unfold bind, add_call at 1.
    destruct (collection_add b) as [[]|e].
    + destruct (IH (handed ++ [b])) as (more & Hmore).
      exists (b :: more). rewrite Hmore, <- app_assoc. done.
    + by exists [b].
Qed.

Lemma add_calls_accepted (before : list Batch) handed :
  (∀ b, b ∈ before → collection_add b = Ok tt) →
  for_each before (add_call collection_add) handed = (handed ++ before, Ok tt).
Proof.
  revert handed. induction before as [|b bs IH]; intros handed Hok.
  - simpl. unfold ret. by rewrite app_nil_r.
  - cbn [for_each]. unfold bind, add_call at 1. rewrite (Hok b) by left.
    rewrite IH by (intros b' Hb'; apply Hok; by right).
    by rewrite <- app_assoc.
Qed.

(** X22. A profile that two messages link gives two candidate entries
    with one url, and the grouping loop runs over the entries: a message
    that names both entries (its text has the url, say) is listed twice
    in the batch of this url, under the same id. Among the calls of
    [collection.add] that the run consists of there is one with an id
    repeated; it is made as soon as the collection has accepted the
    batches before it, and if the collection refuses it the run ends
    there with the collection's error. *)
Theorem index_slack_messages_repeats_ids depth (messages : list Message)
    channel_name l1 c1 l2 c2 l3 m :
  (2 ≤ depth)%nat →
  (∀ m, m ∈ messages → indexable m) →
  flat_threads messages →
  flat_map (message_candidates channel_name) messages
    = l1 ++ c1 :: l2 ++ c2 :: l3 →
  linkedin_url c1 = linkedin_url c2 →
  m ∈ messages →
  named_by c1 m = true → named_by c2 m = true →
  ∃ before batch after,
    (∀ handed,
       index_slack_messages parse_float format_ts collection_add depth messages
                            channel_name handed
       = for_each (before ++ batch :: after) (add_call collection_add) handed) ∧
    ¬ NoDup (ids batch) ∧
    ((∀ b, b ∈ before → collection_add b = Ok tt) →
     batch ∈ fst (index_slack_messages parse_float format_ts collection_add depth
                                       messages channel_name []) ∧
     ∀ e, collection_add batch = Raise e →
          index_slack_messages parse_float format_ts collection_add depth
                               messages channel_name []
          = (before ++ [batch], Raise e)).
Proof.
  intros Hd Hidx Hflat Hcs Hurl Hm Hn1 Hn2.
  assert (Htext : ∀ m, m ∈ messages → has_text m) by (intros m' Hm'; by apply Hidx).
  set (extracted := l1 ++ c1 :: l2 ++ c2 :: l3) in *.
  destruct (index_groups_calls depth channel_name extracted messages
              (λ url, group_of extracted url messages)
              (od_keys (empty_groups extracted)) Hd) as (batches & Hrun & Hids);
    [by intros url m'; apply group_of_elem | done | done |].
  assert (Hdup : ¬ NoDup (map (entry_id channel_name (linkedin_url c2))
                              (group_of extracted (linkedin_url c2) messages))).
  { destruct (list_elem_of_split _ _ Hm) as (p & q & Hsplit).
    unfold group_of. rewrite Hsplit, flat_map_app. cbn [flat_map].
    destruct (copies_twice l1 c1 l2 c2 l3 (linkedin_url c2) m Hurl eq_refl Hn1 Hn2)
      as (a & b & c & Hc).
    fold extracted in Hc. rewrite Hc, map_twice. apply not_NoDup_twice. }
  assert (Hin : map (entry_id channel_name (linkedin_url c2))
                    (group_of extracted (linkedin_url c2) messages)
                ∈ map ids batches).
  { rewrite Hids. apply list_elem_of_filter. split.
    - intros Hnil. apply Hdup. rewrite Hnil. constructor.
    - apply list_elem_of_fmap. exists (linkedin_url c2). split; [done|].
      destruct (empty_groups_spec extracted) as (_ & Hmem & _).
      specialize (Hmem c2). unfold od_mem in Hmem.
      destruct (od_get (linkedin_url c2) (empty_groups extracted)) as [l|] eqn:Hl.
      + apply od_get_elem in Hl. apply list_elem_of_fmap. by exists (linkedin_url c2, l).
      + exfalso. assert (false = true); [|done]. apply Hmem.
        unfold extracted. apply elem_of_app. right. right.
        apply elem_of_app. right. left. }
  apply list_elem_of_fmap in Hin as (batch & Hb & Hin).
  destruct (list_elem_of_split _ _ Hin) as (before & after & Hsplit).
  assert (Hindex : ∀ handed,
    index_slack_messages parse_float format_ts collection_add depth messages
                         channel_name handed
    = for_each (before ++ batch :: after) (add_call collection_add) handed).
  { intros handed. rewrite <- Hsplit. unfold index_slack_messages.
    pose proof (extract_candidates_spec messages channel_name init Htext) as Hex.
    cbv zeta in Hex. rewrite Hex. clear Hex.
    cbn [snd]. rewrite record_all_candidates. cbn [candidates init app].
    rewrite Hcs. fold extracted. unfold bind at 1, lift at 1.
    rewrite (candidate_messages_of_spec extracted messages Htext).
    unfold bind at 1, lift at 1. apply Hrun. }
  exists before, batch, after. split; [exact Hindex|].
  split; [by rewrite <- Hb|].
  intros Hok. rewrite Hindex, for_each_app. unfold bind.
  rewrite (add_calls_accepted before [] Hok). cbn [for_each app]. unfold bind.
  change (add_call collection_add batch before)
    with (before ++ [batch], collection_add batch).
  destruct (collection_add batch) as [[]|e].
  - split; [|done].
    destruct (add_calls_handed after (before ++ [batch])) as (more & Hmore).
    rewrite Hmore. apply elem_of_app. left.
    apply elem_of_app. right. left.
  - split; [|intros e' He'; injection He' as <-; reflexivity].
    cbn [fst]. apply elem_of_app. right. left.
Qed.

End IndexCalls.

(** Whole seconds are times of the platform; a collection that refuses
    a batch in which an id is repeated. *)
Definition format_seconds (t : Z) : res string := Ok (show_seconds t).

Definition strict_collection : Batch → res unit :=
  λ batch,
    if bool_decide (NoDup (ids batch)) then Ok tt
    else Raise (Exn "DuplicateIDError" "Expected IDs to be unique").

Lemma demo_corpus_indexable m :
  m ∈ demo_corpus → indexable parse_seconds format_seconds m.
Proof.
  intros Hm. split; [by apply demo_corpus_has_text|].
  unfold demo_corpus in Hm. rewrite !elem_of_cons, elem_of_nil in Hm.
  destruct Hm as [->|[->|[->|[->|[]]]]].
  - exists "1", 1%Z, (show_seconds 1). by vm_compute.
  - exists "2", 2%Z, (show_seconds 2). by vm_compute.
  - exists "3", 3%Z, (show_seconds 3). by vm_compute.
  - exists "4", 4%Z, (show_seconds 4). by vm_compute.
Qed.

Lemma demo_corpus_flat : flat_threads demo_corpus.
Proof.
  intros m p Hm Hp Hr Hts.
  unfold demo_corpus in Hm, Hp. rewrite !elem_of_cons, elem_of_nil in Hm, Hp.
  destruct Hm as [->|[->|[->|[->|[]]]]]; try (vm_compute in Hr; discriminate Hr).
  destruct Hp as [->|[->|[->|[->|[]]]]]; try (vm_compute in Hts; discriminate Hts).
  vm_compute. reflexivity.
Qed.

Lemma index_slack_messages_ids_witness :
  (∀ m, m ∈ demo_corpus → indexable parse_seconds format_seconds m) ∧
  flat_threads demo_corpus ∧
  let extracted := flat_map (message_candidates "chan") demo_corpus in
  ∃ batches,
    (∀ handed,
       index_slack_messages parse_seconds format_seconds strict_collection 2
                            demo_corpus "chan" handed
       = for_each batches (add_call strict_collection) handed) ∧
    map ids batches
    = filter (λ l, l ≠ [])
        (map (λ url, map (entry_id "chan" url) (group_of extracted url demo_corpus))
             (od_keys (empty_groups extracted))).
Proof.
  split; [exact demo_corpus_indexable|]. split; [exact demo_corpus_flat|].
  exact (index_slack_messages_ids parse_seconds format_seconds strict_collection 2
           demo_corpus "chan" (le_n 2) demo_corpus_indexable demo_corpus_flat).
Defined.

Definition demo_candidate_again : Candidate :=
  mkCandidate "J. Doe" demo_url (VStr "7") (VStr "7") "chan" (VStr "")
              "again <https://linkedin.com/in/jdoe|J. Doe>".

Lemma index_slack_messages_repeats_ids_witness :
  flat_map (message_candidates "chan") [demo_anchor; demo_again]
    = [] ++ demo_candidate :: [] ++ demo_candidate_again :: [] ∧
  named_by demo_candidate demo_anchor = true ∧
  named_by demo_candidate_again demo_anchor = true ∧
  ∃ before batch after,
    (∀ handed,
       index_slack_messages parse_seconds format_seconds strict_collection 2
                            [demo_anchor; demo_again] "chan" handed
       = for_each (before ++ batch :: after) (add_call strict_collection) handed) ∧
    ¬ NoDup (ids batch) ∧
    ((∀ b, b ∈ before → strict_collection b = Ok tt) →
     batch ∈ fst (index_slack_messages parse_seconds format_seconds strict_collection
                                       2 [demo_anchor; demo_again] "chan" []) ∧
     ∀ e, strict_collection batch = Raise e →
          index_slack_messages parse_seconds format_seconds strict_collection
                               2 [demo_anchor; demo_again] "chan" []
          = (before ++ [batch], Raise e)).
Proof.
  assert (Hidx : ∀ m, m ∈ [demo_anchor; demo_again] →
                      indexable parse_seconds format_seconds m).
  { intros m. rewrite !elem_of_cons, elem_of_nil. intros [->|[->|[]]].
    - split; [eexists; vm_compute; reflexivity|].
      exists "1", 1%Z, (show_seconds 1). by vm_compute.
    - split; [eexists; vm_compute; reflexivity|].
      exists "7", 7%Z, (show_seconds 7). by vm_compute. }
  assert (Hflat : flat_threads [demo_anchor; demo_again]).
  { intros m p Hm _ Hr _. rewrite !elem_of_cons, elem_of_nil in Hm.
    destruct Hm as [->|[->|[]]]; vm_compute in Hr; discriminate Hr. }
  assert (Hcs : flat_map (message_candidates "chan") [demo_anchor; demo_again]
                = [] ++ demo_candidate :: [] ++ demo_candidate_again :: [])
    by (vm_compute; reflexivity).
  assert (Hn1 : named_by demo_candidate demo_anchor = true)
    by (vm_compute; reflexivity).
  assert (Hn2 : named_by demo_candidate_again demo_anchor = true)
    by (vm_compute; reflexivity).
  assert (Hin : demo_anchor ∈ [demo_anchor; demo_again]) by left.
  split; [exact Hcs|]. split; [exact Hn1|]. split; [exact Hn2|].
  exact (index_slack_messages_repeats_ids parse_seconds format_seconds
           strict_collection 2 [demo_anchor; demo_again] "chan" [] demo_candidate []
           demo_candidate_again [] demo_anchor (le_n 2) Hidx Hflat Hcs eq_refl Hin
           Hn1 Hn2).
Defined.

(** On this corpus the collection is handed the one batch, with the id
    of the first message twice, and refuses it. *)
Example index_slack_messages_refused :
  index_slack_messages parse_seconds format_seconds strict_collection 2
                       [demo_anchor; demo_again] "chan" []
  = ([mkBatch
        ["@1 [chan] <https://linkedin.com/in/jdoe|Jane Doe>";
         "@1 [chan] <https://linkedin.com/in/jdoe|Jane Doe>";
         "@7 [chan] again <https://linkedin.com/in/jdoe|J. Doe>";
         "@7 [chan] again <https://linkedin.com/in/jdoe|J. Doe>"]
        [mkMetadata "chan" (VStr "") (VStr "1") "@1" "Jane Doe" demo_url false;
         mkMetadata "chan" (VStr "") (VStr "1") "@1" "Jane Doe" demo_url false;
         mkMetadata "chan" (VStr "") (VStr "7") "@7" "Jane Doe" demo_url false;
         mkMetadata "chan" (VStr "") (VStr "7") "@7" "Jane Doe" demo_url false]
        ["chan_1_https://linkedin.com/in/jdoe";
         "chan_1_https://linkedin.com/in/jdoe";
         "chan_7_https://linkedin.com/in/jdoe";
         "chan_7_https://linkedin.com/in/jdoe"]],
     Raise (Exn "DuplicateIDError" "Expected IDs to be unique")).
Proof. vm_compute. reflexivity. Qed.

End IndexFacts.

(** ** The extractor on top of the backend *)

Module PipelineFacts.
Import Py Re Eff Extractor Rag PyFacts ExtractorFacts RagFacts.

(** X24. [associate_fuzzy] on the backend's [semantic_search]: when the
    query optimizer cannot be reached, every search is made with the text
    of the error, so the backend gives the same answer for every message,
    and the fuzzy test no longer depends on what a message says: if it
    files one message under a candidate, it files every message that is
    not yet in the candidate's [threads] or [direct] and is not her
    anchor. *)
Theorem unreachable_optimizer_judges_alike (c : Collaborators) e channel_name :
  anthropic_client c = Ok tt →
  (∀ system prompt, messages_create c system prompt = Raise e) →
  (∀ text text' n, as_backend c text n channel_name = as_backend c text' n channel_name) ∧
  (∀ msg msg' uc b,
     fuzzy_sel (as_backend c) channel_name msg uc b = true →
     msg_in msg' (threads b) || msg_in msg' (direct b)
       || py_eqb (get msg' "id") (message_id (snd uc)) = false →
     fuzzy_sel (as_backend c) channel_name msg' uc b = true).
Proof.
  intros Hc He.
  assert (Hsame : ∀ text text' n,
            as_backend c text n channel_name = as_backend c text' n channel_name).
  { intros text text' n. unfold as_backend.
    by rewrite !(optimizer_error_text_is_searched c _ n _ _ _ e Hc (He _ _)). }
  split; [exact Hsame|].
  intros msg msg' uc b Hsel Hnew. unfold fuzzy_sel in *.
  apply andb_prop in Hsel as [_ Hdocs]. rewrite Hnew. simpl.
  by rewrite (Hsame _ (get_or msg "text" (VStr ""))).
Qed.

Lemma unreachable_optimizer_judges_alike_witness :
  anthropic_client offline_optimizer = Ok tt ∧
  (∀ system prompt,
     messages_create offline_optimizer system prompt
     = Raise (Exn "APIConnectionError" "Connection error.")) ∧
  (∀ text text' n,
     as_backend offline_optimizer text n "chan"
     = as_backend offline_optimizer text' n "chan") ∧
  (∀ msg msg' uc b,
     fuzzy_sel (as_backend offline_optimizer) "chan" msg uc b = true →
     msg_in msg' (threads b) || msg_in msg' (direct b)
       || py_eqb (get msg' "id") (message_id (snd uc)) = false →
     fuzzy_sel (as_backend offline_optimizer) "chan" msg' uc b = true).
Proof.
  split; [reflexivity|]. split; [reflexivity|].
  exact (unreachable_optimizer_judges_alike offline_optimizer
           (Exn "APIConnectionError" "Connection error.") "chan" eq_refl
           (λ _ _, eq_refl)).
Defined.

End PipelineFacts.

(** ** The channel-activity builder *)

Module ActivityFacts.
Import Py Rag Activity PyFacts.

(** The thread [pt] is one the first loop writes a line for: a message
    of the channel is a reply in it, and the store has its parent. *)
Definition has_parent_line (ds : ActivityStore) (msgs : list Message)
    (included : list pyval) (pt : pyval) : Prop :=
  (pt ∉ included) ∧
  (∃ m, m ∈ msgs ∧ is_thread_reply m = true ∧ get m "thread_ts" = pt) ∧
  (∃ parent, get_message_by_ts ds pt = Some parent ∧ parent ≠ ∅).

(** X25. The first loop of the channel-activity builder writes one
    "Parent Message" line for each thread that has a reply among the
    channel's messages and whose parent the store finds, however many
    replies of the thread there are: its lines are the parents' texts of
    a list of threads without repetition, which has exactly those
    threads. *)
Theorem parent_lines_once (ds : ActivityStore) (msgs : list Message)
    (included : list pyval) :
  ∃ pts,
    NoDup pts ∧
    (∀ pt, pt ∈ pts ↔ has_parent_line ds msgs included pt) ∧
    parent_lines ds msgs included
    = map (λ pt, "Parent Message: "
                   +:+ py_str (get (default ∅ (get_message_by_ts ds pt)) "text"))
          pts.
Proof.
  revert included. induction msgs as [|m msgs IH]; intros included.
  - exists []. split; [constructor|]. split; [|done].
    intros pt. split; [by intros H%elem_of_nil|].
    intros (_ & (m & Hm & _) & _). by apply elem_of_nil in Hm.
  - assert (Hskip : ∀ pts : list pyval,
      (∀ pt, pt ∈ pts ↔ has_parent_line ds msgs included pt) →
      ¬ has_parent_line ds [m] included (get m "thread_ts") →
      ∀ pt, pt ∈ pts ↔ has_parent_line ds (m :: msgs) included pt).
    { intros pts Hpts Hno pt. rewrite Hpts. unfold has_parent_line. split.
      - intros (Hinc & (m' & Hm' & Hr & Ht) & Hp).
        split; [done|]. split; [|done]. exists m'. split; [by right | done].
      - intros (Hinc & (m' & Hm' & Hr & Ht) & Hp).
        split; [done|]. split; [|done].
        apply elem_of_cons in Hm' as [->|Hm']; [|by exists m'].
        exfalso. apply Hno. rewrite Ht. split; [done|]. split; [|done].
        exists m. split; [left | done]. }
    cbn [parent_lines]. destruct (is_thread_reply m) eqn:Hr.
    2:{ destruct (IH included) as (pts & Hnd & Hpts & Hlines).
        exists pts. split; [done|]. split; [|done]. apply Hskip; [done|].
        intros (_ & (m' & Hm' & Hr' & _) & _).
        apply list_elem_of_singleton in Hm' as ->. congruence. }
    destruct (bool_decide (get m "thread_ts" ∈ included)) eqn:Hinc.
    { destruct (IH included) as (pts & Hnd & Hpts & Hlines).
      exists pts. split; [done|]. split; [|done]. apply Hskip; [done|].
      intros (Hno & _). by apply bool_decide_eq_true in Hinc. }
    apply bool_decide_eq_false in Hinc.
    destruct (get_message_by_ts ds (get m "thread_ts")) as [parent|] eqn:Hp.
    2:{ destruct (IH included) as (pts & Hnd & Hpts & Hlines).
        exists pts. split; [done|]. split; [|done]. apply Hskip; [done|].
        intros (_ & _ & (parent & Hp' & _)). congruence. }
    destruct (bool_decide (parent = ∅)) eqn:He.
    { destruct (IH included) as (pts & Hnd & Hpts & Hlines).
      exists pts. split; [done|]. split; [|done]. apply Hskip; [done|].
      intros (_ & _ & (parent' & Hp' & Hne)). apply bool_decide_eq_true in He.
      congruence. }
    apply bool_decide_eq_false in He.
    destruct (IH (get m "thread_ts" :: included)) as (pts & Hnd & Hpts & Hlines).
    exists (get m "thread_ts" :: pts). split.
    { constructor; [|done]. intros Hin. apply Hpts in Hin as (Hno & _).
      apply Hno. left. }
    split.
    + intros pt. rewrite elem_of_cons, Hpts. unfold has_parent_line. split.
      * intros [->|(Hno & (m' & Hm' & Hr' & Ht) & Hpar)].
        -- split; [done|]. split; [|by exists parent].
           exists m. split; [left | done].
        -- split; [intros H; apply Hno; by right|]. split; [|done].
           exists m'. split; [by right | done].
      * intros (Hno & (m' & Hm' & Hr' & Ht) & Hpar).
        destruct (decide (pt = get m "thread_ts")) as [->|Hne]; [by left|].
        right. split; [by intros [?|?]%elem_of_cons|]. split; [|done].
        apply elem_of_cons in Hm' as [->|Hm']; [congruence|]. by exists m'.
    + cbn [map]. rewrite Hp. simpl. by rewrite Hlines.
Qed.

End ActivityFacts.
